(** * micro-GA: a shallow embedding of [micro-ga.c] and its properties

    The engine of [src/micro-ga.c] (with the types of [src/micro-ga.h]) is
    embedded function by function.  Conventions of the embedding:

    - [float] and [double] are IEEE-754 binary32 and binary64 values, with
      the operations of the Standard Library's [SpecFloat] (round to nearest,
      ties to even; every operation rounds to the type of its C expression).
    - [unsigned int] is 32 bits wide, [unsigned long] 64 bits (LP64);
      [RAND_MAX] is the constant of glibc.
    - [rand()] reads a tape of future results: the hidden state of the C
      library's generator, passed around explicitly.
    - the callbacks [fitness_fn] and [acceptance_fn] receive a pointer to a
      genome and may touch whatever the caller's program owns: they are state
      transformers over a caller's world [W].
    - a function can return, stop at a failed [assert], run into an invalid
      memory access, or not return at all: see [outcome].
    - functions, types and fields keep their names; where two structures
      share a field name, the fields of [micro_ga_config_t] take the prefix
      [cfg_] and the engine's [genome_size] is [ga_genome_size]. *)

From Stdlib Require Import ZArith Bool Lia String.
From Stdlib Require Import Floats.SpecFloat.
From Stdlib Require Import Permutation Sorted.
From stdpp Require Import base tactics option list.

Local Open Scope Z_scope.

(** ** IEEE-754 arithmetic of the C types *)

Definition float := spec_float.   (* C [float]: binary32 *)
Definition double := spec_float.  (* C [double]: binary64 *)

Definition fadd : float -> float -> float := SFadd 24 128.
Definition fsub : float -> float -> float := SFsub 24 128.
Definition fmul : float -> float -> float := SFmul 24 128.
Definition fdiv : float -> float -> float := SFdiv 24 128.
Definition dadd : double -> double -> double := SFadd 53 1024.
Definition ddiv : double -> double -> double := SFdiv 53 1024.

(** Conversions: integer to floating point, and between the two formats. *)
Definition float_of_int (k : Z) : float := binary_normalize 24 128 k 0 false.
Definition double_of_int (k : Z) : double := binary_normalize 53 1024 k 0 false.

Definition float_of_double (x : double) : float :=
  match x with
  | S754_finite s m e => binary_round 24 128 s m e
  | _ => x
  end.

Definition double_of_float (x : float) : double :=
  match x with
  | S754_finite s m e => binary_round 53 1024 s m e
  | _ => x
  end.

(** The comparisons of C: false as soon as an operand is a NaN. *)
Definition flt (x y : spec_float) : bool := SFltb x y.
Definition fgt (x y : spec_float) : bool := SFltb y x.
Definition fle (x y : spec_float) : bool := SFleb x y.

Definition is_nan (x : spec_float) : bool :=
  match x with S754_nan => true | _ => false end.

(** The literals of the source. *)
Definition f_zero : float := float_of_int 0.            (* [0] compared with a float *)
Definition f_one : float := float_of_int 1.             (* [1.0f] *)
Definition f_minus_one : float := float_of_int (-1).    (* [-1.0] stored in a float *)
Definition d_zero : double := double_of_int 0.
Definition d_one : double := double_of_int 1.
Definition d_half : double := ddiv (double_of_int 1) (double_of_int 2).  (* [0.5] *)

#[global] Instance float_inhabited : Inhabited spec_float := populate (S754_zero false).

(** ** The C library: [rand], [RAND_MAX] *)

(** [RAND_MAX] comes from [<stdlib.h>], not from the repository: this is the
    value of glibc, 2^31 - 1 (musl and macOS have the same). *)
Definition RAND_MAX : Z := 2147483647.

(** The generator: the results that [rand()] is going to return, and how
    many of them have been consumed. *)
Record rng := { tape : nat -> Z; cursor : nat }.

Definition rand (r : rng) : Z * rng :=
  (tape r (cursor r), {| tape := tape r; cursor := S (cursor r) |}).

(** What the C standard promises of every result of [rand()]. *)
Definition rand_in_range (r : rng) : Prop :=
  forall i : nat, 0 <= tape r i <= RAND_MAX.

(** [rand()/((float)RAND_MAX + 1)] and [rand()/((double)RAND_MAX + 1)],
    as functions of the integer that [rand()] returned. *)
Definition unit_float (k : Z) : float :=
  fdiv (float_of_int k) (fadd (float_of_int RAND_MAX) (float_of_int 1)).

Definition unit_double (k : Z) : double :=
  ddiv (double_of_int k) (dadd (double_of_int RAND_MAX) (double_of_int 1)).

Definition frand (r : rng) : float * rng :=
  let '(k, r') := rand r in (unit_float k, r').

Definition drand (r : rng) : double * rng :=
  let '(k, r') := rand r in (unit_double k, r').

(** Skipping [n] results of [rand()]. *)
Definition advance (n : nat) (r : rng) : rng :=
  {| tape := tape r; cursor := (cursor r + n)%nat |}.

(** ** Outcomes of a call *)

Inductive outcome (A : Type) : Type :=
| Returned (a : A)      (* the call returns *)
| Aborted               (* a failed [assert]: the process is aborted *)
| Fault (a : A)         (* an access through a pointer with nothing behind it, in state [a] *)
| Diverged              (* the call provably never returns *)
| OutOfFuel.            (* no return within the steps granted *)

Arguments Returned {A} a.
Arguments Aborted {A}.
Arguments Fault {A} a.
Arguments Diverged {A}.
Arguments OutOfFuel {A}.

(** ** Genomes ([micro_ga_genome_t]) *)

Record micro_ga_genome_t := {
  genome_size : Z;        (* unsigned long *)
  genes : list float;     (* the buffer [genes] points to *)
  fitness : float
}.

#[global] Instance genome_inhabited : Inhabited micro_ga_genome_t :=
  populate {| genome_size := 0; genes := []; fitness := S754_zero false |}.

(** A genome as the engine allocates it: the buffer holds [genome_size] genes. *)
Definition genome_wf (g : micro_ga_genome_t) : Prop :=
  0 <= genome_size g < 2 ^ 32 /\ Z.of_nat (length (genes g)) = genome_size g.

(** [g->genes[n]] *)
Definition gene (g : micro_ga_genome_t) (n : nat) : float := genes g !!! n.

(** ** [crossover] *)

(** The loop of [crossover], [k] iterations from index [n] on; [cg] is the
    child's gene buffer. *)
Fixpoint crossover_genes (k n : nat) (mother father : micro_ga_genome_t)
    (crossover_rate : float) (cg : list float) (r : rng) : list float * rng :=
  match k with
  | O => (cg, r)
  | S k' =>
      let '(c, r1) := frand r in
      if fgt c crossover_rate then
        let '(c, r2) := frand r1 in
        crossover_genes k' (S n) mother father crossover_rate
          (<[n := fadd (fmul c (gene mother n)) (fmul (fsub f_one c) (gene father n))]> cg) r2
      else
        let '(c, r2) := frand r1 in
        if fgt (double_of_float c) d_half then
          crossover_genes k' (S n) mother father crossover_rate (<[n := gene mother n]> cg) r2
        else
          crossover_genes k' (S n) mother father crossover_rate (<[n := gene father n]> cg) r2
  end.

(** [crossover(mother, father, child, genome_size, crossover_rate)]; the
    three pointers are never null where the engine calls it.  The counter
    [n] is an [unsigned int] compared with an [unsigned long]: from 2^32 on
    the loop never ends. *)
Definition crossover (mother father child : micro_ga_genome_t) (gsize : Z)
    (crossover_rate : float) (r : rng) : outcome (micro_ga_genome_t * rng) :=
  if negb (0 <? gsize) then Aborted
  else if 2 ^ 32 <=? gsize then Diverged
  else
    let '(cg, r') :=
      crossover_genes (Z.to_nat gsize) 0 mother father crossover_rate (genes child) r in
    Returned ({| genome_size := gsize; genes := cg; fitness := f_minus_one |}, r').

(** ** [mutate] *)

Fixpoint mutate_genes (k g : nat) (mutation_rate : float) (gs : list float)
    (r : rng) : list float * rng :=
  match k with
  | O => (gs, r)
  | S k' =>
      let '(x, r1) := drand r in
      if flt x (double_of_float mutation_rate) then
        let '(x, r2) := drand r1 in
        mutate_genes k' (S g) mutation_rate (<[g := float_of_double x]> gs) r2
      else
        mutate_genes k' (S g) mutation_rate gs r1
  end.

Definition mutate (individual : micro_ga_genome_t) (mutation_rate : float)
    (r : rng) : outcome (micro_ga_genome_t * rng) :=
  if 2 ^ 32 <=? genome_size individual then Diverged
  else
    let '(gs, r') :=
      mutate_genes (Z.to_nat (genome_size individual)) 0 mutation_rate
        (genes individual) r in
    Returned ({| genome_size := genome_size individual; genes := gs;
                 fitness := fitness individual |}, r').

(** ** [genome_compare], the comparison handed to [qsort] *)

Definition genome_compare (genome1 genome2 : micro_ga_genome_t) : Z :=
  let fitness1 := fitness genome1 in
  let fitness2 := fitness genome2 in
  if flt fitness1 fitness2 then -1
  else if fgt fitness1 fitness2 then 1
  else 0.

(** What the C standard asks of a comparison function on the objects of the
    array: its results define a total ordering of them. *)
Definition total_ordering {A : Type} (cmp : A -> A -> Z) (l : list A) : Prop :=
  (forall a b, a ∈ l -> b ∈ l -> Z.sgn (cmp b a) = - Z.sgn (cmp a b)) /\
  (forall a b c, a ∈ l -> b ∈ l -> c ∈ l ->
     cmp a b <= 0 -> cmp b c <= 0 -> cmp a c <= 0).

(** An insertion sort: one function that meets the contract of [qsort]. *)
Fixpoint insert_sorted {A : Type} (cmp : A -> A -> Z) (x : A) (l : list A) : list A :=
  match l with
  | [] => [x]
  | y :: l' => if cmp x y <=? 0 then x :: l else y :: insert_sorted cmp x l'
  end.

Definition insertion_sort (A : Type) (cmp : A -> A -> Z) (l : list A) : list A :=
  foldr (insert_sorted cmp) [] l.

(** ** The loops of [micro_ga_evolve] that need no callback *)

(** [for(n = 0; n < population_size; n++) tfitness += individuals[n].fitness;] *)
Fixpoint total_fitness (k n : nat) (inds : list micro_ga_genome_t)
    (tfitness : double) : double :=
  match k with
  | O => tfitness
  | S k' =>
      total_fitness k' (S n) inds
        (dadd tfitness (double_of_float (fitness (inds !!! n))))
  end.

(** The loop that fills [prob]. *)
Fixpoint cumulative_prob (k n : nat) (inds : list micro_ga_genome_t)
    (tfitness cumulative : double) (prob : list double) : list double :=
  match k with
  | O => prob
  | S k' =>
      let cumulative :=
        dadd cumulative (ddiv (double_of_float (fitness (inds !!! n))) tfitness) in
      cumulative_prob k' (S n) inds tfitness cumulative (<[n := cumulative]> prob)
  end.

(** [tfitness] and [prob] of a population of [population_size] sorted
    individuals; [prob] comes zeroed from [calloc]. *)
Definition selection_distribution (psize : Z) (inds : list micro_ga_genome_t)
    : list double :=
  let tfitness := total_fitness (Z.to_nat psize) 0 inds d_zero in
  cumulative_prob (Z.to_nat psize) 0 inds tfitness d_zero
    (replicate (Z.to_nat psize) (S754_zero false)).

(** [for(x = 0; x < population_size; x++) if(r <= prob[x]) { ... = x; break; }]:
    the index stored, if any. *)
Fixpoint roulette (k x : nat) (r : double) (prob : list double) : option nat :=
  match k with
  | O => None
  | S k' => if fle r (prob !!! x) then Some x else roulette k' (S x) r prob
  end.

Definition store_parent (slot : nat) (found : option nat) (parents : list nat)
    : list nat :=
  match found with
  | Some x => <[slot := x]> parents
  | None => parents
  end.

(** The selection loop [for(n = 0; n < replace; )]; one unit of fuel per test
    of its condition. *)
Fixpoint select_parents (fuel : nat) (psize replace n : Z) (pcount : nat)
    (prob : list double) (parents : list nat) (r : rng)
    : outcome (list nat * nat * rng) :=
  match fuel with
  | O => OutOfFuel
  | S fuel' =>
      if n <? replace then
        let '(r1, rg) := drand r in
        let parents := store_parent pcount (roulette (Z.to_nat psize) 0 r1 prob) parents in
        let '(r2, rg) := drand rg in
        let parents :=
          store_parent (pcount + 1) (roulette (Z.to_nat psize) 0 r2 prob) parents in
        if decide (parents !!! pcount = parents !!! (pcount + 1)%nat) then
          select_parents fuel' psize replace n pcount prob parents rg
        else
          select_parents fuel' psize replace (n + 1) (pcount + 2) prob parents rg
      else Returned (parents, pcount, r)
  end.

(** The loop "Breed!": [k] iterations, [n] steps by two, [nchildren] by one. *)
Fixpoint breed (k n nchildren : nat) (inds : list micro_ga_genome_t)
    (parents : list nat) (gsize : Z) (rate : float)
    (children : list micro_ga_genome_t) (r : rng)
    : outcome (list micro_ga_genome_t * rng) :=
  match k with
  | O => Returned (children, r)
  | S k' =>
      let mother := inds !!! (parents !!! n) in
      let father := inds !!! (parents !!! (n + 1)%nat) in
      let child := children !!! nchildren in
      match crossover mother father child gsize rate r with
      | Returned (c, r') =>
          breed k' (n + 2) (nchildren + 1) inds parents gsize rate
            (<[nchildren := c]> children) r'
      | Aborted => Aborted
      | Fault _ => Fault (children, r)
      | Diverged => Diverged
      | OutOfFuel => OutOfFuel
      end
  end.

(** The loop "Mutate!". *)
Fixpoint mutate_children (k n : nat) (rate : float)
    (children : list micro_ga_genome_t) (r : rng)
    : outcome (list micro_ga_genome_t * rng) :=
  match k with
  | O => Returned (children, r)
  | S k' =>
      match mutate (children !!! n) rate r with
      | Returned (c, r') => mutate_children k' (S n) rate (<[n := c]> children) r'
      | Aborted => Aborted
      | Fault _ => Fault (children, r)
      | Diverged => Diverged
      | OutOfFuel => OutOfFuel
      end
  end.

(** One turn of the replacement loop: the size is copied, then [memcpy]
    moves that many genes into the individual's buffer, and the fitness is
    set to [-1.0]. *)
Definition replace_individual (old child : micro_ga_genome_t) : micro_ga_genome_t :=
  let size := genome_size child in
  {| genome_size := size;
     genes := take (Z.to_nat size) (genes child) ++ drop (Z.to_nat size) (genes old);
     fitness := f_minus_one |}.

Fixpoint replace_individuals (k n : nat) (children inds : list micro_ga_genome_t)
    : list micro_ga_genome_t :=
  match k with
  | O => inds
  | S k' =>
      replace_individuals k' (S n) children
        (<[n := replace_individual (inds !!! n) (children !!! n)]> inds)
  end.

(** [unsigned int] arithmetic. *)
Definition u32 (z : Z) : Z := z mod 2 ^ 32.

(** A child as [calloc] leaves it, with its zeroed gene buffer. *)
Definition fresh_child (gsize : Z) : micro_ga_genome_t :=
  {| genome_size := 0;
     genes := replicate (Z.to_nat gsize) (S754_zero false);
     fitness := S754_zero false |}.

(** ** The engine: configuration, state, entry points *)

Section Engine.

(** The caller's world, and the C library's [qsort]. *)
Variable W : Type.
Variable qsort : forall A : Type, (A -> A -> Z) -> list A -> list A.

(** [void (*fitness_fn)(micro_ga_genome_t*)] and
    [unsigned int (*acceptance_fn)(micro_ga_genome_t*)]. *)
Definition fitness_fn_t : Type := W -> micro_ga_genome_t -> W * micro_ga_genome_t.
Definition acceptance_fn_t : Type :=
  W -> micro_ga_genome_t -> W * micro_ga_genome_t * Z.

(** [micro_ga_config_t]; a null function pointer is [None]. *)
Record micro_ga_config_t := {
  cfg_population_size : Z;     (* unsigned int *)
  cfg_genome_size : Z;         (* unsigned long *)
  cfg_mutation_rate : float;
  cfg_crossover_rate : float;
  cfg_fitness_thresh : float;
  cfg_fitness_fn : option fitness_fn_t;
  cfg_acceptance_fn : option acceptance_fn_t;
  cfg_debug : Z
}.

(** [micro_ga_t]; [individuals] is [None] when there is no array behind the
    pointer: the null pointer, or the address of an array that has been
    handed to [free]. *)
Record micro_ga_t := {
  generation : Z;
  population_size : Z;
  mutation_rate : float;
  crossover_rate : float;
  fitness_thresh : float;
  individuals : option (list micro_ga_genome_t);
  ga_genome_size : Z;
  fitness_fn : option fitness_fn_t;
  acceptance_fn : option acceptance_fn_t;
  ready : Z;
  debug : Z
}.

Definition set_individuals (ga : micro_ga_t) (inds : option (list micro_ga_genome_t))
    : micro_ga_t :=
  {| generation := generation ga; population_size := population_size ga;
     mutation_rate := mutation_rate ga; crossover_rate := crossover_rate ga;
     fitness_thresh := fitness_thresh ga; individuals := inds;
     ga_genome_size := ga_genome_size ga; fitness_fn := fitness_fn ga;
     acceptance_fn := acceptance_fn ga; ready := ready ga; debug := debug ga |}.

Definition set_ready (ga : micro_ga_t) (flag : Z) : micro_ga_t :=
  {| generation := generation ga; population_size := population_size ga;
     mutation_rate := mutation_rate ga; crossover_rate := crossover_rate ga;
     fitness_thresh := fitness_thresh ga; individuals := individuals ga;
     ga_genome_size := ga_genome_size ga; fitness_fn := fitness_fn ga;
     acceptance_fn := acceptance_fn ga; ready := flag; debug := debug ga |}.

(** What a call leaves behind: the engine, the caller's world, the
    generator, and the lines written to [stderr]. *)
Record run := {
  engine : micro_ga_t;
  world : W;
  random : rng;
  stderr : list string
}.

(** *** [population_init] *)

(** The inner loop: [genes[g] = rand()/((float)RAND_MAX + 1)]. *)
Fixpoint seed_genes (k g : nat) (gs : list float) (r : rng) : list float * rng :=
  match k with
  | O => (gs, r)
  | S k' => let '(x, r') := frand r in seed_genes k' (S g) (<[g := x]> gs) r'
  end.

Definition seed_genome (g : micro_ga_genome_t) (r : rng) : micro_ga_genome_t * rng :=
  let '(gs, r') := seed_genes (Z.to_nat (genome_size g)) 0 (genes g) r in
  ({| genome_size := genome_size g; genes := gs; fitness := fitness g |}, r').

(** The outer loop; a rejected candidate takes [n] back by one, so that the
    same slot is drawn again.  One unit of fuel per candidate. *)
Fixpoint population_init_loop (fuel : nat) (psize : Z) (accept : option acceptance_fn_t)
    (n : nat) (inds : list micro_ga_genome_t) (w : W) (r : rng)
    : outcome (list micro_ga_genome_t * W * rng) :=
  if Z.of_nat n <? psize then
    match fuel with
    | O => OutOfFuel
    | S fuel' =>
        if 2 ^ 32 <=? genome_size (inds !!! n) then Diverged
        else
          let '(g, r') := seed_genome (inds !!! n) r in
          match accept with
          | None => population_init_loop fuel' psize accept (S n) (<[n := g]> inds) w r'
          | Some acc =>
              let '(w', g', acceptable) := acc w g in
              if acceptable =? 0 then
                population_init_loop fuel' psize accept n (<[n := g']> inds) w' r'
              else
                population_init_loop fuel' psize accept (S n) (<[n := g']> inds) w' r'
          end
    end
  else Returned (inds, w, r).

Definition population_init (fuel : nat) (ga : micro_ga_t) (w : W) (r : rng)
    : outcome (micro_ga_t * W * rng) :=
  match individuals ga with
  | None => Fault (ga, w, r)
  | Some inds =>
      match population_init_loop fuel (population_size ga) (acceptance_fn ga) 0 inds w r with
      | Returned (inds', w', r') => Returned (set_individuals ga (Some inds'), w', r')
      | Aborted => Aborted
      | Fault _ => Fault (ga, w, r)
      | Diverged => Diverged
      | OutOfFuel => OutOfFuel
      end
  end.

(** *** [micro_ga_init] *)

(** The engine after [memset] and the copy of the configuration. *)
Definition configured (config : micro_ga_config_t) : micro_ga_t :=
  {| generation := 0;
     population_size := cfg_population_size config;
     mutation_rate := cfg_mutation_rate config;
     crossover_rate := cfg_crossover_rate config;
     fitness_thresh := cfg_fitness_thresh config;
     individuals := None;
     ga_genome_size := cfg_genome_size config;
     fitness_fn := cfg_fitness_fn config;
     acceptance_fn := cfg_acceptance_fn config;
     ready := 0;
     debug := 0 |}.

(** The test "Check required parameters". *)
Definition config_rejected (config : micro_ga_config_t) : bool :=
  (cfg_population_size config =? 0) ||
  (cfg_genome_size config =? 0) ||
  match cfg_fitness_fn config with None => true | Some _ => false end ||
  flt (cfg_mutation_rate config) f_zero ||
  flt (cfg_crossover_rate config) f_zero ||
  flt (cfg_fitness_thresh config) f_zero.

(** An individual as the allocation loop leaves it. *)
Definition blank_individual (gsize : Z) : micro_ga_genome_t :=
  {| genome_size := gsize;
     genes := replicate (Z.to_nat gsize) (S754_zero false);
     fitness := f_minus_one |}.

(** [micro_ga_init(ga, config)]: the value returned and the engine [ga]
    points to ([None]: a null [ga]).  [calloc_ok] tells whether the array of
    individuals can be allocated; the gene buffers, which the source does not
    check, are taken to be allocated. *)
Definition micro_ga_init (fuel : nat) (calloc_ok : bool) (ga : option micro_ga_t)
    (config : option micro_ga_config_t) (w : W) (r : rng)
    : outcome (Z * option micro_ga_t * W * rng) :=
  match ga, config with
  | None, _ | _, None => Returned (-1, ga, w, r)
  | Some _, Some config =>
      if config_rejected config then Returned (-2, ga, w, r)
      else if negb calloc_ok then Returned (-1, Some (configured config), w, r)
      else
        let inds :=
          replicate (Z.to_nat (cfg_population_size config))
            (blank_individual (cfg_genome_size config)) in
        match population_init fuel (set_individuals (configured config) (Some inds)) w r with
        | Returned (ga', w', r') => Returned (0, Some (set_ready ga' 1), w', r')
        | Aborted => Aborted
        | Fault _ => Fault (-1, ga, w, r)
        | Diverged => Diverged
        | OutOfFuel => OutOfFuel
        end
  end.

(** *** [micro_ga_destroy] *)

(** The gene buffer of every individual and the array of individuals are
    handed to [free], then the flag is cleared.  The pointer is not reset,
    but what it points to is gone: the engine is left without anything to
    read through [individuals].  The one test of the pointer in the code is
    the one here, on a ready engine, where [None] is the null pointer and
    nothing is released. *)

Definition micro_ga_destroy (ga : option micro_ga_t) : Z * option micro_ga_t :=
  match ga with
  | None => (-1, ga)
  | Some g =>
      if negb (ready g =? 1) then (-1, ga)
      else (0, Some (set_ready (set_individuals g None) 0))
  end.

(** *** [micro_ga_sort] *)

(** [qsort(individuals, population_size, sizeof(micro_ga_genome_t), &genome_compare)] *)
Definition sort_individuals (psize : Z) (inds : list micro_ga_genome_t)
    : list micro_ga_genome_t :=
  qsort _ genome_compare (take (Z.to_nat psize) inds) ++ drop (Z.to_nat psize) inds.

Definition micro_ga_sort (ga : micro_ga_t) : outcome micro_ga_t :=
  match individuals ga with
  | None => if population_size ga =? 0 then Returned ga else Fault ga
  | Some inds =>
      Returned (set_individuals ga (Some (sort_individuals (population_size ga) inds)))
  end.

(** *** [micro_ga_evolve] *)

(** The loop "Get population fitness from external function". *)
Fixpoint evaluate (f : fitness_fn_t) (k n : nat) (inds : list micro_ga_genome_t)
    (w : W) : list micro_ga_genome_t * W :=
  match k with
  | O => (inds, w)
  | S k' =>
      let '(w', g) := f w (inds !!! n) in
      evaluate f k' (S n) (<[n := g]> inds) w'
  end.

(** Which of the three scratch arrays [calloc] can provide. *)
Record scratch := { prob_ok : bool; parents_ok : bool; children_ok : bool }.

Definition could_not_allocate : string :=
  String.append "Could not allocate memory" (String (Ascii.ascii_of_nat 10) EmptyString).

(** [micro_ga_evolve(ga)]; the output under [ga->debug] goes to [stdout]
    and is left out. *)
Definition micro_ga_evolve (fuel : nat) (heap : scratch) (ga : micro_ga_t) (w : W)
    (r : rng) : outcome run :=
  let at_ga g w r err := {| engine := g; world := w; random := r; stderr := err |} in
  if negb (ready ga =? 1) then Aborted
  else
  match fitness_fn ga with
  | None => Aborted
  | Some f =>
  match individuals ga with
  | None => Fault (at_ga ga w r [])
  | Some inds =>
  let psize := population_size ga in
  let '(inds, w) := evaluate f (Z.to_nat psize) 0 inds w in
  (* [children[n].genes = calloc(...)] comes before the test of the pointers *)
  if negb (children_ok heap) && (0 <? psize) then
    Fault (at_ga (set_individuals ga (Some inds)) w r [])
  else
  let err :=
    if negb (prob_ok heap) || negb (parents_ok heap) || negb (children_ok heap)
    then [could_not_allocate] else [] in
  let children := replicate (Z.to_nat psize) (fresh_child (ga_genome_size ga)) in
  let inds := sort_individuals psize inds in
  if negb (prob_ok heap) && (0 <? psize) then
    Fault (at_ga (set_individuals ga (Some inds)) w r err)
  else
  let prob := selection_distribution psize inds in
  let replace := u32 (psize - 1) in
  if negb (parents_ok heap) && (0 <? replace) then
    (* the first access through [parents] is the store of the mother after
       the first draw, when the wheel finds one; if not, it comes after the
       second draw, the store of the father or the comparison of the two *)
    let '(r1, rg) := drand r in
    match roulette (Z.to_nat psize) 0 r1 prob with
    | Some _ => Fault (at_ga (set_individuals ga (Some inds)) w rg err)
    | None =>
        let '(_, rg) := drand rg in
        Fault (at_ga (set_individuals ga (Some inds)) w rg err)
    end
  else
  let parents := replicate (Z.to_nat (u32 (psize * 2))) 0%nat in
  match select_parents fuel psize replace 0 0 prob parents r with
  | Returned (parents, _, r) =>
      match breed (Z.to_nat (u32 (replace * 2) / 2)) 0 0 inds parents
              (ga_genome_size ga) (crossover_rate ga) children r with
      | Returned (children, r) =>
          match mutate_children (Z.to_nat replace) 0 (mutation_rate ga) children r with
          | Returned (children, r) =>
              let inds := replace_individuals (Z.to_nat replace) 0 children inds in
              Returned (at_ga (set_individuals ga (Some inds)) w r err)
          | Aborted => Aborted
          | Fault _ => Fault (at_ga (set_individuals ga (Some inds)) w r err)
          | Diverged => Diverged
          | OutOfFuel => OutOfFuel
          end
      | Aborted => Aborted
      | Fault _ => Fault (at_ga (set_individuals ga (Some inds)) w r err)
      | Diverged => Diverged
      | OutOfFuel => OutOfFuel
      end
  | Aborted => Aborted
  | Fault _ => Fault (at_ga (set_individuals ga (Some inds)) w r err)
  | Diverged => Diverged
  | OutOfFuel => OutOfFuel
  end
  end
  end.

End Engine.

Arguments cfg_population_size {W} _.
Arguments cfg_genome_size {W} _.
Arguments cfg_mutation_rate {W} _.
Arguments cfg_crossover_rate {W} _.
Arguments cfg_fitness_thresh {W} _.
Arguments cfg_fitness_fn {W} _.
Arguments cfg_acceptance_fn {W} _.
Arguments cfg_debug {W} _.
Arguments generation {W} _.
Arguments population_size {W} _.
Arguments mutation_rate {W} _.
Arguments crossover_rate {W} _.
Arguments fitness_thresh {W} _.
Arguments individuals {W} _.
Arguments ga_genome_size {W} _.
Arguments fitness_fn {W} _.
Arguments acceptance_fn {W} _.
Arguments ready {W} _.
Arguments debug {W} _.
Arguments set_individuals {W} ga inds.
Arguments set_ready {W} ga flag.
Arguments engine {W} _.
Arguments world {W} _.
Arguments random {W} _.
Arguments stderr {W} _.
Arguments population_init_loop {W} fuel psize accept n inds w r.
Arguments population_init {W} fuel ga w r.
Arguments configured {W} config.
Arguments config_rejected {W} config.
Arguments micro_ga_init {W} fuel calloc_ok ga config w r.
Arguments micro_ga_destroy {W} ga.
Arguments micro_ga_sort {W} qsort ga.
Arguments evaluate {W} f k n inds w.
Arguments micro_ga_evolve {W} qsort fuel heap ga w r.

(** ** Notions used to state the properties *)

(** The mantissa of 53 digits with the value of [p] scaled by a power of two. *)
Definition mantissa53 (p : positive) : positive :=
  match (53 - Z.pos (digits2_pos p))%Z with
  | Z.pos d => Pos.iter xO p d
  | _ => p
  end.

(** An order-preserving key of the numbers that are not NaN: sign class,
    then exponent, then mantissa. *)
Definition float_key (x : spec_float) : Z * Z * Z :=
  match x with
  | S754_nan => (0, 0, 0)
  | S754_infinity true => (-2, 0, 0)
  | S754_infinity false => (2, 0, 0)
  | S754_zero _ => (0, 0, 0)
  | S754_finite true m e => (-1, - e, Z.neg m)
  | S754_finite false m e => (1, e, Z.pos m)
  end.

Definition key_compare (k1 k2 : Z * Z * Z) : comparison :=
  let '(a1, b1, c1) := k1 in
  let '(a2, b2, c2) := k2 in
  match a1 ?= a2 with
  | Eq => match b1 ?= b2 with Eq => c1 ?= c2 | o => o end
  | o => o
  end.

(** The gene that one turn of the loop of [crossover] stores at index [n],
    from the two numbers [u] and [w] it draws. *)
Definition crossed_gene (mother father : micro_ga_genome_t) (crossover_rate : float)
    (n : nat) (u w : float) : float :=
  if fgt u crossover_rate then
    fadd (fmul w (gene mother n)) (fmul (fsub f_one w) (gene father n))
  else if fgt (double_of_float w) d_half then gene mother n
  else gene father n.

(** [x] lies between [a] and [b], whichever of the two is the smaller. *)
Definition in_closed_interval (a b x : float) : bool :=
  (fle a x && fle x b) || (fle b x && fle x a).

(** ** Sample data *)

(** [0.1], [0.5] and [0.9] stored in a [float]. *)
Definition f_tenth : float := float_of_double (ddiv (double_of_int 1) (double_of_int 10)).
Definition f_half : float := float_of_double (ddiv (double_of_int 1) (double_of_int 2)).
Definition f_nine_tenths : float :=
  float_of_double (ddiv (double_of_int 9) (double_of_int 10)).

(** A genome of one gene, [0.1]. *)
Definition one_tenth_genome : micro_ga_genome_t :=
  {| genome_size := 1; genes := [f_tenth]; fitness := f_minus_one |}.

(** A generator whose first result is 2^30 and whose later ones are 15838001. *)
Definition blend_rng : rng :=
  {| tape := fun i => match i with O => 1073741824 | _ => 15838001 end; cursor := 0 |}.

(** A generator that always returns [RAND_MAX]. *)
Definition top_rng : rng := {| tape := fun _ => RAND_MAX; cursor := 0 |}.

(** A generator that runs through the residues of a linear congruence. *)
Definition lcg_rng : rng :=
  {| tape := fun i => (Z.of_nat i * 1103515245 + 12345) mod 2147483648; cursor := 0 |}.

(** ** Engines and callbacks *)

(** The callback applied to the genomes of a list, first to last. *)
Fixpoint eval_list {W : Type} (f : fitness_fn_t W) (l : list micro_ga_genome_t)
    (w : W) : list micro_ga_genome_t * W :=
  match l with
  | [] => ([], w)
  | g :: l' =>
      let '(w', g') := f w g in
      let '(l'', w'') := eval_list f l' w' in
      (g' :: l'', w'')
  end.

(** An initialized engine: what [micro_ga_init] establishes, with sizes in
    the ranges in which no counter of the source wraps around. *)
Definition engine_wf {W : Type} (ga : micro_ga_t W) (inds : list micro_ga_genome_t)
    : Prop :=
  ready ga = 1 /\
  is_Some (fitness_fn ga) /\
  0 < population_size ga < 2 ^ 31 /\
  0 < ga_genome_size ga < 2 ^ 32 /\
  individuals ga = Some inds /\
  Z.of_nat (length inds) = population_size ga /\
  Forall (fun g => genome_size g = ga_genome_size ga /\
                   Z.of_nat (length (genes g)) = ga_genome_size ga) inds.

(** An objective function that leaves the genes and the size of a genome
    as they are: it only assigns the fitness. *)
Definition assigns_fitness_only {W : Type} (f : fitness_fn_t W) : Prop :=
  forall (w : W) (g : micro_ga_genome_t),
    genome_size (f w g).2 = genome_size g /\ genes (f w g).2 = genes g.

(** The population has been evaluated: evaluating a genome of it again
    gives the genome back, with the fitness it has. *)
Definition evaluated {W : Type} (f : fitness_fn_t W) (inds : list micro_ga_genome_t)
    : Prop :=
  forall (w : W) (g : micro_ga_genome_t), g ∈ inds -> (f w g).2 = g.

(** An objective function that records the genomes it is called on. *)
Definition logged (f : micro_ga_genome_t -> micro_ga_genome_t)
    : fitness_fn_t (list micro_ga_genome_t) :=
  fun log g => (log ++ [g], f g).

Definition set_fitness_thresh {W : Type} (ga : micro_ga_t W) (t : float) : micro_ga_t W :=
  {| generation := generation ga; population_size := population_size ga;
     mutation_rate := mutation_rate ga; crossover_rate := crossover_rate ga;
     fitness_thresh := t; individuals := individuals ga;
     ga_genome_size := ga_genome_size ga; fitness_fn := fitness_fn ga;
     acceptance_fn := acceptance_fn ga; ready := ready ga; debug := debug ga |}.

(** What a caller can observe of a call: how it ended and, where it left a
    state, the population with the caller's world, the generator and the
    lines on [stderr]. *)
Definition observe {W : Type} (o : outcome (run W))
    : outcome (option (list micro_ga_genome_t) * W * rng * list string) :=
  let see st := (individuals (engine st), world st, random st, stderr st) in
  match o with
  | Returned st => Returned (see st)
  | Aborted => Aborted
  | Fault st => Fault (see st)
  | Diverged => Diverged
  | OutOfFuel => OutOfFuel
  end.

#[global] Instance spec_float_eq_dec : EqDecision spec_float.
Proof. solve_decision. Defined.

#[global] Instance genome_eq_dec : EqDecision micro_ga_genome_t.
Proof. solve_decision. Defined.

(** The objective function [f(g) = g[0] + g[1]]; the caller's world counts
    the calls. *)
Definition sum_fitness : fitness_fn_t nat :=
  fun calls g =>
    (S calls,
     {| genome_size := genome_size g; genes := genes g;
        fitness := fadd (gene g 0) (gene g 1) |}).

(** A genome of two genes, evaluated by [sum_fitness]. *)
Definition sample_genome (k0 k1 : Z) : micro_ga_genome_t :=
  {| genome_size := 2;
     genes := [unit_float k0; unit_float k1];
     fitness := fadd (unit_float k0) (unit_float k1) |}.

(** Four genomes with the fitness values 0.75, 0.25, 1 and 0.375. *)
Definition sample_population : list micro_ga_genome_t :=
  [ sample_genome 1073741824 536870912;
    sample_genome 268435456 268435456;
    sample_genome 1073741824 1073741824;
    sample_genome 536870912 268435456 ].

(** An initialized engine: population size 4, genome length 2, mutation
    rate 0, crossover rate 0. *)
Definition sample_engine : micro_ga_t nat :=
  {| generation := 0; population_size := 4; mutation_rate := f_zero;
     crossover_rate := f_zero; fitness_thresh := f_tenth;
     individuals := Some sample_population; ga_genome_size := 2;
     fitness_fn := Some sum_fitness; acceptance_fn := None;
     ready := 1; debug := 0 |}.

Definition all_allocated : scratch :=
  {| prob_ok := true; parents_ok := true; children_ok := true |}.

Definition is_returned {A : Type} (o : outcome A) : bool :=
  match o with Returned _ => true | _ => false end.

(** The state after one generation of the sample engine. *)
Definition sample_run : run nat :=
  match micro_ga_evolve insertion_sort 100 all_allocated sample_engine 0%nat lcg_rng with
  | Returned st => st
  | _ => {| engine := sample_engine; world := 0%nat; random := lcg_rng; stderr := [] |}
  end.

(** The sample engine with an objective function that records its calls. *)
Definition sum_of_genes (g : micro_ga_genome_t) : micro_ga_genome_t :=
  {| genome_size := genome_size g; genes := genes g;
     fitness := fadd (gene g 0) (gene g 1) |}.

Definition recording_engine : micro_ga_t (list micro_ga_genome_t) :=
  {| generation := 0; population_size := 4; mutation_rate := f_zero;
     crossover_rate := f_zero; fitness_thresh := f_tenth;
     individuals := Some sample_population; ga_genome_size := 2;
     fitness_fn := Some (logged sum_of_genes); acceptance_fn := None;
     ready := 1; debug := 0 |}.

Definition recording_run : run (list micro_ga_genome_t) :=
  match micro_ga_evolve insertion_sort 100 all_allocated recording_engine [] lcg_rng with
  | Returned st => st
  | _ => {| engine := recording_engine; world := []; random := lcg_rng; stderr := [] |}
  end.

(** [|x - t/10000| <= 1/10000], decided exactly on the value of [x]. *)
Definition within_1e4 (x : spec_float) (t : Z) : bool :=
  match x with
  | S754_zero _ => Z.abs t <=? 1
  | S754_finite s m e =>
      let v := if s then Z.neg m else Z.pos m in
      if 0 <=? e then Z.abs (10000 * v * 2 ^ e - t) <=? 1
      else Z.abs (10000 * v - t * 2 ^ (- e)) <=? 2 ^ (- e)
  | _ => false
  end.

(** A population with the fitness values [0.1], [0.5] and [0.9], sorted. *)
Definition with_fitness (x : float) : micro_ga_genome_t :=
  {| genome_size := 1; genes := [f_zero]; fitness := x |}.

Definition three_fitness_values : list micro_ga_genome_t :=
  [with_fitness f_tenth; with_fitness f_half; with_fitness f_nine_tenths].

(** ** Configurations *)

(** A seeded individual: the shape and the fitness [-1.0] of the
    allocation, and in every gene a number drawn from the generator. *)
Definition seeded (gsize : Z) (r : rng) (g : micro_ga_genome_t) : Prop :=
  genome_size g = gsize /\ Z.of_nat (length (genes g)) = gsize /\
  fitness g = f_minus_one /\
  Forall (fun x => exists k : nat, x = unit_float (tape r k)) (genes g).

(** An individual as allocated, not yet seeded. *)
Definition blank (gsize : Z) (g : micro_ga_genome_t) : Prop :=
  genome_size g = gsize /\ Z.of_nat (length (genes g)) = gsize /\
  fitness g = f_minus_one.

(** The configurations that [micro_ga_init] must refuse. *)
Definition config_invalid {W : Type} (config : micro_ga_config_t W) : Prop :=
  cfg_population_size config = 0 \/
  cfg_genome_size config = 0 \/
  cfg_fitness_fn config = None \/
  flt (cfg_mutation_rate config) f_zero = true \/
  flt (cfg_crossover_rate config) f_zero = true \/
  flt (cfg_fitness_thresh config) f_zero = true.

(** The configuration of the sample engine, and one with a negative
    mutation rate. *)
Definition sample_config : micro_ga_config_t nat :=
  {| cfg_population_size := 4; cfg_genome_size := 2; cfg_mutation_rate := f_zero;
     cfg_crossover_rate := f_zero; cfg_fitness_thresh := f_tenth;
     cfg_fitness_fn := Some sum_fitness; cfg_acceptance_fn := None; cfg_debug := 0 |}.

Definition negative_rate_config : micro_ga_config_t nat :=
  {| cfg_population_size := 4; cfg_genome_size := 2; cfg_mutation_rate := f_minus_one;
     cfg_crossover_rate := f_zero; cfg_fitness_thresh := f_tenth;
     cfg_fitness_fn := Some sum_fitness; cfg_acceptance_fn := None; cfg_debug := 0 |}.

(** The sample engine before any evaluation: every fitness is [-1.0]. *)
Definition unevaluated (g : micro_ga_genome_t) : micro_ga_genome_t :=
  {| genome_size := genome_size g; genes := genes g; fitness := f_minus_one |}.

Definition unevaluated_engine : micro_ga_t nat :=
  set_individuals sample_engine (Some (map unevaluated sample_population)).

(** [calloc] fails for [prob]; [calloc] fails for [children]. *)
Definition no_prob : scratch :=
  {| prob_ok := false; parents_ok := true; children_ok := true |}.
Definition no_children : scratch :=
  {| prob_ok := true; parents_ok := true; children_ok := false |}.

(** A replaced individual of the sample engine: two genes, not evaluated. *)
Definition replaced_child (c : micro_ga_genome_t) : bool :=
  (genome_size c =? 2) && (length (genes c) =? 2)%nat &&
  bool_decide (fitness c = f_minus_one).

(** An engine that was never initialized: a [micro_ga_t] of static storage,
    every byte zero. *)
Definition zeroed_engine (W : Type) : micro_ga_t W :=
  {| generation := 0; population_size := 0; mutation_rate := S754_zero false;
     crossover_rate := S754_zero false; fitness_thresh := S754_zero false;
     individuals := None; ga_genome_size := 0; fitness_fn := None;
     acceptance_fn := None; ready := 0; debug := 0 |}.

(** ** Further notions and sample data *)

(** An acceptance function that asks a predicate and touches nothing. *)
Definition filter_of {W : Type} (p : micro_ga_genome_t -> bool) : acceptance_fn_t W :=
  fun w g => (w, g, if p g then 1 else 0).

(** A gene of the closed unit interval. *)
Definition unit_gene (x : float) : Prop :=
  fle f_zero x = true /\ fle x f_one = true.

(** An objective function that gives every genome the fitness [0]. *)
Definition zero_fitness : fitness_fn_t nat :=
  fun calls g =>
    (S calls,
     {| genome_size := genome_size g; genes := genes g; fitness := S754_zero false |}).

(** The sample engine with that objective function. *)
Definition zero_fitness_engine : micro_ga_t nat :=
  {| generation := 0; population_size := 4; mutation_rate := f_zero;
     crossover_rate := f_zero; fitness_thresh := f_tenth;
     individuals := Some sample_population; ga_genome_size := 2;
     fitness_fn := Some zero_fitness; acceptance_fn := None;
     ready := 1; debug := 0 |}.

(** An engine with a population of one. *)
Definition lone_engine : micro_ga_t nat :=
  {| generation := 0; population_size := 1; mutation_rate := f_zero;
     crossover_rate := f_zero; fitness_thresh := f_tenth;
     individuals := Some [sample_genome 1073741824 536870912]; ga_genome_size := 2;
     fitness_fn := Some sum_fitness; acceptance_fn := None;
     ready := 1; debug := 0 |}.

(** The sample configuration with debug output asked for. *)
Definition verbose_config : micro_ga_config_t nat :=
  {| cfg_population_size := 4; cfg_genome_size := 2; cfg_mutation_rate := f_zero;
     cfg_crossover_rate := f_zero; cfg_fitness_thresh := f_tenth;
     cfg_fitness_fn := Some sum_fitness; cfg_acceptance_fn := None; cfg_debug := 1 |}.

(** A filter that wants the first gene above one half, and the sample
    configuration with it. *)
Definition first_gene_high (g : micro_ga_genome_t) : bool := fgt (gene g 0) f_half.

Definition filtered_config : micro_ga_config_t nat :=
  {| cfg_population_size := 4; cfg_genome_size := 2; cfg_mutation_rate := f_zero;
     cfg_crossover_rate := f_zero; cfg_fitness_thresh := f_tenth;
     cfg_fitness_fn := Some sum_fitness;
     cfg_acceptance_fn := Some (filter_of first_gene_high); cfg_debug := 0 |}.

(** A genome with a NaN for fitness. *)
Definition nan_genome : micro_ga_genome_t := with_fitness S754_nan.

(** The parents selected in the generation of the sample engine. *)
Definition sample_prob : list double :=
  selection_distribution 4
    (insertion_sort _ genome_compare (eval_list sum_fitness sample_population 0%nat).1).

Definition sample_selection : list nat * nat * rng :=
  match select_parents 10 4 (4 - 1) 0 0 sample_prob
          (replicate (Z.to_nat (4 * 2)) 0%nat) lcg_rng with
  | Returned res => res
  | _ => ([], 0%nat, lcg_rng)
  end.

(** The individual of slot [i] after seeding without a filter: gene [j] is
    the draw number [i * gsize + j] from where the generator stood. *)
Definition seeded_at (gsize : Z) (r : rng) (i : nat) (g : micro_ga_genome_t) : Prop :=
  blank gsize g /\
  forall j : nat, (j < Z.to_nat gsize)%nat ->
    genes g !! j = Some (unit_float (tape r (cursor r + i * Z.to_nat gsize + j)%nat)).

(** A genome that an acceptance function has let through: the genome as
    the function left it in a call where it answered non-zero. *)
Definition accepted {W : Type} (acc : acceptance_fn_t W) (g' : micro_ga_genome_t) : Prop :=
  exists (w : W) (g : micro_ga_genome_t) (w' : W) (a : Z),
    acc w g = (w', g', a) /\ a <> 0.

(** A filter that no seeded genome can pass: it wants the first gene above
    one. *)
Definition first_gene_above_one (g : micro_ga_genome_t) : bool := fgt (gene g 0) f_one.

Definition unmeetable_config : micro_ga_config_t nat :=
  {| cfg_population_size := 4; cfg_genome_size := 2; cfg_mutation_rate := f_zero;
     cfg_crossover_rate := f_zero; cfg_fitness_thresh := f_tenth;
     cfg_fitness_fn := Some sum_fitness;
     cfg_acceptance_fn := Some (filter_of first_gene_above_one); cfg_debug := 0 |}.

(** The engine that [micro_ga_init] makes of the filtered configuration. *)
Definition filtered_init : Z * option (micro_ga_t nat) * nat * rng :=
  match micro_ga_init 100 true (Some (zeroed_engine nat)) (Some filtered_config)
          0%nat lcg_rng with
  | Returned res => res
  | _ => (-1, None, 0%nat, lcg_rng)
  end.

(** The state after the first generation of the sample engine, whose
    population comes unevaluated. *)
Definition first_run : run nat :=
  match micro_ga_evolve insertion_sort 100 all_allocated unevaluated_engine 0%nat lcg_rng with
  | Returned st => st
  | _ => {| engine := unevaluated_engine; world := 0%nat; random := lcg_rng; stderr := [] |}
  end.

Definition set_acceptance_fn {W : Type} (ga : micro_ga_t W)
    (acc : option (acceptance_fn_t W)) : micro_ga_t W :=
  {| generation := generation ga; population_size := population_size ga;
     mutation_rate := mutation_rate ga; crossover_rate := crossover_rate ga;
     fitness_thresh := fitness_thresh ga; individuals := individuals ga;
     ga_genome_size := ga_genome_size ga; fitness_fn := fitness_fn ga;
     acceptance_fn := acc; ready := ready ga; debug := debug ga |}.

(** The filtered configuration with the mutation rate [1]. *)
Definition mutating_filtered_config : micro_ga_config_t nat :=
  {| cfg_population_size := 4; cfg_genome_size := 2; cfg_mutation_rate := f_one;
     cfg_crossover_rate := f_zero; cfg_fitness_thresh := f_tenth;
     cfg_fitness_fn := Some sum_fitness;
     cfg_acceptance_fn := Some (filter_of first_gene_high); cfg_debug := 0 |}.

(** Does the population pass the filter after [micro_ga_init], and no
    longer after one generation? *)
Definition filter_outlived : bool :=
  match micro_ga_init 100 true (Some (zeroed_engine nat)) (Some mutating_filtered_config)
          0%nat lcg_rng with
  | Returned (_, Some ga, w, r) =>
      match individuals ga with
      | Some inds =>
          forallb first_gene_high inds &&
          match micro_ga_evolve insertion_sort 100 all_allocated ga w r with
          | Returned st =>
              match individuals (engine st) with
              | Some inds' => existsb (fun g => negb (first_gene_high g)) inds'
              | None => false
              end
          | _ => false
          end
      | None => false
      end
  | _ => false
  end.

(** Shares and cumulative probabilities when the total fitness is zero: a
    NaN or an infinity; and the values that no draw reaches, a NaN and minus
    infinity. *)
Definition nan_or_infinite (x : double) : bool :=
  match x with
  | S754_nan | S754_infinity _ => true
  | _ => false
  end.

Definition never_reached (p : double) : bool :=
  match p with
  | S754_nan | S754_infinity true => true
  | _ => false
  end.

(** A candidate for the initial population: the genes of [g], as many as
    its genome size says, are the draws from number [k] on. *)
Definition drawn_from (r : rng) (k : nat) (g : micro_ga_genome_t) : Prop :=
  forall (j : nat) (x : float),
    (j < Z.to_nat (genome_size g))%nat -> genes g !! j = Some x ->
    x = unit_float (tape r (k + j)%nat).

(** An individual that the acceptance function has let through, and where
    it comes from: it is the genome as the function left it, in a call where
    it answered non-zero, of a candidate drawn from the generator at or after
    the place where [r] stands. *)
Definition accepted_candidate {W : Type} (acc : acceptance_fn_t W) (r : rng)
    (g' : micro_ga_genome_t) : Prop :=
  exists (w : W) (g : micro_ga_genome_t) (w' : W) (a : Z) (k : nat),
    acc w g = (w', g', a) /\ a <> 0 /\ (cursor r <= k)%nat /\ drawn_from r k g.

(** An objective function that takes the first gene for fitness, and an
    engine of three individuals that it scores 0.9, 0.1 and 0.5. *)
Definition gene_fitness : fitness_fn_t nat :=
  fun calls g =>
    (S calls, {| genome_size := genome_size g; genes := genes g; fitness := gene g 0 |}).

Definition tenths_population : list micro_ga_genome_t :=
  [ {| genome_size := 1; genes := [f_nine_tenths]; fitness := f_minus_one |};
    {| genome_size := 1; genes := [f_tenth]; fitness := f_minus_one |};
    {| genome_size := 1; genes := [f_half]; fitness := f_minus_one |} ].

Definition tenths_engine : micro_ga_t nat :=
  {| generation := 0; population_size := 3; mutation_rate := f_zero;
     crossover_rate := f_zero; fitness_thresh := f_tenth;
     individuals := Some tenths_population; ga_genome_size := 1;
     fitness_fn := Some gene_fitness; acceptance_fn := None;
     ready := 1; debug := 0 |}.

Definition tenths_run : run nat :=
  match micro_ga_evolve insertion_sort 100 all_allocated tenths_engine 0%nat lcg_rng with
  | Returned st => st
  | _ => {| engine := tenths_engine; world := 0%nat; random := lcg_rng; stderr := [] |}
  end.

(** The population of [tenths_engine] as one generation scores and sorts
    it. *)
Definition tenths_sorted : list micro_ga_genome_t :=
  sort_individuals insertion_sort 3 (eval_list gene_fitness tenths_population 0%nat).1.

(** [calloc] fails for [parents]. *)
Definition no_parents : scratch :=
  {| prob_ok := true; parents_ok := false; children_ok := true |}.

(** * The loan optimizer, [loan-optimize.c] *)

Definition dmul : double -> double -> double := SFmul 53 1024.
Definition dsub : double -> double -> double := SFsub 53 1024.

(** A decimal literal of type [double] with the value [num/den]: the
    [double] nearest to it. *)
Definition literal (num den : Z) : double := ddiv (double_of_int num) (double_of_int den).

Definition is_finite (x : spec_float) : bool :=
  match x with
  | S754_zero _ | S754_finite _ _ _ => true
  | _ => false
  end.

Record loan_t := { interest_rate : float; principal : float }.

#[global] Instance loan_inhabited : Inhabited loan_t :=
  populate {| interest_rate := f_zero; principal := f_zero |}.

Definition PAYMENT_NOMINAL : double := literal 125000 100.
Definition PAYMENT_DEVIATION : double := literal 0 10.
Definition NUM_LOANS : nat := 3.
Definition MAX_ITERATIONS : nat := 50.
Definition POP_SIZE : Z := 15.

Definition loans : list loan_t :=
  [ {| interest_rate := float_of_double (literal 500 100);
       principal := float_of_double (literal 150000 100) |};
    {| interest_rate := float_of_double (literal 350 100);
       principal := float_of_double (literal 1000000 100) |};
    {| interest_rate := float_of_double (literal 950 100);
       principal := float_of_double (literal 500000 100) |} ].

Section Loans.

(** [log10] of the C library, of which nothing is assumed. *)
Variable log10 : double -> double.

(** [num_payments(loan, monthly_payment)] *)
Definition num_payments (loan : loan_t) (monthly_payment : double) : float :=
  let i : float :=
    float_of_double
      (ddiv (ddiv (double_of_float (interest_rate loan)) (literal 120 10)) (literal 1000 10)) in
  let n : float :=
    float_of_double
      (dmul (double_of_int (-1))
         (log10 (dsub (double_of_int 1)
                   (ddiv (double_of_float (fmul i (principal loan))) monthly_payment)))) in
  float_of_double
    (ddiv (double_of_float n) (log10 (double_of_float (fadd (float_of_int 1) i)))).

(** [total_paid(loan, monthly_payment)] *)
Definition total_paid (loan : loan_t) (monthly_payment : double) : float :=
  let n : float := num_payments loan monthly_payment in
  float_of_double (dmul (double_of_float n) monthly_payment).

(** [monthly_nominal(individual)] *)
Definition monthly_nominal (individual : micro_ga_genome_t) : float :=
  float_of_double
    (dadd (double_of_float (float_of_double PAYMENT_NOMINAL))
       (dmul PAYMENT_DEVIATION (double_of_float (gene individual (NUM_LOANS - 1))))).

(** The loop of [genome_to_payments], [k] turns from index [i] on. *)
Fixpoint split_payments (k i : nat) (individual : micro_ga_genome_t) (remaining : float)
    (payments : list float) : list float * float :=
  match k with
  | O => (payments, remaining)
  | S k' =>
      let p := fmul remaining (gene individual i) in
      split_payments k' (S i) individual (fsub remaining p) (<[i := p]> payments)
  end.

(** [genome_to_payments(individual, payments)]: the array [payments] after
    the call. *)
Definition genome_to_payments (individual : micro_ga_genome_t) (payments : list float)
    : list float :=
  let remaining := monthly_nominal individual in
  let '(payments, remaining) :=
    split_payments (NUM_LOANS - 1) 0 individual remaining payments in
  <[(NUM_LOANS - 1)%nat := remaining]> payments.

(** The loop of [eval_fitness]: the sum [f], or [None] when the function
    returns from inside the loop. *)
Fixpoint sum_paid (k i : nat) (payments : list float) (f : float) : option float :=
  match k with
  | O => Some f
  | S k' =>
      let p := total_paid (loans !!! i) (double_of_float (payments !!! i)) in
      let n := num_payments (loans !!! i) (double_of_float (payments !!! i)) in
      let f := fadd f p in
      if is_nan p || is_nan n then None else sum_paid k' (S i) payments f
  end.

(** [eval_fitness(individual)], on a stack where [payments] holds [stack];
    [VERBOSE] is [0], nothing is printed. *)
Definition eval_fitness_on (stack : list float) (individual : micro_ga_genome_t)
    : micro_ga_genome_t :=
  let payments := genome_to_payments individual stack in
  match sum_paid NUM_LOANS 0 payments (float_of_double (literal 0 10)) with
  | None =>
      {| genome_size := genome_size individual; genes := genes individual;
         fitness := float_of_double (literal 1 10000000000) |}
  | Some f =>
      {| genome_size := genome_size individual; genes := genes individual;
         fitness := fdiv f_one f |}
  end.

Definition eval_fitness : micro_ga_genome_t -> micro_ga_genome_t :=
  eval_fitness_on (replicate NUM_LOANS f_zero).

(** The objective function as the engine calls it; the caller has no state
    of its own. *)
Definition eval_fitness_fn : fitness_fn_t unit := fun w g => (w, eval_fitness g).

(** *** [main] *)

(** [minimum_total_payment] after the first loop. *)
Definition minimum_total_payment : float :=
  foldl (fun total loan => fadd total (principal loan)) (float_of_int 0) loans.

Definition main_config : micro_ga_config_t unit :=
  {| cfg_population_size := POP_SIZE;
     cfg_genome_size := Z.of_nat NUM_LOANS;
     cfg_mutation_rate := float_of_double (literal 1 10);
     cfg_crossover_rate := float_of_double (literal 7 10);
     cfg_fitness_thresh :=
       float_of_double
         (ddiv (literal 10 10)
            (dmul (double_of_float minimum_total_payment) (literal 130 100)));
     cfg_fitness_fn := Some eval_fitness_fn;
     cfg_acceptance_fn := None;
     cfg_debug := 0 |}.

(** The loop over the population after each generation: every individual
    is scored again, and the best score and its slot are noted. *)
Fixpoint rescore (k m : nat) (inds : list micro_ga_genome_t) (best_fitness : float)
    (best_individual : option nat) : list micro_ga_genome_t * float * option nat :=
  match k with
  | O => (inds, best_fitness, best_individual)
  | S k' =>
      let g := eval_fitness (inds !!! m) in
      let inds := <[m := g]> inds in
      if fgt (fitness g) best_fitness then rescore k' (S m) inds (fitness g) (Some m)
      else rescore k' (S m) inds best_fitness best_individual
  end.

Variable qsort : forall A : Type, (A -> A -> Z) -> list A -> list A.

(** One turn of the [do] loop of [main]. *)
Definition main_iteration (fuel : nat) (heap : scratch) (ga : micro_ga_t unit) (r : rng)
    (best_individual : option nat) : outcome (micro_ga_t unit * rng * option nat) :=
  match micro_ga_evolve qsort fuel heap ga tt r with
  | Returned st =>
      match individuals (engine st) with
      | None =>
          if population_size (engine st) =? 0
          then Returned (engine st, random st, best_individual)
          else Fault (engine st, random st, best_individual)
      | Some inds =>
          let '(inds, _, best_individual) :=
            rescore (Z.to_nat (population_size (engine st))) 0 inds
              (float_of_double (literal 0 10)) best_individual in
          Returned (set_individuals (engine st) (Some inds), random st, best_individual)
      end
  | Aborted => Aborted
  | Fault st => Fault (engine st, random st, best_individual)
  | Diverged => Diverged
  | OutOfFuel => OutOfFuel
  end.

(** [k] turns of the loop. *)
Fixpoint main_loop (k : nat) (fuel : nat) (heap : scratch) (ga : micro_ga_t unit) (r : rng)
    (best_individual : option nat) : outcome (micro_ga_t unit * rng * option nat) :=
  match k with
  | O => Returned (ga, r, best_individual)
  | S k' =>
      match main_iteration fuel heap ga r best_individual with
      | Returned (ga, r, best_individual) => main_loop k' fuel heap ga r best_individual
      | other => other
      end
  end.

(** [main]: the engine is [ga0] before [micro_ga_init], the generator is
    where [srand(time(NULL))] has put it; what is printed is left out.  The
    result is the engine as [print_info] is given it, the engine at the end,
    after [micro_ga_destroy], and the value of that call. *)
Definition main (fuel : nat) (calloc_ok : bool) (heap : scratch) (ga0 : micro_ga_t unit)
    (r : rng) : outcome (micro_ga_t unit * micro_ga_t unit * Z) :=
  match micro_ga_init fuel calloc_ok (Some ga0) (Some main_config) tt r with
  | Returned (code, Some ga, _, r) =>
      if negb (code =? 0) then Aborted
      else
        match main_loop MAX_ITERATIONS fuel heap ga r None with
        | Returned (ga, r, _) =>
            match micro_ga_sort qsort ga with
            | Returned shown =>
                match micro_ga_destroy (Some shown) with
                | (code, Some ga) => Returned (shown, ga, code)
                | (code, None) => Returned (shown, shown, code)
                end
            | Aborted => Aborted
            | Fault ga => Fault (ga, ga, 0)
            | Diverged => Diverged
            | OutOfFuel => OutOfFuel
            end
        | Aborted => Aborted
        | Fault (ga, _, _) => Fault (ga, ga, 0)
        | Diverged => Diverged
        | OutOfFuel => OutOfFuel
        end
  | Returned (code, None, _, _) => Aborted
  | Aborted => Aborted
  | Fault _ => Fault (ga0, ga0, 0)
  | Diverged => Diverged
  | OutOfFuel => OutOfFuel
  end.

End Loans.

(** A genome of three genes for the loan optimizer, and a stand-in for
    [log10] where an example needs one function. *)
Definition loan_genome (a b c : Z) : micro_ga_genome_t :=
  {| genome_size := 3; genes := [unit_float a; unit_float b; unit_float c];
     fitness := f_minus_one |}.

Definition log10_stub (x : double) : double := dsub x (double_of_int 1).

(** The engine of the loan optimizer: initialized, with [eval_fitness] for
    objective function and the sizes of [main]. *)
Definition optimizer_engine (log10 : double -> double) (ga : micro_ga_t unit)
    (inds : list micro_ga_genome_t) : Prop :=
  engine_wf ga inds /\
  fitness_fn ga = Some (eval_fitness_fn log10) /\
  population_size ga = POP_SIZE /\
  ga_genome_size ga = Z.of_nat NUM_LOANS.

(** The optimizer's engine as [micro_ga_init] makes it from the
    congruential generator, its population, and the first turn of the loop of
    [main] on it, all with the stand-in for [log10]. *)
Definition optimizer_init : Z * option (micro_ga_t unit) * unit * rng :=
  match micro_ga_init 15 true (Some (zeroed_engine unit)) (Some (main_config log10_stub))
          tt lcg_rng with
  | Returned res => res
  | _ => (-1, None, tt, lcg_rng)
  end.

Definition optimizer_start : micro_ga_t unit :=
  match optimizer_init.1.1.2 with
  | Some ga => ga
  | None => zeroed_engine unit
  end.

Definition optimizer_population : list micro_ga_genome_t :=
  match individuals optimizer_start with
  | Some inds => inds
  | None => []
  end.

Definition optimizer_turn : micro_ga_t unit * rng * option nat :=
  match main_iteration log10_stub insertion_sort 1000 all_allocated optimizer_start
          optimizer_init.2 None with
  | Returned res => res
  | _ => (optimizer_start, lcg_rng, None)
  end.

Definition scores_are_numbers (log10 : double -> double) (inds : list micro_ga_genome_t)
    : bool :=
  forallb (fun g => negb (is_nan (fitness (eval_fitness log10 g)))) inds.

(** * Properties *)

(** ** The arithmetic of the draws *)

Lemma digits2_pos_iter_xO (p n : positive) :
  digits2_pos (Pos.iter xO p n) = (digits2_pos p + n)%positive.
Proof.
  induction n as [|n IH] using Pos.peano_ind.
  - simpl. lia.
  - rewrite Pos.iter_succ. simpl. rewrite IH. lia.
Qed.

Lemma digits2_pos_lower (p : positive) :
  2 ^ (Z.pos (digits2_pos p) - 1) <= Z.pos p.
Proof.
  induction p as [p IH|p IH|]; simpl digits2_pos.
  - rewrite Pos2Z.inj_succ. replace (Z.succ (Z.pos (digits2_pos p)) - 1)
      with (Z.succ (Z.pos (digits2_pos p) - 1)) by lia.
    rewrite Z.pow_succ_r by lia. lia.
  - rewrite Pos2Z.inj_succ. replace (Z.succ (Z.pos (digits2_pos p)) - 1)
      with (Z.succ (Z.pos (digits2_pos p) - 1)) by lia.
    rewrite Z.pow_succ_r by lia. lia.
  - simpl. lia.
Qed.

Lemma digits2_pos_le (p : positive) (n : Z) :
  Z.pos p < 2 ^ n -> 0 <= n -> Z.pos (digits2_pos p) <= n.
Proof.
  intros Hp Hn.
  destruct (Z_le_gt_dec (Z.pos (digits2_pos p)) n) as [|Hgt]; [done|].
  pose proof (digits2_pos_lower p) as Hlow.
  assert (2 ^ n <= 2 ^ (Z.pos (digits2_pos p) - 1)) by (apply Z.pow_le_mono_r; lia).
  lia.
Qed.

(** Exponents of binary64, where the mantissa has 53 digits. *)
Lemma fexp_double (x : Z) : -1021 <= x -> fexp 53 1024 x = x - 53.
Proof. intros Hx. unfold fexp, emin. lia. Qed.

(** Rounding a mantissa of 53 digits to binary64 changes nothing. *)
Lemma binary_round_aux_double_exact (s : bool) (m : positive) (e : Z) :
  Z.pos (digits2_pos m) = 53 -> -1074 <= e <= 971 ->
  binary_round_aux 53 1024 s (Z.pos m) e loc_Exact = S754_finite s m e.
Proof.
  intros Hd He.
  assert (Hshr : shr_fexp 53 1024 (Z.pos m) e loc_Exact
                 = ({| shr_m := Z.pos m; shr_r := false; shr_s := false |}, e)).
  { unfold shr_fexp. cbn [Zdigits2]. rewrite Hd, fexp_double by lia.
    replace (53 + e - 53 - e) with 0 by lia. reflexivity. }
  unfold binary_round_aux. rewrite Hshr. cbn [shr_m loc_of_shr_record round_nearest_even].
  rewrite Hshr. cbn [shr_m].
  replace (e <=? 1024 - 53) with true by (symmetry; apply Z.leb_le; lia).
  reflexivity.
Qed.

Lemma mantissa53_digits (p : positive) :
  Z.pos (digits2_pos p) <= 53 -> Z.pos (digits2_pos (mantissa53 p)) = 53.
Proof.
  intros Hd. unfold mantissa53.
  destruct (53 - Z.pos (digits2_pos p)) as [|d|d] eqn:E; try lia.
  rewrite digits2_pos_iter_xO. lia.
Qed.

(** [(double)k] for a positive [k] below 2^53: no rounding. *)
Lemma double_of_int_pos (p : positive) :
  Z.pos (digits2_pos p) <= 53 ->
  double_of_int (Z.pos p)
  = S754_finite false (mantissa53 p) (Z.pos (digits2_pos p) - 53).
Proof.
  intros Hd. unfold double_of_int, binary_normalize, binary_round, shl_align.
  rewrite Z.add_0_r, fexp_double by lia. rewrite Z.sub_0_r.
  pose proof (mantissa53_digits p Hd) as Hm. unfold mantissa53 in *.
  destruct (53 - Z.pos (digits2_pos p)) as [|d|d] eqn:E; try lia.
  - replace (Z.pos (digits2_pos p) - 53) with 0 by lia.
    apply binary_round_aux_double_exact; lia.
  - replace (Z.pos (digits2_pos p) - 53) with (Z.neg d) by lia.
    apply binary_round_aux_double_exact; lia.
Qed.

(** [(double)RAND_MAX + 1] is 2^31. *)
Lemma rand_max_plus_one :
  dadd (double_of_int RAND_MAX) (double_of_int 1)
  = S754_finite false 4503599627370496 (-21).
Proof. vm_compute. reflexivity. Qed.

(** Dividing a binary64 number by 2^31 moves its exponent. *)
Lemma ddiv_two_31 (m : positive) (e : Z) :
  Z.pos (digits2_pos m) = 53 -> -52 <= e <= 0 ->
  ddiv (S754_finite false m e) (S754_finite false 4503599627370496 (-21))
  = S754_finite false m (e - 31).
Proof.
  intros Hd He. unfold ddiv, SFdiv.
  assert (Hcore : SFdiv_core_binary 53 1024 (Z.pos m) e 4503599627370496 (-21)
                  = (Z.pos m~0, e - 32, loc_Exact)).
  { unfold SFdiv_core_binary. cbn [Zdigits2]. rewrite Hd.
    change (Z.pos (digits2_pos 4503599627370496)) with 53.
    replace (53 + e - (53 + -21)) with (e + 21) by lia.
    rewrite fexp_double by lia.
    replace (Z.min (e + 21 - 53) (e - -21)) with (e - 32) by lia.
    replace (e - -21 - (e - 32)) with 53 by lia.
    rewrite Z.shiftl_mul_pow2 by lia.
    assert (Hq : Z.div_eucl (Z.pos m * 2 ^ 53) 4503599627370496 = (Z.pos m~0, 0)).
    { pose proof (Z.div_eucl_eq (Z.pos m * 2 ^ 53) 4503599627370496 ltac:(lia)) as Heq.
      pose proof (Z.mod_pos_bound (Z.pos m * 2 ^ 53) 4503599627370496 ltac:(lia)) as Hb.
      unfold Z.modulo in Hb.
      destruct (Z.div_eucl (Z.pos m * 2 ^ 53) 4503599627370496) as [q r].
      change (2 ^ 53) with 9007199254740992 in Heq.
      assert (q = Z.pos m~0) by lia. assert (r = 0) by lia. congruence. }
    rewrite Hq. reflexivity. }
  rewrite Hcore. unfold binary_round_aux.
  assert (Hshr : shr_fexp 53 1024 (Z.pos m~0) (e - 32) loc_Exact
                 = ({| shr_m := Z.pos m; shr_r := false; shr_s := false |}, e - 31)).
  { unfold shr_fexp. cbn [Zdigits2 digits2_pos]. rewrite Pos2Z.inj_succ, Hd.
    rewrite fexp_double by lia.
    replace (Z.succ 53 + (e - 32) - 53 - (e - 32)) with 1 by lia.
    unfold shr. cbn [SpecFloat.iter_pos shr_record_of_loc shr_1 orb].
    f_equal. lia. }
  rewrite Hshr. cbn [shr_m loc_of_shr_record round_nearest_even].
  assert (Hshr' : shr_fexp 53 1024 (Z.pos m) (e - 31) loc_Exact
                  = ({| shr_m := Z.pos m; shr_r := false; shr_s := false |}, e - 31)).
  { unfold shr_fexp. cbn [Zdigits2]. rewrite Hd, fexp_double by lia.
    replace (53 + (e - 31) - 53 - (e - 31)) with 0 by lia. reflexivity. }
  rewrite Hshr'. cbn [shr_m xorb].
  replace (e - 31 <=? 1024 - 53) with true by (symmetry; apply Z.leb_le; lia).
  reflexivity.
Qed.

(** The double drawn from a result [k] of [rand()]: [k / 2^31], exactly. *)
Lemma unit_double_zero : unit_double 0 = S754_zero false.
Proof. vm_compute. reflexivity. Qed.

Lemma unit_double_pos (p : positive) :
  Z.pos p <= RAND_MAX ->
  unit_double (Z.pos p)
  = S754_finite false (mantissa53 p) (Z.pos (digits2_pos p) - 84).
Proof.
  intros Hp. unfold RAND_MAX in Hp.
  assert (Hd : Z.pos (digits2_pos p) <= 31) by (apply digits2_pos_le; lia).
  unfold unit_double. rewrite rand_max_plus_one, double_of_int_pos by lia.
  rewrite ddiv_two_31 by (try apply mantissa53_digits; lia).
  f_equal. lia.
Qed.

(** Every draw [rand()/((double)RAND_MAX + 1)] lies in [0, 1). *)
Lemma unit_double_range (k : Z) :
  0 <= k <= RAND_MAX ->
  fle d_zero (unit_double k) = true /\ flt (unit_double k) d_one = true.
Proof.
  intros Hk. destruct k as [|p|p]; [| |lia].
  - rewrite unit_double_zero. split; reflexivity.
  - rewrite unit_double_pos by lia.
    assert (Hd : Z.pos (digits2_pos p) <= 31)
      by (apply digits2_pos_le; unfold RAND_MAX in *; lia).
    split; [reflexivity|].
    change d_one with (S754_finite false 4503599627370496 (-52)).
    unfold flt, SFltb, SFcompare.
    replace (Z.pos (digits2_pos p) - 84 ?= -52) with Lt
      by (symmetry; apply Z.compare_lt_iff; lia).
    reflexivity.
Qed.

(** *** The draw stored in a [float] *)

Lemma digits2_pos_upper (p : positive) : Z.pos p < 2 ^ Z.pos (digits2_pos p).
Proof.
  induction p as [p IH|p IH|]; simpl digits2_pos.
  - rewrite Pos2Z.inj_succ, Z.pow_succ_r by lia. lia.
  - rewrite Pos2Z.inj_succ, Z.pow_succ_r by lia. lia.
  - simpl. lia.
Qed.

Lemma digits2_pos_unique (p : positive) (d : Z) :
  2 ^ (d - 1) <= Z.pos p < 2 ^ d -> 0 < d -> Z.pos (digits2_pos p) = d.
Proof.
  intros [Hlo Hhi] Hd.
  pose proof (digits2_pos_lower p) as Hl. pose proof (digits2_pos_upper p) as Hu.
  destruct (Z.lt_trichotomy (Z.pos (digits2_pos p)) d) as [Hlt|[Heq|Hgt]]; [|done|].
  - assert (2 ^ Z.pos (digits2_pos p) <= 2 ^ (d - 1)) by (apply Z.pow_le_mono_r; lia). lia.
  - assert (2 ^ d <= 2 ^ (Z.pos (digits2_pos p) - 1)) by (apply Z.pow_le_mono_r; lia). lia.
Qed.

Lemma shr_1_div2 (mrs : shr_record) :
  0 <= shr_m mrs -> shr_m (shr_1 mrs) = shr_m mrs / 2.
Proof.
  destruct mrs as [m r s]. cbn [shr_m]. intros Hm.
  destruct m as [|[p|p|]|p]; cbn [shr_1 shr_m]; try lia; try reflexivity.
  - apply Z.div_unique with 1; lia.
  - apply Z.div_unique with 0; lia.
Qed.

Lemma iter_shr_1_div (n : positive) (mrs : shr_record) :
  0 <= shr_m mrs ->
  shr_m (SpecFloat.iter_pos shr_1 n mrs) = shr_m mrs / 2 ^ Z.pos n.
Proof.
  revert mrs. induction n as [n IH|n IH|]; intros mrs Hm; cbn [SpecFloat.iter_pos].
  - assert (H1 : 0 <= shr_m (shr_1 mrs))
      by (rewrite shr_1_div2 by done; apply Z.div_pos; lia).
    assert (H2 : 0 <= shr_m (SpecFloat.iter_pos shr_1 n (shr_1 mrs)))
      by (rewrite IH by done; apply Z.div_pos; lia).
    rewrite IH, IH, shr_1_div2 by done.
    rewrite !Z.div_div by lia. f_equal.
    replace (Z.pos n~1) with (1 + Z.pos n + Z.pos n) by lia.
    rewrite !Z.pow_add_r by lia. change (2 ^ 1) with 2. ring.
  - assert (H2 : 0 <= shr_m (SpecFloat.iter_pos shr_1 n mrs))
      by (rewrite IH by done; apply Z.div_pos; lia).
    rewrite IH, IH by done. rewrite Z.div_div by lia. f_equal.
    replace (Z.pos n~0) with (Z.pos n + Z.pos n) by lia.
    rewrite Z.pow_add_r by lia. ring.
  - rewrite shr_1_div2 by done. reflexivity.
Qed.

Lemma round_nearest_even_cases (mx : Z) (lx : location) :
  round_nearest_even mx lx = mx \/ round_nearest_even mx lx = mx + 1.
Proof.
  destruct lx as [|[]]; cbn [round_nearest_even]; auto.
  destruct (Z.even mx); auto.
Qed.

(** A binary64 number below one with a full mantissa, rounded to binary32,
    is a binary32 number that does not exceed one. *)
Lemma float_of_double_le_one (m : positive) (e : Z) :
  Z.pos (digits2_pos m) = 53 -> -100 <= e <= -53 ->
  fle f_zero (float_of_double (S754_finite false m e)) = true /\
  fle (float_of_double (S754_finite false m e)) f_one = true.
Proof.
  intros Hd He.
  pose proof (digits2_pos_lower m) as Hlo. pose proof (digits2_pos_upper m) as Hhi.
  rewrite Hd in Hlo, Hhi. change (2 ^ (53 - 1)) with 4503599627370496 in Hlo.
  change (2 ^ 53) with 9007199254740992 in Hhi.
  unfold float_of_double, binary_round, shl_align.
  assert (Hfexp : forall x, -100 <= x -> fexp 24 128 x = x - 24)
    by (intros x Hx; unfold fexp, emin; lia).
  rewrite Hd, Hfexp by lia.
  replace (53 + e - 24 - e) with 29 by lia. cbv iota beta.
  unfold binary_round_aux.
  set (mrs := SpecFloat.iter_pos shr_1 29 {| shr_m := Z.pos m; shr_r := false; shr_s := false |}).
  assert (Hshr : shr_fexp 24 128 (Z.pos m) e loc_Exact = (mrs, e + 29)).
  { unfold shr_fexp. cbn [Zdigits2]. rewrite Hd, Hfexp by lia.
    replace (53 + e - 24 - e) with 29 by lia. reflexivity. }
  rewrite Hshr.
  assert (Hq : shr_m mrs = Z.pos m / 2 ^ 29)
    by (unfold mrs; rewrite iter_shr_1_div; [reflexivity | cbn [shr_m]; lia]).
  change (2 ^ 29) with 536870912 in Hq.
  assert (Hqb : 8388608 <= shr_m mrs < 16777216).
  { rewrite Hq. split.
    - apply Z.div_le_lower_bound; lia.
    - apply Z.div_lt_upper_bound; lia. }
  destruct (round_nearest_even_cases (shr_m mrs) (loc_of_shr_record mrs)) as [Hr|Hr];
    rewrite Hr; clear Hr.
  - destruct (shr_m mrs) as [|q|q] eqn:Eq; try lia.
    assert (Hdq : Z.pos (digits2_pos q) = 24) by (apply digits2_pos_unique; lia).
    assert (Hshr' : shr_fexp 24 128 (Z.pos q) (e + 29) loc_Exact
              = ({| shr_m := Z.pos q; shr_r := false; shr_s := false |}, e + 29)).
    { unfold shr_fexp. cbn [Zdigits2]. rewrite Hdq, Hfexp by lia.
      replace (24 + (e + 29) - 24 - (e + 29)) with 0 by lia. reflexivity. }
    rewrite Hshr'. cbn [shr_m].
    replace (e + 29 <=? 128 - 24) with true by (symmetry; apply Z.leb_le; lia).
    split; [reflexivity|].
    change f_one with (S754_finite false 8388608 (-23)).
    unfold fle, SFleb, SFcompare.
    replace (e + 29 ?= -23) with Lt by (symmetry; apply Z.compare_lt_iff; lia).
    reflexivity.
  - destruct (shr_m mrs + 1) as [|q|q] eqn:Eq; try lia.
    destruct (Z.eq_dec (Z.pos q) 16777216) as [Htop|Hlow].
    + injection Htop as ->.
      assert (Hshr' : shr_fexp 24 128 16777216 (e + 29) loc_Exact
                = ({| shr_m := 8388608; shr_r := false; shr_s := false |}, e + 30)).
      { unfold shr_fexp. cbn [Zdigits2].
        change (Z.pos (digits2_pos 16777216)) with 25. rewrite Hfexp by lia.
        replace (25 + (e + 29) - 24 - (e + 29)) with 1 by lia.
        unfold shr. cbn [SpecFloat.iter_pos shr_record_of_loc shr_1 orb]. f_equal. lia. }
      rewrite Hshr'. cbn [shr_m].
      replace (e + 30 <=? 128 - 24) with true by (symmetry; apply Z.leb_le; lia).
      split; [reflexivity|].
      change f_one with (S754_finite false 8388608 (-23)).
      unfold fle, SFleb, SFcompare.
      destruct (Z.compare_spec (e + 30) (-23)) as [_|_|Hgt]; [reflexivity..|lia].
    + assert (Hdq : Z.pos (digits2_pos q) = 24) by (apply digits2_pos_unique; lia).
      assert (Hshr' : shr_fexp 24 128 (Z.pos q) (e + 29) loc_Exact
                = ({| shr_m := Z.pos q; shr_r := false; shr_s := false |}, e + 29)).
      { unfold shr_fexp. cbn [Zdigits2]. rewrite Hdq, Hfexp by lia.
        replace (24 + (e + 29) - 24 - (e + 29)) with 0 by lia. reflexivity. }
      rewrite Hshr'. cbn [shr_m].
      replace (e + 29 <=? 128 - 24) with true by (symmetry; apply Z.leb_le; lia).
      split; [reflexivity|].
      change f_one with (S754_finite false 8388608 (-23)).
      unfold fle, SFleb, SFcompare.
      replace (e + 29 ?= -23) with Lt by (symmetry; apply Z.compare_lt_iff; lia).
      reflexivity.
Qed.

(** The new gene that [mutate] stores lies in [0, 1]. *)
Lemma stored_draw_range (k : Z) :
  0 <= k <= RAND_MAX ->
  fle f_zero (float_of_double (unit_double k)) = true /\
  fle (float_of_double (unit_double k)) f_one = true.
Proof.
  intros Hk. destruct k as [|p|p]; [| |lia].
  - rewrite unit_double_zero. split; reflexivity.
  - rewrite unit_double_pos by lia.
    assert (Hd : Z.pos (digits2_pos p) <= 31)
      by (apply digits2_pos_le; unfold RAND_MAX in *; lia).
    apply float_of_double_le_one; [apply mantissa53_digits; lia | lia].
Qed.

(** ** The generator *)

Lemma rand_advance (r : rng) : (rand r).2 = advance 1 r.
Proof. unfold rand, advance. cbn. f_equal. lia. Qed.

Lemma advance_advance (n m : nat) (r : rng) :
  advance n (advance m r) = advance (m + n) r.
Proof. unfold advance. cbn. f_equal. lia. Qed.

Lemma advance_0 (r : rng) : advance 0 r = r.
Proof. destruct r. unfold advance. cbn. f_equal. lia. Qed.

Lemma frand_eq (r : rng) : frand r = (unit_float (tape r (cursor r)), advance 1 r).
Proof. unfold frand. rewrite (surjective_pairing (rand r)), rand_advance. reflexivity. Qed.

Lemma drand_eq (r : rng) : drand r = (unit_double (tape r (cursor r)), advance 1 r).
Proof. unfold drand. rewrite (surjective_pairing (rand r)), rand_advance. reflexivity. Qed.

(** ** [crossover] *)

(** One turn of the loop stores [crossed_gene] and draws twice. *)
Lemma crossover_genes_step (k n : nat) (mother father : micro_ga_genome_t)
    (rate : float) (cg : list float) (r : rng) :
  crossover_genes (S k) n mother father rate cg r
  = crossover_genes k (S n) mother father rate
      (<[n := crossed_gene mother father rate n
                (unit_float (tape r (cursor r)))
                (unit_float (tape r (S (cursor r))))]> cg)
      (advance 2 r).
Proof.
  cbn [crossover_genes]. rewrite frand_eq. unfold crossed_gene.
  destruct (fgt _ rate); rewrite frand_eq, advance_advance; cbn [tape cursor advance].
  - replace (cursor r + 1)%nat with (S (cursor r)) by lia. reflexivity.
  - replace (cursor r + 1)%nat with (S (cursor r)) by lia.
    destruct (fgt _ d_half); reflexivity.
Qed.

Lemma crossover_genes_spec (k : nat) : forall (n : nat) (mother father : micro_ga_genome_t)
    (rate : float) (cg : list float) (r : rng),
  (crossover_genes k n mother father rate cg r).2 = advance (2 * k) r /\
  length (crossover_genes k n mother father rate cg r).1 = length cg /\
  forall i : nat,
    (crossover_genes k n mother father rate cg r).1 !! i =
      if decide (n <= i < n + k)%nat then
        (fun x => crossed_gene mother father rate i
           (unit_float (tape r (cursor r + 2 * (i - n))%nat))
           (unit_float (tape r (cursor r + 2 * (i - n) + 1)%nat))) <$> cg !! i
      else cg !! i.
Proof.
  induction k as [|k IH]; intros n mother father rate cg r.
  - cbn [crossover_genes fst snd]. rewrite advance_0. split; [done|]. split; [done|].
    intros i. case_decide; [lia|done].
  - rewrite crossover_genes_step.
    destruct (IH (S n) mother father rate
                (<[n := crossed_gene mother father rate n
                          (unit_float (tape r (cursor r)))
                          (unit_float (tape r (S (cursor r))))]> cg)
                (advance 2 r)) as (Hr & Hlen & Hget).
    split; [|split].
    + rewrite Hr, advance_advance. f_equal. lia.
    + rewrite Hlen, length_insert. done.
    + intros i. rewrite Hget. cbn [tape cursor advance].
      destruct (decide (i = n)) as [->|Hne].
      * rewrite decide_False by lia. rewrite decide_True by lia.
        replace (n - n)%nat with 0%nat by lia.
        replace (cursor r + 2 * 0)%nat with (cursor r) by lia.
        replace (cursor r + 1)%nat with (S (cursor r)) by lia.
        destruct (cg !! n) as [x|] eqn:E.
        -- rewrite list_lookup_insert_eq by (by eapply lookup_lt_Some). done.
        -- rewrite list_insert_ge by (by apply lookup_ge_None). rewrite E. done.
      * rewrite list_lookup_insert_ne by done.
        destruct (decide (S n <= i < S n + k)%nat), (decide (n <= i < n + S k)%nat);
          try lia; [|done].
        replace (cursor r + 2 + 2 * (i - S n))%nat with (cursor r + 2 * (i - n))%nat by lia.
        done.
Qed.

(** C5 (as amended). Per gene position [n], with [u] and [w] the two numbers
    drawn for it: when [u > crossover_rate] the child's gene is
    [w*mother + (1-w)*father], every operation rounded to [float]; otherwise
    it is the mother's gene when [w > 0.5] and the father's gene if not.  The
    child has the parents' genome length and the fitness [-1.0] of an
    unevaluated genome. *)
Theorem crossover_per_gene (mother father child : micro_ga_genome_t) (gsize : Z)
    (rate : float) (r : rng) :
  0 < gsize < 2 ^ 32 ->
  genome_wf mother -> genome_wf father ->
  genome_size mother = gsize -> genome_size father = gsize ->
  Z.of_nat (length (genes child)) = gsize ->
  exists c : micro_ga_genome_t,
    crossover mother father child gsize rate r
      = Returned (c, advance (2 * Z.to_nat gsize) r) /\
    genome_size c = genome_size mother /\
    length (genes c) = length (genes mother) /\
    fitness c = f_minus_one /\
    forall n : nat, Z.of_nat n < gsize ->
      let u := unit_float (tape r (cursor r + 2 * n)%nat) in
      let w := unit_float (tape r (cursor r + 2 * n + 1)%nat) in
      (fgt u rate = true ->
         genes c !! n
         = Some (fadd (fmul w (gene mother n)) (fmul (fsub f_one w) (gene father n)))) /\
      (fgt u rate = false ->
         genes c !! n
         = Some (if fgt (double_of_float w) d_half then gene mother n else gene father n)).
Proof.
  intros Hsize [_ Hm] [_ Hf] Hms Hfs Hc.
  destruct (crossover_genes_spec (Z.to_nat gsize) 0 mother father rate (genes child) r)
    as (Hr & Hlen & Hget).
  unfold crossover.
  replace (0 <? gsize) with true by (symmetry; apply Z.ltb_lt; lia).
  replace (2 ^ 32 <=? gsize) with false by (symmetry; apply Z.leb_gt; lia).
  cbn [negb].
  destruct (crossover_genes (Z.to_nat gsize) 0 mother father rate (genes child) r)
    as [cg r'] eqn:E.
  cbn [fst snd] in *. subst r'.
  eexists. split; [reflexivity|]. cbn [genome_size genes fitness].
  split; [done|]. split; [lia|]. split; [done|].
  intros n Hn. cbv zeta. rewrite Hget. rewrite decide_True by lia.
  replace (n - 0)%nat with n by lia.
  destruct (genes child !! n) as [x|] eqn:En.
  2: { apply lookup_ge_None in En. lia. }
  cbn [fmap option_fmap option_map]. unfold crossed_gene.
  split; intros ->; reflexivity.
Qed.

(** C5, the witness: a mother and a father of one gene. *)
Lemma crossover_per_gene_witness :
  exists c : micro_ga_genome_t,
    crossover one_tenth_genome one_tenth_genome (fresh_child 1) 1 f_zero blend_rng
      = Returned (c, advance (2 * Z.to_nat 1) blend_rng) /\
    genome_size c = genome_size one_tenth_genome /\
    length (genes c) = length (genes one_tenth_genome) /\
    fitness c = f_minus_one /\
    forall n : nat, Z.of_nat n < 1 ->
      let u := unit_float (tape blend_rng (cursor blend_rng + 2 * n)%nat) in
      let w := unit_float (tape blend_rng (cursor blend_rng + 2 * n + 1)%nat) in
      (fgt u f_zero = true ->
         genes c !! n
         = Some (fadd (fmul w (gene one_tenth_genome n))
                   (fmul (fsub f_one w) (gene one_tenth_genome n)))) /\
      (fgt u f_zero = false ->
         genes c !! n
         = Some (if fgt (double_of_float w) d_half
                 then gene one_tenth_genome n else gene one_tenth_genome n)).
Proof.
  apply (crossover_per_gene one_tenth_genome one_tenth_genome (fresh_child 1) 1
           f_zero blend_rng).
  - lia.
  - split; [cbn; lia | reflexivity].
  - split; [cbn; lia | reflexivity].
  - reflexivity.
  - reflexivity.
  - reflexivity.
Defined.

(** C5, the counterexample to the claim as stated: mother and father both
    carry the gene [0.1]; the first draw exceeds the crossover rate [0], so
    the gene is blended, and the rounded blend is not [0.1]: it lies outside
    the closed interval in_closed_interval the parents' values. *)
Lemma crossover_blend_leaves_interval :
  exists (c : micro_ga_genome_t) (r' : rng),
    crossover one_tenth_genome one_tenth_genome (fresh_child 1) 1 f_zero blend_rng
      = Returned (c, r') /\
    fgt (unit_float (tape blend_rng 0)) f_zero = true /\
    in_closed_interval (gene one_tenth_genome 0) (gene one_tenth_genome 0) (gene c 0) = false.
Proof.
  eexists _, _. split; [vm_compute; reflexivity|].
  split; vm_compute; reflexivity.
Qed.

(** ** [mutate] *)

Lemma double_of_float_zero : double_of_float f_zero = S754_zero false.
Proof. reflexivity. Qed.

Lemma double_of_float_one : double_of_float f_one = d_one.
Proof. vm_compute. reflexivity. Qed.

(** No draw is below the rate [0], every draw is below the rate [1]. *)
Lemma draw_not_below_zero (k : Z) :
  0 <= k <= RAND_MAX -> flt (unit_double k) (double_of_float f_zero) = false.
Proof.
  intros Hk. rewrite double_of_float_zero. destruct k as [|p|p]; [| |lia].
  - rewrite unit_double_zero. reflexivity.
  - rewrite unit_double_pos by lia. reflexivity.
Qed.

Lemma draw_below_one (k : Z) :
  0 <= k <= RAND_MAX -> flt (unit_double k) (double_of_float f_one) = true.
Proof.
  intros Hk. rewrite double_of_float_one. by apply unit_double_range.
Qed.

Lemma rand_in_range_advance (n : nat) (r : rng) :
  rand_in_range r -> rand_in_range (advance n r).
Proof. unfold rand_in_range. cbn. auto. Qed.

Lemma mutate_genes_zero (k : nat) : forall (g : nat) (gs : list float) (r : rng),
  rand_in_range r ->
  mutate_genes k g f_zero gs r = (gs, advance k r).
Proof.
  induction k as [|k IH]; intros g gs r Hr; cbn [mutate_genes].
  - by rewrite advance_0.
  - rewrite drand_eq, draw_not_below_zero by apply Hr.
    rewrite IH by (by apply rand_in_range_advance).
    rewrite advance_advance. reflexivity.
Qed.

Lemma mutate_genes_one (k : nat) : forall (g : nat) (gs : list float) (r : rng),
  rand_in_range r ->
  (mutate_genes k g f_one gs r).2 = advance (2 * k) r /\
  length (mutate_genes k g f_one gs r).1 = length gs /\
  forall i : nat,
    (mutate_genes k g f_one gs r).1 !! i =
      if decide (g <= i < g + k)%nat then
        (fun _ => float_of_double
                    (unit_double (tape r (cursor r + 2 * (i - g) + 1)%nat))) <$> gs !! i
      else gs !! i.
Proof.
  induction k as [|k IH]; intros g gs r Hr.
  - cbn [mutate_genes fst snd]. rewrite advance_0. split; [done|]. split; [done|].
    intros i. case_decide; [lia|done].
  - cbn [mutate_genes]. rewrite drand_eq, draw_below_one by apply Hr.
    rewrite drand_eq, advance_advance. cbn [tape cursor advance Nat.add].
    destruct (IH (S g)
                (<[g := float_of_double (unit_double (tape r (cursor r + 1)%nat))]> gs)
                (advance 2 r)) as (Hr' & Hlen & Hget).
    { by apply rand_in_range_advance. }
    split; [|split].
    + rewrite Hr', advance_advance. f_equal. lia.
    + rewrite Hlen, length_insert. done.
    + intros i. rewrite Hget. cbn [tape cursor advance].
      destruct (decide (i = g)) as [->|Hne].
      * rewrite decide_False by lia. rewrite decide_True by lia.
        replace (g - g)%nat with 0%nat by lia.
        replace (cursor r + 2 * 0 + 1)%nat with (cursor r + 1)%nat by lia.
        destruct (gs !! g) as [x|] eqn:E.
        -- rewrite list_lookup_insert_eq by (by eapply lookup_lt_Some). done.
        -- rewrite list_insert_ge by (by apply lookup_ge_None). rewrite E. done.
      * rewrite list_lookup_insert_ne by done.
        destruct (decide (S g <= i < S g + k)%nat), (decide (g <= i < g + S k)%nat);
          try lia; [|done].
        replace (cursor r + 2 + 2 * (i - S g))%nat with (cursor r + 2 * (i - g))%nat by lia.
        done.
Qed.

(** C6 (as amended). With mutation rate [0], [mutate] returns the genome as
    it was.  With mutation rate [1], it replaces every gene with a freshly
    drawn number of [0, 1) rounded to [float]: a value of the closed interval
    [0, 1].  In both cases the genome's length and fitness stay as they were. *)
Theorem mutate_boundary_rates (individual : micro_ga_genome_t) (r : rng) :
  genome_wf individual -> rand_in_range r ->
  mutate individual f_zero r
    = Returned (individual, advance (length (genes individual)) r) /\
  exists g' : micro_ga_genome_t,
    mutate individual f_one r
      = Returned (g', advance (2 * length (genes individual)) r) /\
    genome_size g' = genome_size individual /\
    length (genes g') = length (genes individual) /\
    fitness g' = fitness individual /\
    forall n : nat, (n < length (genes individual))%nat ->
      let x := unit_double (tape r (cursor r + 2 * n + 1)%nat) in
      genes g' !! n = Some (float_of_double x) /\
      fle d_zero x = true /\ flt x d_one = true /\
      fle f_zero (float_of_double x) = true /\
      fle (float_of_double x) f_one = true.
Proof.
  intros [Hsize Hlen] Hr. unfold mutate.
  replace (2 ^ 32 <=? genome_size individual) with false
    by (symmetry; apply Z.leb_gt; lia).
  replace (Z.to_nat (genome_size individual)) with (length (genes individual)) by lia.
  split.
  - rewrite mutate_genes_zero by done. destruct individual; reflexivity.
  - destruct (mutate_genes_one (length (genes individual)) 0 (genes individual) r Hr)
      as (Hr' & Hl & Hget).
    destruct (mutate_genes (length (genes individual)) 0 f_one (genes individual) r)
      as [gs r'] eqn:E.
    cbn [fst snd] in *. subst r'.
    eexists. split; [reflexivity|]. cbn [genome_size genes fitness].
    split; [done|]. split; [done|]. split; [done|].
    intros n Hn. cbv zeta. rewrite Hget, decide_True by lia.
    replace (n - 0)%nat with n by lia.
    destruct (genes individual !! n) as [y|] eqn:En.
    2: { apply lookup_ge_None in En. lia. }
    split; [reflexivity|].
    pose proof (unit_double_range _ (Hr (cursor r + 2 * n + 1)%nat)) as [? ?].
    pose proof (stored_draw_range _ (Hr (cursor r + 2 * n + 1)%nat)) as [? ?].
    done.
Qed.

Lemma lcg_in_range : rand_in_range lcg_rng.
Proof.
  intros i. cbn [lcg_rng tape]. unfold RAND_MAX.
  pose proof (Z.mod_pos_bound (Z.of_nat i * 1103515245 + 12345) 2147483648 ltac:(lia)).
  lia.
Qed.

Lemma top_in_range : rand_in_range top_rng.
Proof. intros i. cbn. unfold RAND_MAX. lia. Qed.

(** C6, the witness: the genome of one gene and the congruential generator. *)
Lemma mutate_boundary_rates_witness :
  mutate one_tenth_genome f_zero lcg_rng
    = Returned (one_tenth_genome, advance (length (genes one_tenth_genome)) lcg_rng) /\
  exists g' : micro_ga_genome_t,
    mutate one_tenth_genome f_one lcg_rng
      = Returned (g', advance (2 * length (genes one_tenth_genome)) lcg_rng) /\
    genome_size g' = genome_size one_tenth_genome /\
    length (genes g') = length (genes one_tenth_genome) /\
    fitness g' = fitness one_tenth_genome /\
    forall n : nat, (n < length (genes one_tenth_genome))%nat ->
      let x := unit_double (tape lcg_rng (cursor lcg_rng + 2 * n + 1)%nat) in
      genes g' !! n = Some (float_of_double x) /\
      fle d_zero x = true /\ flt x d_one = true /\
      fle f_zero (float_of_double x) = true /\
      fle (float_of_double x) f_one = true.
Proof.
  apply (mutate_boundary_rates one_tenth_genome lcg_rng).
  - split; [cbn; lia | reflexivity].
  - exact lcg_in_range.
Defined.

(** C6, the counterexample to the claim as stated: when [rand()] returns
    [RAND_MAX], the number drawn is [1 - 2^-31]; stored in a [float] it is
    rounded to [1.0], which is not in [0, 1). *)
Lemma mutate_rate_one_reaches_one :
  rand_in_range top_rng /\
  exists (g' : micro_ga_genome_t) (r' : rng),
    mutate one_tenth_genome f_one top_rng = Returned (g', r') /\
    genes g' !! 0%nat = Some f_one /\
    flt (gene g' 0) f_one = false.
Proof.
  split; [exact top_in_range|].
  eexists _, _. split; [vm_compute; reflexivity|].
  split; vm_compute; reflexivity.
Qed.

(** ** The order of the fitness values *)

Lemma SFcompare_key (x y : spec_float) :
  is_nan x = false -> is_nan y = false ->
  SFcompare x y = Some (key_compare (float_key x) (float_key y)).
Proof.
  destruct x as [[]|[]| |[] m1 e1], y as [[]|[]| |[] m2 e2];
    cbn [is_nan]; intros Hx Hy; try discriminate; try reflexivity.
  - cbn [SFcompare float_key key_compare]. f_equal.
    change (-1 ?= -1) with Eq. cbv iota.
    rewrite Z.compare_opp.
    destruct (Z.compare_spec e1 e2) as [He|He|He].
    + subst. rewrite Z.compare_refl. reflexivity.
    + replace (e2 ?= e1) with Gt by (symmetry; apply Z.compare_gt_iff; lia). reflexivity.
    + replace (e2 ?= e1) with Lt by (symmetry; apply Z.compare_lt_iff; lia). reflexivity.
Qed.

Lemma key_compare_spec (k1 k2 : Z * Z * Z) :
  match key_compare k1 k2 with
  | Eq => k1 = k2
  | Lt => k1.1.1 < k2.1.1 \/ (k1.1.1 = k2.1.1 /\
            (k1.1.2 < k2.1.2 \/ (k1.1.2 = k2.1.2 /\ k1.2 < k2.2)))
  | Gt => k2.1.1 < k1.1.1 \/ (k1.1.1 = k2.1.1 /\
            (k2.1.2 < k1.1.2 \/ (k1.1.2 = k2.1.2 /\ k2.2 < k1.2)))
  end.
Proof.
  destruct k1 as [[a1 b1] c1], k2 as [[a2 b2] c2]. cbn [key_compare fst snd].
  destruct (Z.compare_spec a1 a2); [|lia..].
  destruct (Z.compare_spec b1 b2); [|lia..].
  destruct (Z.compare_spec c1 c2); [|lia..].
  congruence.
Qed.

Lemma key_compare_antisym (k1 k2 : Z * Z * Z) :
  key_compare k2 k1 = CompOpp (key_compare k1 k2).
Proof.
  pose proof (key_compare_spec k1 k2) as H12. pose proof (key_compare_spec k2 k1) as H21.
  destruct (key_compare k1 k2), (key_compare k2 k1); cbn [CompOpp];
    try reflexivity; exfalso; subst; lia.
Qed.

Lemma key_compare_trans (k1 k2 k3 : Z * Z * Z) :
  key_compare k1 k2 <> Gt -> key_compare k2 k3 <> Gt -> key_compare k1 k3 <> Gt.
Proof.
  pose proof (key_compare_spec k1 k2) as H12. pose proof (key_compare_spec k2 k3) as H23.
  pose proof (key_compare_spec k1 k3) as H13.
  destruct (key_compare k1 k2), (key_compare k2 k3), (key_compare k1 k3);
    try done; intros _ _; exfalso; subst; lia.
Qed.

(** [genome_compare] on genomes whose fitness is a number. *)
Lemma genome_compare_key (a b : micro_ga_genome_t) :
  is_nan (fitness a) = false -> is_nan (fitness b) = false ->
  genome_compare a b
  = match key_compare (float_key (fitness a)) (float_key (fitness b)) with
    | Lt => -1
    | Eq => 0
    | Gt => 1
    end.
Proof.
  intros Ha Hb. unfold genome_compare, flt, fgt, SFltb.
  rewrite (SFcompare_key _ _ Ha Hb), (SFcompare_key _ _ Hb Ha).
  rewrite (key_compare_antisym (float_key (fitness a))).
  destruct (key_compare _ _); reflexivity.
Qed.

Lemma genome_compare_le (a b : micro_ga_genome_t) :
  is_nan (fitness a) = false -> is_nan (fitness b) = false ->
  genome_compare a b <= 0 <-> fle (fitness a) (fitness b) = true.
Proof.
  intros Ha Hb. rewrite genome_compare_key by done.
  unfold fle, SFleb. rewrite (SFcompare_key _ _ Ha Hb).
  destruct (key_compare _ _); split; intros; try done; lia.
Qed.

Lemma flt_not_fle (x y : spec_float) : flt x y = true -> fle y x = false.
Proof.
  unfold flt, fle, SFltb, SFleb. intros H.
  destruct x as [[]|[]| |[] m1 e1], y as [[]|[]| |[] m2 e2]; try done.
  all: rewrite SFcompare_key in * by done.
  all: rewrite (key_compare_antisym (float_key (S754_finite _ m1 e1))).
  all: destruct (key_compare _ _); done.
Qed.

(** Without NaN among the fitness values, [genome_compare] orders the
    population as [qsort] requires. *)
Lemma genome_compare_total_ordering (l : list micro_ga_genome_t) :
  Forall (fun g => is_nan (fitness g) = false) l ->
  total_ordering genome_compare l.
Proof.
  intros Hl. rewrite Forall_forall in Hl. split.
  - intros a b Ha Hb. rewrite !genome_compare_key by auto.
    rewrite (key_compare_antisym (float_key (fitness a))).
    destruct (key_compare _ _); reflexivity.
  - intros a b c Ha Hb Hc. rewrite !genome_compare_key by auto.
    pose proof (key_compare_trans (float_key (fitness a)) (float_key (fitness b))
                  (float_key (fitness c))) as Ht.
    destruct (key_compare (float_key (fitness a)) (float_key (fitness b))),
      (key_compare (float_key (fitness b)) (float_key (fitness c))),
      (key_compare (float_key (fitness a)) (float_key (fitness c)));
      intros; try lia; exfalso; by apply Ht.
Qed.

(** ** Insertion sort meets the contract of [qsort] *)

Lemma insert_sorted_perm {A : Type} (cmp : A -> A -> Z) (x : A) (l : list A) :
  insert_sorted cmp x l ≡ₚ x :: l.
Proof.
  induction l as [|y l IH]; cbn [insert_sorted]; [done|].
  destruct (cmp x y <=? 0); [done|].
  rewrite IH. apply Permutation_swap.
Qed.

Lemma insertion_sort_perm (A : Type) (cmp : A -> A -> Z) (l : list A) :
  insertion_sort A cmp l ≡ₚ l.
Proof.
  unfold insertion_sort. induction l as [|x l IH]; cbn [foldr]; [done|].
  rewrite insert_sorted_perm. by rewrite IH.
Qed.

Lemma insert_sorted_strongly {A : Type} (cmp : A -> A -> Z) (dom : list A)
    (x : A) (l : list A) :
  total_ordering cmp dom -> x ∈ dom -> l ⊆ dom ->
  StronglySorted (fun a b => cmp a b <= 0) l ->
  StronglySorted (fun a b => cmp a b <= 0) (insert_sorted cmp x l).
Proof.
  intros [Hanti Htrans] Hx Hsub Hs.
  induction Hs as [|y l Hs IH Hy]; cbn [insert_sorted].
  - repeat constructor.
  - assert (Hyd : y ∈ dom) by (apply Hsub; left).
    assert (Hld : l ⊆ dom) by (intros z Hz; apply Hsub; by right).
    destruct (Z.leb_spec (cmp x y) 0) as [Hle|Hgt].
    + constructor; [by constructor|].
      constructor; [done|]. rewrite Forall_forall in Hy |- *.
      intros z Hz. apply (Htrans x y z); auto.
    + constructor; [by apply IH|].
      rewrite Forall_forall in Hy |- *. intros z Hz.
      rewrite insert_sorted_perm in Hz. apply elem_of_cons in Hz as [->|Hz]; [|by auto].
      specialize (Hanti x y Hx Hyd). lia.
Qed.

Lemma insertion_sort_sorted (A : Type) (cmp : A -> A -> Z) (l : list A) :
  total_ordering cmp l ->
  StronglySorted (fun a b => cmp a b <= 0) (insertion_sort A cmp l).
Proof.
  intros Hord. unfold insertion_sort.
  assert (Hsub : l ⊆ l) by done. revert Hsub. generalize l at 1 3 as l'.
  induction l' as [|x l' IH]; intros Hsub; cbn [foldr]; [constructor|].
  apply (insert_sorted_strongly cmp l); [done|apply Hsub; left| |].
  - intros z Hz. fold (insertion_sort A cmp l') in Hz.
    rewrite insertion_sort_perm in Hz. apply Hsub. by right.
  - apply IH. intros z Hz. apply Hsub. by right.
Qed.

(** ** The loops of [micro_ga_evolve] *)

Lemma lookup_total_drop_head {A : Type} `{Inhabited A} (l : list A) (n : nat) :
  (n < length l)%nat -> drop n l = (l !!! n) :: drop (S n) l.
Proof.
  intros Hn. destruct (lookup_lt_is_Some_2 l n Hn) as [x Hx].
  rewrite (list_lookup_total_correct _ _ _ Hx). by apply drop_S.
Qed.

Lemma evaluate_eval_list {W : Type} (f : fitness_fn_t W) (k : nat) :
  forall (n : nat) (inds : list micro_ga_genome_t) (w : W),
    length inds = (n + k)%nat ->
    evaluate f k n inds w
    = (take n inds ++ (eval_list f (drop n inds) w).1, (eval_list f (drop n inds) w).2).
Proof.
  induction k as [|k IH]; intros n inds w Hlen; cbn [evaluate].
  - rewrite drop_ge by lia. cbn. rewrite app_nil_r, take_ge by lia. done.
  - rewrite (lookup_total_drop_head inds n) by lia. cbn [eval_list].
    destruct (f w (inds !!! n)) as [w' g'] eqn:Ef.
    rewrite IH by (rewrite length_insert; lia).
    rewrite drop_insert_lt by lia.
    destruct (eval_list f (drop (S n) inds) w') as [l'' w''] eqn:El. cbn [fst snd].
    f_equal.
    rewrite (take_S_r (<[n:=g']> inds) n g') by (by rewrite list_lookup_insert_eq by lia).
    rewrite take_insert_ge by lia. rewrite <- app_assoc. done.
Qed.

Lemma eval_list_length {W : Type} (f : fitness_fn_t W) (l : list micro_ga_genome_t) :
  forall w : W, length (eval_list f l w).1 = length l.
Proof.
  induction l as [|g l IH]; intros w; cbn [eval_list]; [done|].
  destruct (f w g) as [w' g']. specialize (IH w').
  destruct (eval_list f l w') as [l'' w'']. cbn in *. lia.
Qed.

Lemma eval_list_evaluated {W : Type} (f : fitness_fn_t W) (l : list micro_ga_genome_t) :
  forall w : W, (forall w' g, g ∈ l -> (f w' g).2 = g) -> (eval_list f l w).1 = l.
Proof.
  induction l as [|g l IH]; intros w Hev; cbn [eval_list]; [done|].
  pose proof (Hev w g ltac:(left)) as Hg.
  destruct (f w g) as [w' g']. cbn in Hg. subst g'.
  specialize (IH w' ltac:(intros; apply Hev; by right)).
  destruct (eval_list f l w') as [l'' w'']. cbn in *. by subst.
Qed.

Lemma eval_list_shape {W : Type} (f : fitness_fn_t W) (P : micro_ga_genome_t -> Prop)
    (l : list micro_ga_genome_t) :
  (forall w g, P g -> P (f w g).2) ->
  forall w : W, Forall P l -> Forall P (eval_list f l w).1.
Proof.
  intros Hf. induction l as [|g l IH]; intros w Hl; cbn [eval_list]; [done|].
  apply Forall_cons in Hl as [Hg Hl].
  pose proof (Hf w g Hg) as Hg'. destruct (f w g) as [w' g'].
  specialize (IH w' Hl). destruct (eval_list f l w') as [l'' w''].
  cbn in *. by constructor.
Qed.

(** The world after the evaluation loop: the callback's effects, one call
    after the other, first slot to last. *)
Lemma eval_list_world {W : Type} (f : fitness_fn_t W) (l : list micro_ga_genome_t) :
  forall w : W, (eval_list f l w).2 = foldl (fun w g => (f w g).1) w l.
Proof.
  induction l as [|g l IH]; intros w; cbn [eval_list foldl]; [done|].
  specialize (IH (f w g).1). destruct (f w g) as [w' g']. cbn [fst snd] in *.
  destruct (eval_list f l w') as [l'' w'']. done.
Qed.

(** The replacement loop writes the slots below [n + k] and no other. *)
Lemma replace_individuals_lookup (k : nat) :
  forall (n : nat) (children inds : list micro_ga_genome_t) (i : nat),
    replace_individuals k n children inds !! i =
      if decide (n <= i < n + k)%nat then
        (fun old => replace_individual old (children !!! i)) <$> inds !! i
      else inds !! i.
Proof.
  induction k as [|k IH]; intros n children inds i; cbn [replace_individuals].
  - rewrite decide_False by lia. done.
  - rewrite IH. destruct (decide (i = n)) as [->|Hne].
    + rewrite decide_False by lia. rewrite decide_True by lia.
      destruct (inds !! n) as [old|] eqn:E.
      * rewrite list_lookup_insert_eq by (by eapply lookup_lt_Some).
        rewrite (list_lookup_total_correct _ _ _ E). done.
      * rewrite list_insert_ge by (by apply lookup_ge_None). by rewrite E.
    + rewrite list_lookup_insert_ne by done.
      destruct (decide (S n <= i < S n + k)%nat), (decide (n <= i < n + S k)%nat);
        try lia; done.
Qed.

Lemma replace_individuals_length (k : nat) :
  forall (n : nat) (children inds : list micro_ga_genome_t),
    length (replace_individuals k n children inds) = length inds.
Proof.
  induction k as [|k IH]; intros n children inds; cbn [replace_individuals]; [done|].
  rewrite IH, length_insert. done.
Qed.

Lemma crossover_shape (mother father child c : micro_ga_genome_t) (gsize : Z)
    (rate : float) (r r' : rng) :
  crossover mother father child gsize rate r = Returned (c, r') ->
  genome_size c = gsize /\ length (genes c) = length (genes child) /\
  fitness c = f_minus_one.
Proof.
  unfold crossover. intros Hc.
  destruct (negb (0 <? gsize)); [done|]. destruct (2 ^ 32 <=? gsize); [done|].
  destruct (crossover_genes_spec (Z.to_nat gsize) 0 mother father rate (genes child) r)
    as (_ & Hlen & _).
  destruct (crossover_genes _ _ _ _ _ _ _) as [cg r'']. injection Hc as <- <-.
  done.
Qed.

Lemma mutate_genes_length (k : nat) : forall (g : nat) (rate : float) (gs : list float)
    (r : rng),
  length (mutate_genes k g rate gs r).1 = length gs.
Proof.
  induction k as [|k IH]; intros g rate gs r; cbn [mutate_genes]; [done|].
  destruct (drand r) as [x r1]. destruct (flt x _); [|apply IH].
  destruct (drand r1) as [x' r2]. rewrite IH, length_insert. done.
Qed.

Lemma mutate_shape (c c' : micro_ga_genome_t) (rate : float) (r r' : rng) :
  mutate c rate r = Returned (c', r') ->
  genome_size c' = genome_size c /\ length (genes c') = length (genes c) /\
  fitness c' = fitness c.
Proof.
  unfold mutate. intros Hm. destruct (2 ^ 32 <=? genome_size c); [done|].
  pose proof (mutate_genes_length (Z.to_nat (genome_size c)) 0 rate (genes c) r) as Hlen.
  destruct (mutate_genes _ _ _ _ _) as [gs r'']. injection Hm as <- <-. done.
Qed.

(** The loop "Breed!" fills the children from [nchildren] on, each with the
    genome size handed to [crossover], in the buffer it had. *)
Lemma breed_shape (gsize : Z) (rate : float) (inds : list micro_ga_genome_t)
    (parents : list nat) (k : nat) :
  forall (n nc : nat) (children children' : list micro_ga_genome_t) (r r' : rng),
    breed k n nc inds parents gsize rate children r = Returned (children', r') ->
    length children' = length children /\
    forall (i : nat) (c : micro_ga_genome_t), children' !! i = Some c ->
      exists c0, children !! i = Some c0 /\ length (genes c) = length (genes c0) /\
        if decide (nc <= i < nc + k)%nat then genome_size c = gsize else c = c0.
Proof.
  induction k as [|k IH]; intros n nc children children' r r'; cbn [breed].
  - intros [= <- <-]. split; [done|]. intros i c Hc. exists c.
    rewrite decide_False by lia. done.
  - destruct (crossover _ _ _ gsize rate r) as [[c1 r1]| | | |] eqn:Ec; try done.
    intros Hb. apply crossover_shape in Ec as (Hs & Hl & _).
    apply IH in Hb as [Hlen Hget]. rewrite length_insert in Hlen.
    split; [done|]. intros i c Hc.
    destruct (Hget i c Hc) as (c0 & Hc0 & Hl0 & Hcase).
    destruct (decide (i = nc)) as [->|Hne].
    + assert (Hlt : (nc < length children)%nat).
      { apply lookup_lt_Some in Hc0. by rewrite length_insert in Hc0. }
      rewrite list_lookup_insert_eq in Hc0 by done. injection Hc0 as <-.
      rewrite decide_False in Hcase by lia. subst c.
      destruct (lookup_lt_is_Some_2 children nc Hlt) as [c0 Hc0]. exists c0.
      rewrite decide_True by lia.
      rewrite (list_lookup_total_correct _ _ _ Hc0) in Hl.
      split; [done|]. split; [congruence|done].
    + rewrite list_lookup_insert_ne in Hc0 by done. exists c0.
      split; [done|]. split; [done|].
      destruct (decide (nc + 1 <= i < nc + 1 + k)%nat), (decide (nc <= i < nc + S k)%nat);
        try lia; done.
Qed.

(** The loop "Mutate!" keeps the size, the buffer length and the fitness of
    every child. *)
Lemma mutate_children_shape (rate : float) (k : nat) :
  forall (n : nat) (children children' : list micro_ga_genome_t) (r r' : rng),
    mutate_children k n rate children r = Returned (children', r') ->
    length children' = length children /\
    forall (i : nat) (c : micro_ga_genome_t), children' !! i = Some c ->
      exists c0, children !! i = Some c0 /\ genome_size c = genome_size c0 /\
        length (genes c) = length (genes c0) /\ fitness c = fitness c0.
Proof.
  induction k as [|k IH]; intros n children children' r r'; cbn [mutate_children].
  - intros [= <- <-]. split; [done|]. intros i c Hc. by exists c.
  - destruct (mutate _ rate r) as [[c1 r1]| | | |] eqn:Em; try done.
    intros Hm. apply mutate_shape in Em as (Hs & Hl & Hf).
    apply IH in Hm as [Hlen Hget]. rewrite length_insert in Hlen.
    split; [done|]. intros i c Hc.
    destruct (Hget i c Hc) as (c0 & Hc0 & Hs0 & Hl0 & Hf0).
    destruct (decide (i = n)) as [->|Hne].
    + assert (Hlt : (n < length children)%nat).
      { apply lookup_lt_Some in Hc0. by rewrite length_insert in Hc0. }
      rewrite list_lookup_insert_eq in Hc0 by done. injection Hc0 as <-.
      destruct (lookup_lt_is_Some_2 children n Hlt) as [c0 Hc0]. exists c0.
      rewrite (list_lookup_total_correct _ _ _ Hc0) in Hs, Hl, Hf.
      split; [done|]. split; [congruence|]. split; congruence.
    + rewrite list_lookup_insert_ne in Hc0 by done. by exists c0.
Qed.

(** ** [micro_ga_evolve], when it returns *)

Lemma u32_small (z : Z) : 0 <= z < 2 ^ 32 -> u32 z = z.
Proof. intros Hz. unfold u32. by apply Z.mod_small. Qed.

(** The steps of a call that returns, on an engine with its population. *)
Lemma micro_ga_evolve_returned {W : Type}
    (qsort : forall A : Type, (A -> A -> Z) -> list A -> list A)
    (fuel : nat) (heap : scratch) (ga : micro_ga_t W) (w : W) (r : rng)
    (f : fitness_fn_t W) (inds : list micro_ga_genome_t) (st : run W) :
  fitness_fn ga = Some f -> individuals ga = Some inds ->
  Z.of_nat (length inds) = population_size ga ->
  0 < population_size ga < 2 ^ 31 ->
  micro_ga_evolve qsort fuel heap ga w r = Returned st ->
  let psize := population_size ga in
  let sorted := qsort _ genome_compare (eval_list f inds w).1 in
  exists (parents : list nat) (pcount : nat) (r1 : rng)
         (children1 : list micro_ga_genome_t) (r2 : rng)
         (children2 : list micro_ga_genome_t),
    select_parents fuel psize (psize - 1) 0 0 (selection_distribution psize sorted)
      (replicate (Z.to_nat (psize * 2)) 0%nat) r = Returned (parents, pcount, r1) /\
    breed (Z.to_nat (psize - 1)) 0 0 sorted parents (ga_genome_size ga)
      (crossover_rate ga) (replicate (Z.to_nat psize) (fresh_child (ga_genome_size ga))) r1
      = Returned (children1, r2) /\
    mutate_children (Z.to_nat (psize - 1)) 0 (mutation_rate ga) children1 r2
      = Returned (children2, random st) /\
    engine st
      = set_individuals ga
          (Some (replace_individuals (Z.to_nat (psize - 1)) 0 children2 sorted)) /\
    world st = (eval_list f inds w).2.
Proof.
  intros Hf Hi Hlen Hp. unfold micro_ga_evolve. rewrite Hf, Hi.
  destruct (negb (ready ga =? 1)); [done|].
  rewrite evaluate_eval_list by lia. rewrite take_0, drop_0, app_nil_l.
  pose proof (eval_list_length f inds w) as Hel.
  destruct (eval_list f inds w) as [inds1 w1]. cbn [fst snd] in *.
  destruct (negb (children_ok heap) && _); [done|].
  unfold sort_individuals. rewrite take_ge, drop_ge by lia. rewrite app_nil_r.
  destruct (negb (prob_ok heap) && _); [done|].
  rewrite (u32_small (population_size ga - 1)) by lia.
  destruct (negb (parents_ok heap) && _).
  { destruct (drand r) as [x rg]. destruct (roulette _ _ _ _); [done|].
    by destruct (drand rg). }
  rewrite (u32_small (population_size ga * 2)) by lia.
  rewrite (u32_small ((population_size ga - 1) * 2)) by lia.
  rewrite Z.div_mul by lia.
  destruct (select_parents _ _ _ _ _ _ _ _) as [[[parents pcount] r1]| | | |] eqn:Es;
    try done.
  destruct (breed _ _ _ _ _ _ _ _ _) as [[children1 r2]| | | |] eqn:Eb; try done.
  destruct (mutate_children _ _ _ _ _) as [[children2 r3]| | | |] eqn:Em; try done.
  intros [= <-]. cbn [engine world random].
  by exists parents, pcount, r1, children1, r2, children2.
Qed.

(** ** Failed allocations and misuse *)

(** On an engine with its population, a failed allocation of [prob] or of
    [children] never lets [micro_ga_evolve] return: the call runs into the
    null pointer, after the objective function has been called on every
    individual. *)
Lemma evolve_null_scratch {W : Type}
    (qsort : forall A : Type, (A -> A -> Z) -> list A -> list A)
    (fuel : nat) (heap : scratch) (ga : micro_ga_t W) (w : W) (r : rng)
    (f : fitness_fn_t W) (inds : list micro_ga_genome_t) :
  ready ga = 1 -> fitness_fn ga = Some f -> individuals ga = Some inds ->
  0 < population_size ga ->
  prob_ok heap = false \/ children_ok heap = false ->
  exists st : run W,
    micro_ga_evolve qsort fuel heap ga w r = Fault st /\
    world st = (evaluate f (Z.to_nat (population_size ga)) 0 inds w).2.
Proof.
  intros Hr Hf Hi Hp Hheap. unfold micro_ga_evolve. rewrite Hr, Hf, Hi. cbn [Z.eqb negb].
  change (1 =? 1) with true. cbn [negb].
  destruct (evaluate f _ 0 inds w) as [inds1 w1]. cbn [snd].
  replace (0 <? population_size ga) with true by (symmetry; apply Z.ltb_lt; lia).
  destruct (children_ok heap); cbn [negb andb].
  - destruct Hheap as [->| [=]]. cbn [negb andb]. eexists. split; reflexivity.
  - eexists. split; reflexivity.
Qed.

(** C2, at the failing input: the sample engine before evaluation.  When
    [prob] cannot be allocated the message is written, but the call goes on
    and stops at the null pointer with the population evaluated and sorted;
    when [children] cannot be allocated the call stops at the null pointer
    before the message, with the population evaluated. *)
Theorem evolve_allocation_failure :
  (exists st : run nat,
     micro_ga_evolve insertion_sort 100 no_prob unevaluated_engine 0%nat lcg_rng
       = Fault st /\
     stderr st = [could_not_allocate] /\
     individuals (engine st) <> individuals unevaluated_engine) /\
  (exists st : run nat,
     micro_ga_evolve insertion_sort 100 no_children unevaluated_engine 0%nat lcg_rng
       = Fault st /\
     stderr st = [] /\
     individuals (engine st) <> individuals unevaluated_engine).
Proof.
  split; eexists; (split; [reflexivity|]); (split; [reflexivity|]).
  - intros H. vm_compute in H. discriminate H.
  - intros H. vm_compute in H. discriminate H.
Qed.

(** C8, at the failing input: an engine whose ready flag is not set, be it
    one that was never initialized or one that has its array.
    [micro_ga_evolve] stops at its assertion, but [micro_ga_sort] tests
    nothing: it hands whatever [individuals] points to over to [qsort] and
    returns; no call of it ends at an assertion. *)
Theorem sort_without_ready_check {W : Type}
    (qsort : forall A : Type, (A -> A -> Z) -> list A -> list A)
    (ga : micro_ga_t W) (inds : list micro_ga_genome_t) :
  let idle := set_ready (set_individuals ga (Some inds)) 0 in
  (forall (fuel : nat) (heap : scratch) (w : W) (r : rng),
     micro_ga_evolve qsort fuel heap idle w r = Aborted /\
     micro_ga_evolve qsort fuel heap (zeroed_engine W) w r = Aborted) /\
  micro_ga_sort qsort (zeroed_engine W) = Returned (zeroed_engine W) /\
  micro_ga_sort qsort idle
  = Returned (set_individuals idle
                (Some (sort_individuals qsort (population_size ga) inds))) /\
  forall ga' : micro_ga_t W, micro_ga_sort qsort ga' <> Aborted.
Proof.
  cbv zeta. split; [|split; [|split]].
  - intros fuel heap w r. split; reflexivity.
  - reflexivity.
  - reflexivity.
  - intros ga'. unfold micro_ga_sort.
    destruct (individuals ga'); [done|]. destruct (_ =? 0); done.
Qed.

(** ** [micro_ga_init] *)

Lemma seed_genes_spec (k : nat) : forall (g : nat) (gs : list float) (r : rng),
  (seed_genes k g gs r).2 = advance k r /\
  length (seed_genes k g gs r).1 = length gs /\
  forall i : nat,
    (seed_genes k g gs r).1 !! i =
      if decide (g <= i < g + k)%nat then
        (fun _ => unit_float (tape r (cursor r + (i - g))%nat)) <$> gs !! i
      else gs !! i.
Proof.
  induction k as [|k IH]; intros g gs r.
  - cbn [seed_genes fst snd]. rewrite advance_0. split; [done|]. split; [done|].
    intros i. case_decide; [lia|done].
  - cbn [seed_genes]. rewrite frand_eq.
    destruct (IH (S g) (<[g := unit_float (tape r (cursor r))]> gs) (advance 1 r))
      as (Hr & Hlen & Hget).
    split; [|split].
    + rewrite Hr, advance_advance. done.
    + rewrite Hlen, length_insert. done.
    + intros i. rewrite Hget. cbn [tape cursor advance].
      destruct (decide (i = g)) as [->|Hne].
      * rewrite decide_False by lia. rewrite decide_True by lia.
        replace (cursor r + (g - g))%nat with (cursor r) by lia.
        destruct (gs !! g) as [x|] eqn:E.
        -- rewrite list_lookup_insert_eq by (by eapply lookup_lt_Some). done.
        -- rewrite list_insert_ge by (by apply lookup_ge_None). rewrite E. done.
      * rewrite list_lookup_insert_ne by done.
        destruct (decide (S g <= i < S g + k)%nat), (decide (g <= i < g + S k)%nat);
          try lia; [|done].
        replace (cursor r + 1 + (i - S g))%nat with (cursor r + (i - g))%nat by lia.
        done.
Qed.

Lemma seed_genome_seeded (gsize : Z) (g : micro_ga_genome_t) (r r0 : rng) :
  blank gsize g -> tape r = tape r0 ->
  seeded gsize r0 (seed_genome g r).1 /\
  (seed_genome g r).2 = advance (Z.to_nat gsize) r.
Proof.
  intros (Hs & Hl & Hf) Ht. unfold seed_genome.
  destruct (seed_genes_spec (Z.to_nat (genome_size g)) 0 (genes g) r)
    as (Hr & Hlen & Hget).
  destruct (seed_genes _ _ _ _) as [gs r']. cbn [fst snd] in *.
  split; [|by rewrite Hs in Hr].
  unfold seeded. cbn [genome_size genes fitness].
  split; [done|]. split; [lia|]. split; [done|].
  apply Forall_lookup_2. intros i x Hx.
  assert (Hi : (i < length gs)%nat) by (by eapply lookup_lt_Some).
  rewrite Hget in Hx. rewrite decide_True in Hx by lia.
  destruct (genes g !! i); [|done]. cbn in Hx. injection Hx as <-.
  rewrite Ht. by eexists.
Qed.

(** Without an acceptance function the seeding loop returns, having seeded
    every slot from [n] on. *)
Lemma population_init_loop_unfiltered {W : Type} (psize gsize : Z) (r0 : rng) (m : nat) :
  forall (fuel n : nat) (inds : list micro_ga_genome_t) (w : W) (r : rng),
    0 <= gsize < 2 ^ 32 -> Z.of_nat (length inds) = psize ->
    (Z.to_nat psize - n <= m)%nat -> (m <= fuel)%nat -> tape r = tape r0 ->
    (forall i g, inds !! i = Some g ->
       if decide (i < n)%nat then seeded gsize r0 g else blank gsize g) ->
    exists (inds' : list micro_ga_genome_t) (r' : rng),
      population_init_loop fuel psize None n inds w r = Returned (inds', w, r') /\
      length inds' = length inds /\ Forall (seeded gsize r0) inds'.
Proof.
  induction m as [|m IH]; intros fuel n inds w r Hg Hlen Hm Hfuel Ht Hinv.
  - assert (Hdone : (Z.of_nat n <? psize) = false) by (apply Z.ltb_ge; lia).
    exists inds, r. destruct fuel; cbn [population_init_loop]; rewrite Hdone.
    all: split; [done|]; split; [done|].
    all: apply Forall_lookup_2; intros i g Hi; specialize (Hinv i g Hi).
    all: apply lookup_lt_Some in Hi; rewrite decide_True in Hinv by lia; done.
  - destruct (Z.ltb_spec (Z.of_nat n) psize) as [Hlt|Hge].
    + destruct fuel as [|fuel]; [lia|]. cbn [population_init_loop].
      replace (Z.of_nat n <? psize) with true by (symmetry; apply Z.ltb_lt; lia).
      destruct (lookup_lt_is_Some_2 inds n ltac:(lia)) as [g Hgn].
      rewrite (list_lookup_total_correct _ _ _ Hgn).
      pose proof (Hinv n g Hgn) as Hblank. rewrite decide_False in Hblank by lia.
      destruct (seed_genome_seeded gsize g r r0 Hblank Ht) as [Hseeded Hr].
      destruct Hblank as (Hs & _ & _).
      replace (2 ^ 32 <=? genome_size g) with false by (symmetry; apply Z.leb_gt; lia).
      destruct (seed_genome g r) as [g1 r1]. cbn [fst snd] in *.
      destruct (IH fuel (S n) (<[n := g1]> inds) w r1) as (inds' & r' & Hloop & Hl & Hall).
      * done.
      * by rewrite length_insert.
      * lia.
      * lia.
      * subst r1. done.
      * intros i gi Hi. destruct (decide (i = n)) as [->|Hne].
        -- rewrite list_lookup_insert_eq in Hi by lia. injection Hi as <-.
           rewrite decide_True by lia. done.
        -- rewrite list_lookup_insert_ne in Hi by done. specialize (Hinv i gi Hi).
           destruct (decide (i < n)%nat), (decide (i < S n)%nat); try lia; done.
      * exists inds', r'. rewrite length_insert in Hl. done.
    + assert (Hdone : (Z.of_nat n <? psize) = false) by (apply Z.ltb_ge; lia).
      exists inds, r. destruct fuel; cbn [population_init_loop]; rewrite Hdone.
      all: split; [done|]; split; [done|].
      all: apply Forall_lookup_2; intros i g Hi; specialize (Hinv i g Hi).
      all: apply lookup_lt_Some in Hi; rewrite decide_True in Hinv by lia; done.
Qed.

(** With or without an acceptance function, a seeding loop that returns
    leaves a population of the same size. *)
Lemma population_init_loop_length {W : Type} (psize : Z)
    (accept : option (acceptance_fn_t W)) (fuel : nat) :
  forall (n : nat) (inds inds' : list micro_ga_genome_t) (w w' : W) (r r' : rng),
    population_init_loop fuel psize accept n inds w r = Returned (inds', w', r') ->
    length inds' = length inds.
Proof.
  induction fuel as [|fuel IH]; intros n inds inds' w w' r r'; cbn [population_init_loop].
  - destruct (Z.of_nat n <? psize); [done|]. by intros [= <- <- <-].
  - destruct (Z.of_nat n <? psize); [|by intros [= <- <- <-]].
    destruct (2 ^ 32 <=? _); [done|].
    destruct (seed_genome _ r) as [g r1]. destruct accept as [acc|].
    + destruct (acc w g) as [[w1 g1] a]. destruct (a =? 0); intros Hl.
      all: apply IH in Hl; by rewrite length_insert in Hl.
    + intros Hl. apply IH in Hl. by rewrite length_insert in Hl.
Qed.

Lemma config_rejected_invalid {W : Type} (config : micro_ga_config_t W) :
  config_rejected config = true <-> config_invalid config.
Proof.
  unfold config_rejected, config_invalid.
  rewrite !orb_true_iff, !Z.eqb_eq.
  destruct (cfg_fitness_fn config); intuition congruence.
Qed.

Lemma config_accepted {W : Type} (config : micro_ga_config_t W) :
  ~ config_invalid config -> config_rejected config = false.
Proof.
  intros Hvalid. destruct (config_rejected config) eqn:E; [|done].
  by apply config_rejected_invalid in E.
Qed.

(** An accepted configuration without acceptance function: the call
    returns [0], the engine is ready and its population seeded. *)
Lemma micro_ga_init_unfiltered {W : Type} (fuel : nat) (ga : micro_ga_t W)
    (config : micro_ga_config_t W) (w : W) (r : rng) :
  ~ config_invalid config ->
  cfg_acceptance_fn config = None ->
  0 <= cfg_population_size config < 2 ^ 32 ->
  0 <= cfg_genome_size config < 2 ^ 32 ->
  (Z.to_nat (cfg_population_size config) <= fuel)%nat ->
  exists g inds r',
    micro_ga_init fuel true (Some ga) (Some config) w r = Returned (0, Some g, w, r') /\
    ready g = 1 /\ individuals g = Some inds /\
    population_size g = cfg_population_size config /\
    ga_genome_size g = cfg_genome_size config /\
    fitness_fn g = cfg_fitness_fn config /\
    Z.of_nat (length inds) = cfg_population_size config /\
    Forall (seeded (cfg_genome_size config) r) inds.
Proof.
  intros Hvalid Hnone Hp Hg Hfuel.
  unfold micro_ga_init. rewrite (config_accepted config Hvalid). cbn [negb].
  unfold population_init.
  cbn [set_individuals individuals population_size acceptance_fn configured].
  rewrite Hnone.
  destruct (population_init_loop_unfiltered (W := W) (cfg_population_size config)
              (cfg_genome_size config) r (Z.to_nat (cfg_population_size config))
              fuel 0
              (replicate (Z.to_nat (cfg_population_size config))
                 (blank_individual (cfg_genome_size config))) w r)
    as (inds' & r' & Hloop & Hlen & Hall).
  - done.
  - rewrite length_replicate. lia.
  - lia.
  - done.
  - done.
  - intros i g Hi. apply lookup_replicate in Hi as [-> _].
    rewrite decide_False by lia. unfold blank, blank_individual.
    cbn [genome_size genes fitness]. rewrite length_replicate.
    split; [done|]. split; [lia|done].
  - rewrite Hloop. rewrite length_replicate in Hlen.
    eexists _, inds', r'. split; [reflexivity|].
    cbn [set_ready set_individuals ready individuals population_size
         ga_genome_size fitness_fn configured].
    split; [done|]. split; [done|]. split; [done|]. split; [done|].
    split; [done|]. split; [lia|done].
Qed.

(** What [micro_ga_init] returns is an initialized engine in the sense of
    [engine_wf]. *)
Lemma micro_ga_init_engine_wf {W : Type} (fuel : nat) (ga : micro_ga_t W)
    (config : micro_ga_config_t W) (w : W) (r : rng) :
  ~ config_invalid config ->
  cfg_acceptance_fn config = None ->
  0 <= cfg_population_size config < 2 ^ 31 ->
  0 <= cfg_genome_size config < 2 ^ 32 ->
  (Z.to_nat (cfg_population_size config) <= fuel)%nat ->
  exists g inds r',
    micro_ga_init fuel true (Some ga) (Some config) w r = Returned (0, Some g, w, r') /\
    engine_wf g inds.
Proof.
  intros Hvalid Hnone Hp Hg Hfuel.
  destruct (micro_ga_init_unfiltered fuel ga config w r Hvalid Hnone ltac:(lia) Hg Hfuel)
    as (g & inds & r' & Hinit & Hready & Hinds & Hps & Hgs & Hfn & Hlen & Hseeded).
  exists g, inds, r'. split; [done|].
  unfold config_invalid in Hvalid. unfold engine_wf. rewrite Hps, Hgs, Hfn.
  split; [done|]. split.
  { destruct (cfg_fitness_fn config); [by eexists|]. exfalso. apply Hvalid. auto. }
  split; [lia|]. split; [lia|]. split; [done|]. split; [done|].
  eapply Forall_impl; [exact Hseeded|]. intros x (? & ? & _). done.
Qed.

(** ** Which calls of [micro_ga_evolve] return *)

Lemma crossover_returns (mother father child : micro_ga_genome_t) (gsize : Z)
    (rate : float) (r : rng) :
  0 < gsize < 2 ^ 32 ->
  exists c r', crossover mother father child gsize rate r = Returned (c, r').
Proof.
  intros Hg. unfold crossover.
  replace (0 <? gsize) with true by (symmetry; apply Z.ltb_lt; lia).
  replace (2 ^ 32 <=? gsize) with false by (symmetry; apply Z.leb_gt; lia).
  cbn [negb]. destruct (crossover_genes _ _ _ _ _ _ _) as [cg r']. by eexists _, _.
Qed.

Lemma breed_returns (gsize : Z) (rate : float) (inds : list micro_ga_genome_t)
    (parents : list nat) (k : nat) :
  0 < gsize < 2 ^ 32 ->
  forall (n nc : nat) (children : list micro_ga_genome_t) (r : rng),
    exists children' r',
      breed k n nc inds parents gsize rate children r = Returned (children', r').
Proof.
  intros Hg. induction k as [|k IH]; intros n nc children r; cbn [breed].
  - by eexists _, _.
  - destruct (crossover_returns (inds !!! (parents !!! n))
                (inds !!! (parents !!! (n + 1)%nat)) (children !!! nc) gsize rate r Hg)
      as (c & r' & ->).
    apply IH.
Qed.

Lemma mutate_children_returns (rate : float) (k : nat) :
  forall (n : nat) (children : list micro_ga_genome_t) (r : rng),
    Forall (fun c => genome_size c < 2 ^ 32) children ->
    (n + k <= length children)%nat ->
    exists children' r', mutate_children k n rate children r = Returned (children', r').
Proof.
  induction k as [|k IH]; intros n children r Hall Hlen; cbn [mutate_children].
  - by eexists _, _.
  - destruct (lookup_lt_is_Some_2 children n ltac:(lia)) as [c Hc].
    rewrite (list_lookup_total_correct _ _ _ Hc).
    assert (Hsize : genome_size c < 2 ^ 32).
    { rewrite Forall_forall in Hall. apply Hall. by eapply list_elem_of_lookup_2. }
    destruct (mutate c rate r) as [[c' r']| | | |] eqn:Em.
    2-5: unfold mutate in Em.
    2-5: replace (2 ^ 32 <=? genome_size c) with false in Em
           by (symmetry; apply Z.leb_gt; lia).
    2-5: by destruct (mutate_genes _ _ _ _ _).
    apply mutate_shape in Em as (Hs & _ & _). apply IH.
    + apply Forall_insert; [done|]. by rewrite Hs.
    + rewrite length_insert. lia.
Qed.

(** More fuel never changes what the selection loop returned. *)
Lemma select_parents_more_fuel (psize replace : Z) (prob : list double) (fuel : nat) :
  forall (fuel' : nat) (n : Z) (pcount : nat) (parents : list nat) (r : rng)
         (res : list nat * nat * rng),
    (fuel <= fuel')%nat ->
    select_parents fuel psize replace n pcount prob parents r = Returned res ->
    select_parents fuel' psize replace n pcount prob parents r = Returned res.
Proof.
  induction fuel as [|fuel IH]; intros fuel' n pcount parents r res Hle;
    cbn [select_parents]; [done|].
  destruct fuel' as [|fuel']; [lia|]. cbn [select_parents].
  destruct (n <? replace); [|done].
  destruct (drand r) as [r1 rg1]. destruct (drand rg1) as [r2 rg2].
  case_decide; apply IH; lia.
Qed.

(** The selection loop returns or is still running: it has no assertion
    and touches no pointer that could be null here. *)
Lemma select_parents_outcome (psize replace : Z) (prob : list double) (fuel : nat) :
  forall (n : Z) (pcount : nat) (parents : list nat) (r : rng),
    select_parents fuel psize replace n pcount prob parents r = OutOfFuel \/
    exists res, select_parents fuel psize replace n pcount prob parents r = Returned res.
Proof.
  induction fuel as [|fuel IH]; intros n pcount parents r; cbn [select_parents];
    [by left|].
  destruct (n <? replace); [|right; by eexists].
  destruct (drand r) as [x rg1]. destruct (drand rg1) as [y rg2].
  case_decide; apply IH.
Qed.

(** On an initialized engine with its scratch arrays allocated,
    [micro_ga_evolve] neither aborts nor faults: it returns, unless the
    selection loop is still drawing parents when the fuel ends. *)
Lemma micro_ga_evolve_progress {W : Type}
    (qsort : forall A : Type, (A -> A -> Z) -> list A -> list A)
    (fuel : nat) (ga : micro_ga_t W) (w : W) (r : rng)
    (inds : list micro_ga_genome_t) :
  engine_wf ga inds ->
  micro_ga_evolve qsort fuel all_allocated ga w r = OutOfFuel \/
  exists st, micro_ga_evolve qsort fuel all_allocated ga w r = Returned st.
Proof.
  intros (Hready & [f Hf] & Hp & Hg & Hi & Hlen & Hshape).
  unfold micro_ga_evolve. rewrite Hready, Hf, Hi. change (1 =? 1) with true.
  cbn [negb all_allocated children_ok prob_ok parents_ok andb orb].
  destruct (evaluate f _ 0 inds w) as [inds1 w1].
  rewrite (u32_small (population_size ga - 1)) by lia.
  rewrite (u32_small (population_size ga * 2)) by lia.
  rewrite (u32_small ((population_size ga - 1) * 2)) by lia.
  rewrite Z.div_mul by lia.
  destruct (select_parents_outcome (population_size ga) (population_size ga - 1)
              (selection_distribution (population_size ga)
                 (sort_individuals qsort (population_size ga) inds1))
              fuel 0 0%nat (replicate (Z.to_nat (population_size ga * 2)) 0%nat) r)
    as [-> | [[[parents pcount] r1] ->]]; [by left|].
  destruct (breed_returns (ga_genome_size ga) (crossover_rate ga)
              (sort_individuals qsort (population_size ga) inds1) parents
              (Z.to_nat (population_size ga - 1)) Hg 0%nat 0%nat
              (replicate (Z.to_nat (population_size ga))
                 (fresh_child (ga_genome_size ga))) r1)
    as (children1 & r2 & Hb).
  rewrite Hb. apply breed_shape in Hb as [Hblen Hbget].
  rewrite length_replicate in Hblen.
  destruct (mutate_children_returns (mutation_rate ga)
              (Z.to_nat (population_size ga - 1)) 0 children1 r2)
    as (children2 & r3 & Hm).
  - apply Forall_lookup_2. intros i c Hc.
    destruct (Hbget i c Hc) as (c0 & Hc0 & _ & Hcase).
    apply lookup_replicate in Hc0 as [-> _].
    case_decide; [lia|]. subst c. cbn. lia.
  - lia.
  - rewrite Hm. right. by eexists.
Qed.

(** ** The selection distribution *)

(** The loop that fills [prob] leaves the entries below [n] alone, stores
    [cumulative + fitness[n]/tfitness] at [n], and from there on adds to the
    entry before. *)
Lemma cumulative_prob_spec (inds : list micro_ga_genome_t) (tfitness : double)
    (k : nat) :
  forall (n : nat) (cumulative : double) (prob : list double),
    (n + k <= length prob)%nat ->
    let prob' := cumulative_prob k n inds tfitness cumulative prob in
    let share i := ddiv (double_of_float (fitness (inds !!! i))) tfitness in
    length prob' = length prob /\
    (forall i, (i < n)%nat -> prob' !! i = prob !! i) /\
    ((0 < k)%nat -> prob' !! n = Some (dadd cumulative (share n))) /\
    (forall i, (n <= i)%nat -> (S i < n + k)%nat ->
       prob' !! S i = Some (dadd (prob' !!! i) (share (S i)))).
Proof.
  induction k as [|k IH]; intros n cumulative prob Hlen; cbn [cumulative_prob]; cbv zeta.
  - split; [done|]. split; [done|]. split; intros; lia.
  - set (c := dadd cumulative (ddiv (double_of_float (fitness (inds !!! n))) tfitness)).
    destruct (IH (S n) c (<[n := c]> prob)) as (Hl & Hlow & Hfirst & Hnext).
    { rewrite length_insert. lia. }
    cbv zeta in Hl, Hlow, Hfirst, Hnext. rewrite length_insert in Hl.
    assert (Hn : cumulative_prob k (S n) inds tfitness c (<[n:=c]> prob) !! n = Some c).
    { rewrite Hlow by lia. apply list_lookup_insert_eq. lia. }
    split; [done|]. split; [|split].
    + intros i Hi. rewrite Hlow by lia. apply list_lookup_insert_ne. lia.
    + intros _. done.
    + intros i Hi Hik. destruct (decide (i = n)) as [->|Hne].
      * rewrite (list_lookup_total_correct _ _ _ Hn). apply Hfirst. lia.
      * apply Hnext; lia.
Qed.

(** The three fitness values are in the order in which sorting leaves them. *)
Example three_fitness_values_sorted :
  sort_individuals insertion_sort 3 three_fitness_values = three_fitness_values.
Proof. vm_compute. reflexivity. Qed.

(** ** One generation *)

Lemma StronglySorted_lookup {A : Type} (R : A -> A -> Prop) (l : list A) :
  StronglySorted R l ->
  forall (i j : nat) (a b : A), l !! i = Some a -> l !! j = Some b -> (i < j)%nat -> R a b.
Proof.
  induction 1 as [|x l Hs IH Hx]; intros i j a b Hi Hj Hij; [done|].
  destruct j as [|j]; [lia|]. cbn in Hj. destruct i as [|i].
  - injection Hi as <-. rewrite Forall_forall in Hx. apply Hx.
    by eapply list_elem_of_lookup_2.
  - cbn in Hi. apply (IH i j); [done..|lia].
Qed.

Section Generation.

Context {W : Type}.

(** The C library's [qsort], by its contract: the array is permuted, and in
    ascending order of a comparison that orders its objects. *)
Variable qsort : forall A : Type, (A -> A -> Z) -> list A -> list A.
Hypothesis qsort_perm :
  forall (A : Type) (cmp : A -> A -> Z) (l : list A), qsort A cmp l ≡ₚ l.
Hypothesis qsort_sorted :
  forall (A : Type) (cmp : A -> A -> Z) (l : list A),
    total_ordering cmp l -> StronglySorted (fun a b => cmp a b <= 0) (qsort A cmp l).

(** The population after a call that returns: as many individuals, each
    with the genome size of the engine in a buffer of that many genes. *)
Lemma evolve_population_shape (fuel : nat) (heap : scratch) (ga : micro_ga_t W) (w : W)
    (r : rng) (f : fitness_fn_t W) (inds : list micro_ga_genome_t) (st : run W) :
  engine_wf ga inds -> fitness_fn ga = Some f -> assigns_fitness_only f ->
  micro_ga_evolve qsort fuel heap ga w r = Returned st ->
  exists inds' : list micro_ga_genome_t,
    engine st = set_individuals ga (Some inds') /\
    length inds' = length inds /\
    Forall (fun g => genome_size g = ga_genome_size ga /\
                     Z.of_nat (length (genes g)) = ga_genome_size ga) inds'.
Proof.
  intros (Hready & _ & Hp & Hg & Hi & Hlen & Hshape) Hf Hfit Hev.
  destruct (micro_ga_evolve_returned qsort fuel heap ga w r f inds st Hf Hi Hlen Hp Hev)
    as (parents & pc & r1 & ch1 & r2 & ch2 & _ & Hb & Hm & He & _).
  set (gsize := ga_genome_size ga) in *.
  set (shape := fun g => genome_size g = gsize /\ Z.of_nat (length (genes g)) = gsize).
  assert (Hsorted : Forall shape (qsort _ genome_compare (eval_list f inds w).1)).
  { rewrite qsort_perm. apply eval_list_shape; [|done].
    intros w' g [Hs Hl]. destruct (Hfit w' g) as [Hs' Hg']. unfold shape.
    rewrite Hs', Hg'. done. }
  assert (Hslen : length (qsort _ genome_compare (eval_list f inds w).1) = length inds).
  { rewrite qsort_perm. apply eval_list_length. }
  set (sorted := qsort _ genome_compare (eval_list f inds w).1) in *.
  apply breed_shape in Hb as [Hblen Hbget]. rewrite length_replicate in Hblen.
  apply mutate_children_shape in Hm as [Hmlen Hmget].
  eexists. split; [exact He|]. split.
  { rewrite replace_individuals_length. done. }
  apply Forall_lookup_2. intros i g' Hg'.
  rewrite replace_individuals_lookup in Hg'.
  assert (Hilt : (i < length sorted)%nat).
  { destruct (sorted !! i) eqn:E; [by eapply lookup_lt_Some|].
    by destruct (decide _). }
  destruct (lookup_lt_is_Some_2 sorted i Hilt) as [old Hold].
  rewrite Forall_forall in Hsorted. destruct (Hsorted old) as [Hos Hol].
  { by eapply list_elem_of_lookup_2. }
  rewrite Hold in Hg'. case_decide as Hrange.
  - cbn [fmap option_fmap option_map] in Hg'. injection Hg' as <-.
    destruct (lookup_lt_is_Some_2 ch2 i ltac:(lia)) as [c2 Hc2].
    rewrite (list_lookup_total_correct _ _ _ Hc2).
    destruct (Hmget i c2 Hc2) as (c1 & Hc1 & Hs1 & Hl1 & _).
    destruct (Hbget i c1 Hc1) as (c0 & Hc0 & Hl0 & Hcase).
    rewrite decide_True in Hcase by lia.
    apply lookup_replicate in Hc0 as [-> _]. cbn [fresh_child genes] in Hl0.
    rewrite length_replicate in Hl0.
    assert (Hc2s : genome_size c2 = gsize) by congruence.
    assert (Hc2l : length (genes c2) = Z.to_nat gsize) by congruence.
    unfold replace_individual. cbn [genome_size genes]. rewrite Hc2s.
    split; [done|]. cbn [genes].
    rewrite length_app, length_take, length_drop. lia.
  - injection Hg' as <-. done.
Qed.

(** One generation leaves an initialized engine initialized. *)
Lemma evolve_preserves_wf (fuel : nat) (heap : scratch) (ga : micro_ga_t W) (w : W)
    (r : rng) (f : fitness_fn_t W) (inds : list micro_ga_genome_t) (st : run W) :
  engine_wf ga inds -> fitness_fn ga = Some f -> assigns_fitness_only f ->
  micro_ga_evolve qsort fuel heap ga w r = Returned st ->
  exists inds' : list micro_ga_genome_t, engine_wf (engine st) inds'.
Proof.
  intros Hwf Hf Hfit Hev.
  destruct (evolve_population_shape fuel heap ga w r f inds st Hwf Hf Hfit Hev)
    as (inds' & -> & Hlen & Hall).
  destruct Hwf as (Hready & Hsome & Hp & Hg & Hi & Hl & _).
  exists inds'. unfold engine_wf.
  cbn [set_individuals ready fitness_fn population_size ga_genome_size individuals].
  split; [done|]. split; [done|]. split; [done|]. split; [done|].
  split; [done|]. split; [lia|done].
Qed.

(** C9. Size invariant: when a call of [micro_ga_evolve] on an initialized
    engine returns, the population size is what it was, the population has
    as many individuals, and the genome in every slot has the genome size and
    the number of genes of the genome that was there before. *)
Theorem evolve_keeps_sizes (fuel : nat) (heap : scratch) (ga : micro_ga_t W) (w : W)
    (r : rng) (f : fitness_fn_t W) (inds : list micro_ga_genome_t) (st : run W) :
  engine_wf ga inds -> fitness_fn ga = Some f -> assigns_fitness_only f ->
  micro_ga_evolve qsort fuel heap ga w r = Returned st ->
  population_size (engine st) = population_size ga /\
  exists inds' : list micro_ga_genome_t,
    individuals (engine st) = Some inds' /\
    length inds' = length inds /\
    forall (i : nat) (g g' : micro_ga_genome_t),
      inds !! i = Some g -> inds' !! i = Some g' ->
      genome_size g' = genome_size g /\ length (genes g') = length (genes g).
Proof.
  intros Hwf Hf Hfit Hev.
  destruct (evolve_population_shape fuel heap ga w r f inds st Hwf Hf Hfit Hev)
    as (inds' & -> & Hlen & Hall).
  destruct Hwf as (_ & _ & _ & _ & _ & _ & Hshape).
  cbn [set_individuals population_size individuals]. split; [done|].
  exists inds'. split; [done|]. split; [done|].
  intros i g g' Hg Hg'. rewrite Forall_forall in Hshape, Hall.
  destruct (Hshape g) as [Hs Hl]; [by eapply list_elem_of_lookup_2|].
  destruct (Hall g') as [Hs' Hl']; [by eapply list_elem_of_lookup_2|].
  split; [congruence|lia].
Qed.

(** Whatever the fitness values and the threshold, every slot below the
    last one is overwritten with a child marked unevaluated. *)
Lemma evolve_replaces_all_but_last (fuel : nat) (heap : scratch) (ga : micro_ga_t W)
    (w : W) (r : rng) (f : fitness_fn_t W) (inds : list micro_ga_genome_t)
    (st : run W) :
  engine_wf ga inds -> fitness_fn ga = Some f ->
  micro_ga_evolve qsort fuel heap ga w r = Returned st ->
  exists inds' : list micro_ga_genome_t,
    individuals (engine st) = Some inds' /\
    forall (i : nat) (g : micro_ga_genome_t),
      (i < Z.to_nat (population_size ga - 1))%nat -> inds' !! i = Some g ->
      fitness g = f_minus_one.
Proof.
  intros (Hready & _ & Hp & Hg & Hi & Hlen & Hshape) Hf Hev.
  destruct (micro_ga_evolve_returned qsort fuel heap ga w r f inds st Hf Hi Hlen Hp Hev)
    as (parents & pc & r1 & ch1 & r2 & ch2 & _ & _ & _ & He & _).
  rewrite He. cbn [set_individuals individuals]. eexists. split; [reflexivity|].
  intros i g Hlt. rewrite replace_individuals_lookup, decide_True by lia.
  destruct (_ !! i); [|done]. cbn. by intros [= <-].
Qed.

(** C1. Elitism: on an initialized engine whose population has been
    evaluated, with numbers for fitness values, the last slot after
    [micro_ga_evolve] holds a genome of the population before the call, as it
    was (genes and fitness), and no genome of that population had a higher
    fitness; a genome that alone held the maximum is the one kept. *)
Theorem evolve_elitism (fuel : nat) (heap : scratch) (ga : micro_ga_t W) (w : W)
    (r : rng) (f : fitness_fn_t W) (inds : list micro_ga_genome_t) (st : run W) :
  engine_wf ga inds -> fitness_fn ga = Some f -> evaluated f inds ->
  Forall (fun g => is_nan (fitness g) = false) inds ->
  micro_ga_evolve qsort fuel heap ga w r = Returned st ->
  exists (inds' : list micro_ga_genome_t) (elite : micro_ga_genome_t),
    individuals (engine st) = Some inds' /\
    inds' !! Z.to_nat (population_size ga - 1) = Some elite /\
    elite ∈ inds /\
    (forall g, g ∈ inds -> fle (fitness g) (fitness elite) = true) /\
    (forall g, g ∈ inds ->
       (forall h, h ∈ inds -> h <> g -> flt (fitness h) (fitness g) = true) ->
       elite = g).
Proof.
  intros (Hready & _ & Hp & Hg & Hi & Hlen & Hshape) Hf Heval Hnan Hev.
  destruct (micro_ga_evolve_returned qsort fuel heap ga w r f inds st Hf Hi Hlen Hp Hev)
    as (parents & pc & r1 & ch1 & r2 & ch2 & _ & _ & _ & He & _).
  rewrite (eval_list_evaluated f inds w Heval) in He.
  set (sorted := qsort _ genome_compare inds) in *.
  assert (Hperm : sorted ≡ₚ inds) by apply qsort_perm.
  assert (Hss : StronglySorted (fun a b => genome_compare a b <= 0) sorted)
    by (apply qsort_sorted; by apply genome_compare_total_ordering).
  assert (Hslen : length sorted = length inds) by (by rewrite Hperm).
  set (last := Z.to_nat (population_size ga - 1)) in *.
  destruct (lookup_lt_is_Some_2 sorted last ltac:(lia)) as [elite Helite].
  assert (Hin : elite ∈ inds).
  { rewrite <- Hperm. by eapply list_elem_of_lookup_2. }
  rewrite Forall_forall in Hnan.
  assert (Hmax : forall g, g ∈ inds -> fle (fitness g) (fitness elite) = true).
  { intros g Hgin. apply genome_compare_le; [auto..|].
    rewrite <- Hperm in Hgin. apply list_elem_of_lookup_1 in Hgin as [j Hj].
    assert (j < last \/ j = last)%nat as [Hlt| ->]
      by (apply lookup_lt_Some in Hj; lia).
    - by apply (StronglySorted_lookup _ _ Hss j last).
    - assert (g = elite) as -> by congruence.
      destruct (genome_compare_total_ordering inds) as [Hanti _].
      { by apply Forall_forall. }
      specialize (Hanti elite elite Hin Hin). lia. }
  exists (replace_individuals last 0 ch2 sorted), elite.
  rewrite He. cbn [set_individuals individuals]. split; [done|].
  split. { rewrite replace_individuals_lookup, decide_False by lia. done. }
  split; [done|]. split; [done|].
  intros g Hgin Hstrict. destruct (decide (elite = g)) as [|Hne]; [done|].
  pose proof (flt_not_fle _ _ (Hstrict elite Hin Hne)) as Hcontra.
  rewrite (Hmax g Hgin) in Hcontra. done.
Qed.

End Generation.

(** C10. Each call of [micro_ga_evolve] that returns has called the
    objective function once on every slot of the population, the elite of
    the previous generation included, in the order of the slots as they were
    before sorting: an objective function that records its arguments has
    added the population, and nothing else, to its record. *)
Theorem evolve_evaluates_every_slot_once
    (qsort : forall A : Type, (A -> A -> Z) -> list A -> list A)
    (fuel : nat) (heap : scratch) (ga : micro_ga_t (list micro_ga_genome_t))
    (log : list micro_ga_genome_t) (r : rng)
    (f : micro_ga_genome_t -> micro_ga_genome_t)
    (inds : list micro_ga_genome_t) (st : run (list micro_ga_genome_t)) :
  fitness_fn ga = Some (logged f) -> individuals ga = Some inds ->
  Z.of_nat (length inds) = population_size ga ->
  0 < population_size ga < 2 ^ 31 ->
  micro_ga_evolve qsort fuel heap ga log r = Returned st ->
  world st = log ++ inds.
Proof.
  intros Hf Hi Hlen Hp Hev.
  destruct (micro_ga_evolve_returned qsort fuel heap ga log r _ inds st Hf Hi Hlen Hp Hev)
    as (_ & _ & _ & _ & _ & _ & _ & _ & _ & _ & Hw).
  rewrite Hw, eval_list_world. clear. revert log.
  induction inds as [|g inds IH]; intros log; cbn [foldl].
  - by rewrite app_nil_r.
  - rewrite IH. cbn [logged fst]. by rewrite <- app_assoc.
Qed.

(** C3. The fitness threshold is inert: two engines that differ in
    [fitness_thresh] only, run on the same results of [rand()], end
    [micro_ga_evolve] in the same way, with the same population (genes and
    fitness in every slot), the same caller's world and the same output. *)
Theorem fitness_thresh_inert {W : Type}
    (qsort : forall A : Type, (A -> A -> Z) -> list A -> list A)
    (fuel : nat) (heap : scratch) (ga : micro_ga_t W) (t : float) (w : W) (r : rng) :
  observe (micro_ga_evolve qsort fuel heap (set_fitness_thresh ga t) w r)
  = observe (micro_ga_evolve qsort fuel heap ga w r).
Proof.
  unfold micro_ga_evolve.
  cbn [set_fitness_thresh ready fitness_fn individuals population_size ga_genome_size
       crossover_rate mutation_rate].
  repeat (case_match; try reflexivity).
Qed.

(** ** The sample engine *)

Lemma sample_run_returned :
  micro_ga_evolve insertion_sort 100 all_allocated sample_engine 0%nat lcg_rng
  = Returned sample_run.
Proof.
  assert (Hret : is_returned
            (micro_ga_evolve insertion_sort 100 all_allocated sample_engine 0%nat lcg_rng)
          = true) by (vm_compute; reflexivity).
  unfold sample_run.
  destruct (micro_ga_evolve insertion_sort 100 all_allocated sample_engine 0%nat lcg_rng);
    [reflexivity|discriminate..].
Qed.

Lemma recording_run_returned :
  micro_ga_evolve insertion_sort 100 all_allocated recording_engine [] lcg_rng
  = Returned recording_run.
Proof.
  assert (Hret : is_returned
            (micro_ga_evolve insertion_sort 100 all_allocated recording_engine [] lcg_rng)
          = true) by (vm_compute; reflexivity).
  unfold recording_run.
  destruct (micro_ga_evolve insertion_sort 100 all_allocated recording_engine [] lcg_rng);
    [reflexivity|discriminate..].
Qed.

Lemma sample_engine_wf : engine_wf sample_engine sample_population.
Proof.
  unfold engine_wf. cbn [sample_engine ready fitness_fn population_size ga_genome_size
                         individuals].
  split; [done|]. split; [by eexists|]. split; [lia|]. split; [lia|].
  split; [done|]. split; [done|].
  repeat constructor.
Qed.

Lemma sample_population_evaluated : evaluated sum_fitness sample_population.
Proof.
  intros w g Hg. unfold sample_population in Hg.
  repeat (apply elem_of_cons in Hg as [->|Hg]); [vm_compute; reflexivity..|].
  by apply elem_of_nil in Hg.
Qed.

Lemma sum_fitness_assigns_fitness_only : assigns_fitness_only sum_fitness.
Proof. intros w g. split; reflexivity. Qed.

(** C1, the witness: one generation of the sample engine. *)
Lemma evolve_elitism_witness :
  exists (inds' : list micro_ga_genome_t) (elite : micro_ga_genome_t),
    individuals (engine sample_run) = Some inds' /\
    inds' !! Z.to_nat (population_size sample_engine - 1) = Some elite /\
    elite ∈ sample_population /\
    (forall g, g ∈ sample_population -> fle (fitness g) (fitness elite) = true) /\
    (forall g, g ∈ sample_population ->
       (forall h, h ∈ sample_population -> h <> g -> flt (fitness h) (fitness g) = true) ->
       elite = g).
Proof.
  apply (evolve_elitism insertion_sort insertion_sort_perm insertion_sort_sorted
           100 all_allocated sample_engine 0%nat lcg_rng sum_fitness sample_population
           sample_run).
  - exact sample_engine_wf.
  - reflexivity.
  - exact sample_population_evaluated.
  - repeat constructor.
  - exact sample_run_returned.
Defined.

(** C9, the witness: one generation of the sample engine. *)
Lemma evolve_keeps_sizes_witness :
  population_size (engine sample_run) = population_size sample_engine /\
  exists inds' : list micro_ga_genome_t,
    individuals (engine sample_run) = Some inds' /\
    length inds' = length sample_population /\
    forall (i : nat) (g g' : micro_ga_genome_t),
      sample_population !! i = Some g -> inds' !! i = Some g' ->
      genome_size g' = genome_size g /\ length (genes g') = length (genes g).
Proof.
  apply (evolve_keeps_sizes insertion_sort insertion_sort_perm
           100 all_allocated sample_engine 0%nat lcg_rng sum_fitness sample_population
           sample_run).
  - exact sample_engine_wf.
  - reflexivity.
  - exact sum_fitness_assigns_fitness_only.
  - exact sample_run_returned.
Defined.

(** C10, the witness: one generation of the recording engine. *)
Lemma evolve_evaluates_every_slot_once_witness :
  world recording_run = [] ++ sample_population.
Proof.
  apply (evolve_evaluates_every_slot_once insertion_sort 100 all_allocated
           recording_engine [] lcg_rng sum_of_genes sample_population recording_run).
  - reflexivity.
  - reflexivity.
  - reflexivity.
  - cbn. lia.
  - exact recording_run_returned.
Defined.

(** The scenario of one generation with population size 4, genome length 2,
    mutation rate 0, crossover rate 0 and [f(g) = g[0] + g[1]]: the last
    slot holds the genome that had the highest fitness, and the three other
    slots hold children of two genes that are not evaluated. *)
Example one_generation_scenario :
  (fun inds => (length inds =? 4)%nat && forallb replaced_child (take 3 inds) &&
               bool_decide (inds !! 3%nat = Some (sample_genome 1073741824 1073741824)))
    <$> individuals (engine sample_run) = Some true.
Proof. vm_compute. reflexivity. Qed.

(** ** The distribution that [micro_ga_evolve] selects from *)

(** The recurrence of the loop that fills [prob]. *)
Lemma selection_distribution_step (psize : Z) (inds : list micro_ga_genome_t) (i : nat) :
  (i < Z.to_nat psize)%nat ->
  selection_distribution psize inds !! i
  = Some (dadd (match i with
                | O => d_zero
                | S j => selection_distribution psize inds !!! j
                end)
            (ddiv (double_of_float (fitness (inds !!! i)))
               (total_fitness (Z.to_nat psize) 0 inds d_zero))).
Proof.
  intros Hi. unfold selection_distribution.
  set (t := total_fitness (Z.to_nat psize) 0 inds d_zero).
  destruct (cumulative_prob_spec inds t (Z.to_nat psize) 0 d_zero
              (replicate (Z.to_nat psize) (S754_zero false)))
    as (_ & _ & Hfirst & Hnext).
  { rewrite length_replicate. lia. }
  cbv zeta in Hfirst, Hnext. destruct i as [|j].
  - apply Hfirst. lia.
  - apply Hnext; lia.
Qed.

(** A generation that returns, step by step: the population is scored and
    sorted in ascending order of fitness, [prob] is filled from the sorted
    array, the parents are drawn with [prob], and the children bred from them
    replace all individuals but the last. *)
Lemma evolve_distribution {W : Type}
    (qsort : forall A : Type, (A -> A -> Z) -> list A -> list A)
    (qsort_perm :
       forall (A : Type) (cmp : A -> A -> Z) (l : list A), qsort A cmp l ≡ₚ l)
    (qsort_sorted :
       forall (A : Type) (cmp : A -> A -> Z) (l : list A),
         total_ordering cmp l -> StronglySorted (fun a b => cmp a b <= 0) (qsort A cmp l))
    (fuel : nat) (heap : scratch) (ga : micro_ga_t W) (w : W) (r : rng)
    (f : fitness_fn_t W) (inds : list micro_ga_genome_t) (st : run W) :
  engine_wf ga inds -> fitness_fn ga = Some f ->
  Forall (fun g => is_nan (fitness g) = false) (eval_list f inds w).1 ->
  micro_ga_evolve qsort fuel heap ga w r = Returned st ->
  let psize := population_size ga in
  let sorted := sort_individuals qsort psize (eval_list f inds w).1 in
  let prob := selection_distribution psize sorted in
  sorted ≡ₚ (eval_list f inds w).1 /\
  (forall (i j : nat) (a b : micro_ga_genome_t),
     (i < j)%nat -> sorted !! i = Some a -> sorted !! j = Some b ->
     fle (fitness a) (fitness b) = true) /\
  length prob = Z.to_nat psize /\
  (forall i : nat, (i < Z.to_nat psize)%nat ->
     prob !! i
     = Some (dadd (match i with O => d_zero | S j => prob !!! j end)
               (ddiv (double_of_float (fitness (sorted !!! i)))
                  (total_fitness (Z.to_nat psize) 0 sorted d_zero)))) /\
  exists (parents : list nat) (pcount : nat) (r1 : rng)
         (children1 : list micro_ga_genome_t) (r2 : rng)
         (children2 : list micro_ga_genome_t),
    select_parents fuel psize (psize - 1) 0 0 prob
      (replicate (Z.to_nat (psize * 2)) 0%nat) r = Returned (parents, pcount, r1) /\
    breed (Z.to_nat (psize - 1)) 0 0 sorted parents (ga_genome_size ga)
      (crossover_rate ga) (replicate (Z.to_nat psize) (fresh_child (ga_genome_size ga))) r1
      = Returned (children1, r2) /\
    mutate_children (Z.to_nat (psize - 1)) 0 (mutation_rate ga) children1 r2
      = Returned (children2, random st) /\
    engine st
      = set_individuals ga
          (Some (replace_individuals (Z.to_nat (psize - 1)) 0 children2 sorted)).
Proof.
  intros (Hready & _ & Hp & Hg & Hi & Hlen & Hshape) Hf Hnan Hev. cbv zeta.
  destruct (micro_ga_evolve_returned qsort fuel heap ga w r f inds st Hf Hi Hlen Hp Hev)
    as (parents & pc & r1 & ch1 & r2 & ch2 & Hsel & Hb & Hm & He & _).
  pose proof (eval_list_length f inds w) as Hel.
  unfold sort_individuals. rewrite take_ge, drop_ge, app_nil_r by lia.
  set (scored := (eval_list f inds w).1) in *.
  set (sorted := qsort _ genome_compare scored) in *.
  assert (Hperm : sorted ≡ₚ scored) by apply qsort_perm.
  assert (Hss : StronglySorted (fun a b => genome_compare a b <= 0) sorted)
    by (apply qsort_sorted; by apply genome_compare_total_ordering).
  assert (Hnan' : forall g, g ∈ sorted -> is_nan (fitness g) = false).
  { intros g Hgin. rewrite Hperm in Hgin. rewrite Forall_forall in Hnan. auto. }
  split; [done|]. split.
  { intros i j a b Hij Hia Hjb. apply genome_compare_le.
    - apply Hnan'. by eapply list_elem_of_lookup_2.
    - apply Hnan'. by eapply list_elem_of_lookup_2.
    - by apply (StronglySorted_lookup _ _ Hss i j). }
  split.
  { unfold selection_distribution.
    destruct (cumulative_prob_spec sorted
                (total_fitness (Z.to_nat (population_size ga)) 0 sorted d_zero)
                (Z.to_nat (population_size ga)) 0 d_zero
                (replicate (Z.to_nat (population_size ga)) (S754_zero false)))
      as (Hl & _); [rewrite length_replicate; lia|].
    cbv zeta in Hl. by rewrite Hl, length_replicate. }
  split; [intros i Hilt; by apply selection_distribution_step|].
  by exists parents, pc, r1, ch1, r2, ch2.
Qed.

Lemma tenths_run_returned :
  micro_ga_evolve insertion_sort 100 all_allocated tenths_engine 0%nat lcg_rng
  = Returned tenths_run.
Proof.
  assert (Hret : is_returned
            (micro_ga_evolve insertion_sort 100 all_allocated tenths_engine 0%nat lcg_rng)
          = true) by (vm_compute; reflexivity).
  unfold tenths_run.
  destruct (micro_ga_evolve insertion_sort 100 all_allocated tenths_engine 0%nat lcg_rng);
    [reflexivity|discriminate..].
Qed.

Lemma tenths_engine_wf : engine_wf tenths_engine tenths_population.
Proof.
  unfold engine_wf. cbn [tenths_engine ready fitness_fn population_size ga_genome_size
                         individuals].
  split; [done|]. split; [by eexists|]. split; [lia|]. split; [lia|].
  split; [done|]. split; [done|].
  repeat constructor.
Qed.

Lemma tenths_scores_are_numbers :
  Forall (fun g => is_nan (fitness g) = false)
    (eval_list gene_fitness tenths_population 0%nat).1.
Proof. vm_compute. repeat constructor. Qed.

(** C7. The cumulative selection distribution.  In a call of
    [micro_ga_evolve] that returns, the population, scored, is sorted in
    ascending order of fitness; [prob] is filled from the sorted array,
    [prob[i]] being [prob[i-1] + fitness[i]/totalFitness] with [0] in the
    place of [prob[-1]]; and the parents of the children that the call leaves
    in the engine are drawn with this [prob].  In particular, for an engine
    whose three individuals are scored 0.9, 0.1 and 0.5, the call sorts them
    to 0.1, 0.5, 0.9, the total is 1.5, and the cumulative probabilities it
    selects with are 0.0667, 0.4000 and 1.0000, each within 1e-4. *)
Theorem selection_distribution_cumulative :
  (forall (W : Type) (qsort : forall A : Type, (A -> A -> Z) -> list A -> list A),
     (forall (A : Type) (cmp : A -> A -> Z) (l : list A), qsort A cmp l ≡ₚ l) ->
     (forall (A : Type) (cmp : A -> A -> Z) (l : list A),
        total_ordering cmp l ->
        StronglySorted (fun a b => cmp a b <= 0) (qsort A cmp l)) ->
     forall (fuel : nat) (heap : scratch) (ga : micro_ga_t W) (w : W) (r : rng)
            (f : fitness_fn_t W) (inds : list micro_ga_genome_t) (st : run W),
       engine_wf ga inds -> fitness_fn ga = Some f ->
       Forall (fun g => is_nan (fitness g) = false) (eval_list f inds w).1 ->
       micro_ga_evolve qsort fuel heap ga w r = Returned st ->
       let psize := population_size ga in
       let sorted := sort_individuals qsort psize (eval_list f inds w).1 in
       let prob := selection_distribution psize sorted in
       sorted ≡ₚ (eval_list f inds w).1 /\
       (forall (i j : nat) (a b : micro_ga_genome_t),
          (i < j)%nat -> sorted !! i = Some a -> sorted !! j = Some b ->
          fle (fitness a) (fitness b) = true) /\
       length prob = Z.to_nat psize /\
       (forall i : nat, (i < Z.to_nat psize)%nat ->
          prob !! i
          = Some (dadd (match i with O => d_zero | S j => prob !!! j end)
                    (ddiv (double_of_float (fitness (sorted !!! i)))
                       (total_fitness (Z.to_nat psize) 0 sorted d_zero)))) /\
       exists (parents : list nat) (pcount : nat) (r1 : rng)
              (children1 : list micro_ga_genome_t) (r2 : rng)
              (children2 : list micro_ga_genome_t),
         select_parents fuel psize (psize - 1) 0 0 prob
           (replicate (Z.to_nat (psize * 2)) 0%nat) r = Returned (parents, pcount, r1) /\
         breed (Z.to_nat (psize - 1)) 0 0 sorted parents (ga_genome_size ga)
           (crossover_rate ga)
           (replicate (Z.to_nat psize) (fresh_child (ga_genome_size ga))) r1
           = Returned (children1, r2) /\
         mutate_children (Z.to_nat (psize - 1)) 0 (mutation_rate ga) children1 r2
           = Returned (children2, random st) /\
         engine st
           = set_individuals ga
               (Some (replace_individuals (Z.to_nat (psize - 1)) 0 children2 sorted))) /\
  (exists (parents : list nat) (pcount : nat) (r1 : rng)
          (children1 : list micro_ga_genome_t) (r2 : rng)
          (children2 : list micro_ga_genome_t),
     micro_ga_evolve insertion_sort 100 all_allocated tenths_engine 0%nat lcg_rng
       = Returned tenths_run /\
     fitness <$> (eval_list gene_fitness tenths_population 0%nat).1
       = [f_nine_tenths; f_tenth; f_half] /\
     fitness <$> tenths_sorted = [f_tenth; f_half; f_nine_tenths] /\
     within_1e4 (total_fitness 3 0 tenths_sorted d_zero) 15000 = true /\
     Forall2 (fun p t => within_1e4 p t = true)
       (selection_distribution 3 tenths_sorted) [667; 4000; 10000] /\
     select_parents 100 3 (3 - 1) 0 0 (selection_distribution 3 tenths_sorted)
       (replicate (Z.to_nat (3 * 2)) 0%nat) lcg_rng = Returned (parents, pcount, r1) /\
     breed (Z.to_nat (3 - 1)) 0 0 tenths_sorted parents 1 f_zero
       (replicate (Z.to_nat 3) (fresh_child 1)) r1 = Returned (children1, r2) /\
     mutate_children (Z.to_nat (3 - 1)) 0 f_zero children1 r2
       = Returned (children2, random tenths_run) /\
     engine tenths_run
       = set_individuals tenths_engine
           (Some (replace_individuals (Z.to_nat (3 - 1)) 0 children2 tenths_sorted))) /\
  (forall (psize : Z) (inds : list micro_ga_genome_t) (i : nat),
     (i < Z.to_nat psize)%nat ->
     selection_distribution psize inds !! i
     = Some (dadd (match i with
                   | O => d_zero
                   | S j => selection_distribution psize inds !!! j
                   end)
               (ddiv (double_of_float (fitness (inds !!! i)))
                  (total_fitness (Z.to_nat psize) 0 inds d_zero)))) /\
  within_1e4 (total_fitness 3 0 three_fitness_values d_zero) 15000 = true /\
  Forall2 (fun p t => within_1e4 p t = true)
    (selection_distribution 3 three_fitness_values) [667; 4000; 10000].
Proof.
  split; [|split; [|split; [|split]]].
  - intros W qsort Hperm Hsorted fuel heap ga w r f inds st Hwf Hf Hnan Hev.
    exact (evolve_distribution qsort Hperm Hsorted fuel heap ga w r f inds st
             Hwf Hf Hnan Hev).
  - destruct (evolve_distribution insertion_sort insertion_sort_perm insertion_sort_sorted
                100 all_allocated tenths_engine 0%nat lcg_rng gene_fitness
                tenths_population tenths_run tenths_engine_wf eq_refl
                tenths_scores_are_numbers tenths_run_returned)
      as (_ & _ & _ & _ & parents & pc & r1 & ch1 & r2 & ch2 & Hsel & Hb & Hm & He).
    exists parents, pc, r1, ch1, r2, ch2.
    split; [exact tenths_run_returned|].
    split; [vm_compute; reflexivity|]. split; [vm_compute; reflexivity|].
    split; [vm_compute; reflexivity|]. split; [vm_compute; repeat constructor|].
    split; [exact Hsel|]. split; [exact Hb|]. split; [exact Hm|exact He].
  - intros psize inds i Hi. by apply selection_distribution_step.
  - vm_compute. reflexivity.
  - vm_compute. repeat constructor.
Qed.

(** C7, the witness: the generation of the engine with the scores 0.9,
    0.1 and 0.5. *)
Lemma selection_distribution_cumulative_witness :
  tenths_sorted ≡ₚ (eval_list gene_fitness tenths_population 0%nat).1 /\
  (forall (i j : nat) (a b : micro_ga_genome_t),
     (i < j)%nat -> tenths_sorted !! i = Some a -> tenths_sorted !! j = Some b ->
     fle (fitness a) (fitness b) = true) /\
  length (selection_distribution 3 tenths_sorted) = Z.to_nat 3 /\
  (forall i : nat, (i < Z.to_nat 3)%nat ->
     selection_distribution 3 tenths_sorted !! i
     = Some (dadd (match i with
                   | O => d_zero
                   | S j => selection_distribution 3 tenths_sorted !!! j
                   end)
               (ddiv (double_of_float (fitness (tenths_sorted !!! i)))
                  (total_fitness (Z.to_nat 3) 0 tenths_sorted d_zero)))) /\
  exists (parents : list nat) (pcount : nat) (r1 : rng)
         (children1 : list micro_ga_genome_t) (r2 : rng)
         (children2 : list micro_ga_genome_t),
    select_parents 100 3 (3 - 1) 0 0 (selection_distribution 3 tenths_sorted)
      (replicate (Z.to_nat (3 * 2)) 0%nat) lcg_rng = Returned (parents, pcount, r1) /\
    breed (Z.to_nat (3 - 1)) 0 0 tenths_sorted parents 1 f_zero
      (replicate (Z.to_nat 3) (fresh_child 1)) r1 = Returned (children1, r2) /\
    mutate_children (Z.to_nat (3 - 1)) 0 f_zero children1 r2
      = Returned (children2, random tenths_run) /\
    engine tenths_run
      = set_individuals tenths_engine
          (Some (replace_individuals (Z.to_nat (3 - 1)) 0 children2 tenths_sorted)).
Proof.
  apply (proj1 selection_distribution_cumulative nat insertion_sort insertion_sort_perm
           insertion_sort_sorted 100%nat all_allocated tenths_engine 0%nat lcg_rng
           gene_fitness tenths_population tenths_run).
  - exact tenths_engine_wf.
  - reflexivity.
  - exact tenths_scores_are_numbers.
  - exact tenths_run_returned.
Defined.

(** * Further properties of the engine *)

(** ** The draws in single precision *)

Lemma fexp_float (x : Z) : -125 <= x -> fexp 24 128 x = x - 24.
Proof. intros Hx. unfold fexp, emin. lia. Qed.

Lemma binary_round_aux_float_exact (s : bool) (m : positive) (e : Z) :
  Z.pos (digits2_pos m) = 24 -> -149 <= e <= 104 ->
  binary_round_aux 24 128 s (Z.pos m) e loc_Exact = S754_finite s m e.
Proof.
  intros Hd He.
  assert (Hshr : shr_fexp 24 128 (Z.pos m) e loc_Exact
                 = ({| shr_m := Z.pos m; shr_r := false; shr_s := false |}, e)).
  { unfold shr_fexp. cbn [Zdigits2]. rewrite Hd, fexp_float by lia.
    replace (24 + e - 24 - e) with 0 by lia. reflexivity. }
  unfold binary_round_aux. rewrite Hshr. cbn [shr_m loc_of_shr_record round_nearest_even].
  rewrite Hshr. cbn [shr_m].
  replace (e <=? 128 - 24) with true by (symmetry; apply Z.leb_le; lia).
  reflexivity.
Qed.

(** Rounding to 24 digits a mantissa that has more of them. *)
Lemma binary_round_aux_float_long (m : positive) (e n : Z) :
  Z.pos (digits2_pos m) = 24 + n -> 0 < n -> -100 <= e <= 50 -> n <= 40 ->
  exists (M : positive) (E : Z),
    binary_round_aux 24 128 false (Z.pos m) e loc_Exact = S754_finite false M E /\
    Z.pos (digits2_pos M) = 24 /\
    (E = e + n \/ (E = e + n + 1 /\ M = 8388608%positive)).
Proof.
  intros Hd Hn He Hn'.
  pose proof (digits2_pos_lower m) as Hlo. pose proof (digits2_pos_upper m) as Hhi.
  rewrite Hd in Hlo, Hhi.
  replace (24 + n - 1) with (23 + n) in Hlo by lia.
  rewrite Z.pow_add_r in Hlo, Hhi by lia.
  change (2 ^ 23) with 8388608 in Hlo. change (2 ^ 24) with 16777216 in Hhi.
  assert (Hpow : 0 < 2 ^ n) by (apply Z.pow_pos_nonneg; lia).
  unfold binary_round_aux.
  destruct n as [|np|np]; try lia.
  set (mrs := SpecFloat.iter_pos shr_1 np
                {| shr_m := Z.pos m; shr_r := false; shr_s := false |}).
  assert (Hshr : shr_fexp 24 128 (Z.pos m) e loc_Exact = (mrs, e + Z.pos np)).
  { unfold shr_fexp. cbn [Zdigits2]. rewrite Hd, fexp_float by lia.
    replace (24 + Z.pos np + e - 24 - e) with (Z.pos np) by lia. reflexivity. }
  rewrite Hshr.
  assert (Hq : shr_m mrs = Z.pos m / 2 ^ Z.pos np)
    by (unfold mrs; rewrite iter_shr_1_div; [reflexivity | cbn [shr_m]; lia]).
  assert (Hqb : 8388608 <= shr_m mrs < 16777216).
  { rewrite Hq. split.
    - apply Z.div_le_lower_bound; lia.
    - apply Z.div_lt_upper_bound; lia. }
  destruct (round_nearest_even_cases (shr_m mrs) (loc_of_shr_record mrs)) as [Hr|Hr];
    rewrite Hr; clear Hr.
  - destruct (shr_m mrs) as [|q|q] eqn:Eq; try lia.
    assert (Hdq : Z.pos (digits2_pos q) = 24) by (apply digits2_pos_unique; lia).
    exists q, (e + Z.pos np).
    assert (Hshr' : shr_fexp 24 128 (Z.pos q) (e + Z.pos np) loc_Exact
              = ({| shr_m := Z.pos q; shr_r := false; shr_s := false |}, e + Z.pos np)).
    { unfold shr_fexp. cbn [Zdigits2]. rewrite Hdq, fexp_float by lia.
      replace (24 + (e + Z.pos np) - 24 - (e + Z.pos np)) with 0 by lia. reflexivity. }
    rewrite Hshr'. cbn [shr_m].
    replace (e + Z.pos np <=? 128 - 24) with true by (symmetry; apply Z.leb_le; lia).
    auto.
  - destruct (shr_m mrs + 1) as [|q|q] eqn:Eq; try lia.
    destruct (Z.eq_dec (Z.pos q) 16777216) as [Htop|Hlow].
    + injection Htop as ->. exists 8388608%positive, (e + Z.pos np + 1).
      assert (Hshr' : shr_fexp 24 128 16777216 (e + Z.pos np) loc_Exact
                = ({| shr_m := 8388608; shr_r := false; shr_s := false |},
                   e + Z.pos np + 1)).
      { unfold shr_fexp. cbn [Zdigits2].
        change (Z.pos (digits2_pos 16777216)) with 25. rewrite fexp_float by lia.
        replace (25 + (e + Z.pos np) - 24 - (e + Z.pos np)) with 1 by lia.
        unfold shr. cbn [SpecFloat.iter_pos shr_record_of_loc shr_1 orb]. reflexivity. }
      rewrite Hshr'. cbn [shr_m].
      replace (e + Z.pos np + 1 <=? 128 - 24) with true
        by (symmetry; apply Z.leb_le; lia).
      split; [reflexivity|]. split; [reflexivity|]. right. done.
    + assert (Hdq : Z.pos (digits2_pos q) = 24) by (apply digits2_pos_unique; lia).
      exists q, (e + Z.pos np).
      assert (Hshr' : shr_fexp 24 128 (Z.pos q) (e + Z.pos np) loc_Exact
                = ({| shr_m := Z.pos q; shr_r := false; shr_s := false |},
                   e + Z.pos np)).
      { unfold shr_fexp. cbn [Zdigits2]. rewrite Hdq, fexp_float by lia.
        replace (24 + (e + Z.pos np) - 24 - (e + Z.pos np)) with 0 by lia.
        reflexivity. }
      rewrite Hshr'. cbn [shr_m].
      replace (e + Z.pos np <=? 128 - 24) with true by (symmetry; apply Z.leb_le; lia).
      auto.
Qed.

(** [(float)k] for a positive [k] below 2^31: a mantissa of 24 digits, and
    an exponent of 8 only for 2^31 itself. *)
Lemma float_of_int_shape (p : positive) :
  Z.pos p < 2 ^ 31 ->
  exists (M : positive) (E : Z),
    float_of_int (Z.pos p) = S754_finite false M E /\
    Z.pos (digits2_pos M) = 24 /\ -23 <= E <= 8 /\
    (E = 8 -> M = 8388608%positive).
Proof.
  intros Hp.
  assert (Hd : Z.pos (digits2_pos p) <= 31) by (apply digits2_pos_le; lia).
  unfold float_of_int, binary_normalize, binary_round, shl_align.
  rewrite Z.add_0_r, fexp_float by lia. rewrite Z.sub_0_r.
  destruct (Z.pos (digits2_pos p) - 24) as [|n|n] eqn:En.
  - exists p, 0. rewrite binary_round_aux_float_exact by lia.
    split; [done|]. split; [lia|]. split; lia.
  - destruct (binary_round_aux_float_long p 0 (Z.pos n)) as (M & E & HM & HdM & HE);
      try lia.
    exists M, E. split; [done|]. split; [done|]. split; lia.
  - exists (Pos.iter xO p n), (Z.neg n).
    assert (HdM : Z.pos (digits2_pos (Pos.iter xO p n)) = 24).
    { rewrite digits2_pos_iter_xO. lia. }
    rewrite binary_round_aux_float_exact by lia || exact HdM.
    split; [done|]. split; [done|]. split; lia.
Qed.

(** [(float)RAND_MAX + 1] is 2^31. *)
Lemma rand_max_plus_one_float :
  fadd (float_of_int RAND_MAX) (float_of_int 1) = S754_finite false 8388608 8.
Proof. vm_compute. reflexivity. Qed.

Lemma fdiv_two_31 (m : positive) (e : Z) :
  Z.pos (digits2_pos m) = 24 -> -23 <= e <= 8 ->
  fdiv (S754_finite false m e) (S754_finite false 8388608 8)
  = S754_finite false m (e - 31).
Proof.
  intros Hd He. unfold fdiv, SFdiv.
  assert (Hcore : SFdiv_core_binary 24 128 (Z.pos m) e 8388608 8
                  = (Z.pos m~0, e - 32, loc_Exact)).
  { unfold SFdiv_core_binary. cbn [Zdigits2]. rewrite Hd.
    change (Z.pos (digits2_pos 8388608)) with 24.
    replace (24 + e - (24 + 8)) with (e - 8) by lia.
    rewrite fexp_float by lia.
    replace (Z.min (e - 8 - 24) (e - 8)) with (e - 32) by lia.
    replace (e - 8 - (e - 32)) with 24 by lia.
    rewrite Z.shiftl_mul_pow2 by lia.
    assert (Hq : Z.div_eucl (Z.pos m * 2 ^ 24) 8388608 = (Z.pos m~0, 0)).
    { pose proof (Z.div_eucl_eq (Z.pos m * 2 ^ 24) 8388608 ltac:(lia)) as Heq.
      pose proof (Z.mod_pos_bound (Z.pos m * 2 ^ 24) 8388608 ltac:(lia)) as Hb.
      unfold Z.modulo in Hb.
      destruct (Z.div_eucl (Z.pos m * 2 ^ 24) 8388608) as [q r].
      change (2 ^ 24) with 16777216 in Heq.
      assert (q = Z.pos m~0) by lia. assert (r = 0) by lia. congruence. }
    rewrite Hq. reflexivity. }
  rewrite Hcore. unfold binary_round_aux.
  assert (Hshr : shr_fexp 24 128 (Z.pos m~0) (e - 32) loc_Exact
                 = ({| shr_m := Z.pos m; shr_r := false; shr_s := false |}, e - 31)).
  { unfold shr_fexp. cbn [Zdigits2 digits2_pos]. rewrite Pos2Z.inj_succ, Hd.
    rewrite fexp_float by lia.
    replace (Z.succ 24 + (e - 32) - 24 - (e - 32)) with 1 by lia.
    unfold shr. cbn [SpecFloat.iter_pos shr_record_of_loc shr_1 orb].
    f_equal. lia. }
  rewrite Hshr. cbn [shr_m loc_of_shr_record round_nearest_even].
  assert (Hshr' : shr_fexp 24 128 (Z.pos m) (e - 31) loc_Exact
                  = ({| shr_m := Z.pos m; shr_r := false; shr_s := false |}, e - 31)).
  { unfold shr_fexp. cbn [Zdigits2]. rewrite Hd, fexp_float by lia.
    replace (24 + (e - 31) - 24 - (e - 31)) with 0 by lia. reflexivity. }
  rewrite Hshr'. cbn [shr_m xorb].
  replace (e - 31 <=? 128 - 24) with true by (symmetry; apply Z.leb_le; lia).
  reflexivity.
Qed.

(** Every draw [rand()/((float)RAND_MAX + 1)] lies in the closed interval
    [0, 1]. *)
Lemma unit_float_range (k : Z) :
  0 <= k <= RAND_MAX ->
  fle f_zero (unit_float k) = true /\ fle (unit_float k) f_one = true.
Proof.
  intros Hk. unfold unit_float. rewrite rand_max_plus_one_float.
  destruct k as [|p|p]; [| |lia].
  - split; reflexivity.
  - destruct (float_of_int_shape p) as (M & E & -> & HdM & HE & Htop).
    { unfold RAND_MAX in Hk. lia. }
    rewrite fdiv_two_31 by done. split; [reflexivity|].
    change f_one with (S754_finite false 8388608 (-23)).
    unfold fle, SFleb, SFcompare.
    destruct (Z.compare_spec (E - 31) (-23)) as [Heq|_|Hgt]; [|reflexivity|lia].
    rewrite Htop by lia. reflexivity.
Qed.

(** ** The life cycle of an engine *)

(** X1. [micro_ga_destroy] succeeds once: on a ready engine it returns [0],
    releases the population and clears the flag; on an engine that is not
    ready (never initialized, or destroyed before, or with its flag cleared
    by hand) and on a null pointer it returns [-1] and changes nothing, so
    that nothing is released twice; a destroyed engine is refused by
    [micro_ga_evolve], and [micro_ga_sort], which tests nothing, reads a
    population that is no longer there. *)
Theorem micro_ga_destroy_once {W : Type} (ga : micro_ga_t W) :
  ready ga = 1 ->
  let destroyed := set_ready (set_individuals ga None) 0 in
  micro_ga_destroy (Some ga) = (0, Some destroyed) /\
  micro_ga_destroy (Some destroyed) = (-1, Some destroyed) /\
  micro_ga_destroy (Some (set_ready ga 0)) = (-1, Some (set_ready ga 0)) /\
  micro_ga_destroy (W := W) None = (-1, None) /\
  (forall ga' : micro_ga_t W, ready ga' <> 1 ->
     micro_ga_destroy (Some ga') = (-1, Some ga')) /\
  (forall qsort fuel heap (w : W) r,
     micro_ga_evolve qsort fuel heap destroyed w r = Aborted /\
     micro_ga_evolve qsort fuel heap (set_ready ga 0) w r = Aborted) /\
  (population_size ga <> 0 ->
   forall qsort, micro_ga_sort qsort destroyed = Fault destroyed).
Proof.
  intros Hr. cbv zeta. unfold micro_ga_destroy. rewrite Hr.
  split; [done|]. split; [done|]. split; [done|]. split; [done|].
  split; [|split; [done|]].
  - intros ga' Hn. replace (ready ga' =? 1) with false; [done|].
    symmetry. by apply Z.eqb_neq.
  - intros Hp qsort. unfold micro_ga_sort.
    cbn [set_ready set_individuals individuals population_size].
    replace (population_size ga =? 0) with false; [done|].
    symmetry. by apply Z.eqb_neq.
Qed.

(** X1, the witness: the sample engine. *)
Lemma micro_ga_destroy_once_witness :
  micro_ga_destroy (Some sample_engine)
    = (0, Some (set_ready (set_individuals sample_engine None) 0)) /\
  micro_ga_destroy (Some (set_ready (set_individuals sample_engine None) 0))
    = (-1, Some (set_ready (set_individuals sample_engine None) 0)) /\
  micro_ga_destroy (Some (set_ready sample_engine 0))
    = (-1, Some (set_ready sample_engine 0)) /\
  micro_ga_destroy (W := nat) None = (-1, None) /\
  (forall ga' : micro_ga_t nat, ready ga' <> 1 ->
     micro_ga_destroy (Some ga') = (-1, Some ga')) /\
  (forall qsort fuel heap (w : nat) r,
     micro_ga_evolve qsort fuel heap (set_ready (set_individuals sample_engine None) 0) w r
       = Aborted /\
     micro_ga_evolve qsort fuel heap (set_ready sample_engine 0) w r = Aborted) /\
  (population_size sample_engine <> 0 ->
   forall qsort,
     micro_ga_sort qsort (set_ready (set_individuals sample_engine None) 0)
     = Fault (set_ready (set_individuals sample_engine None) 0)).
Proof. apply (micro_ga_destroy_once sample_engine). reflexivity. Defined.

(** X2. [micro_ga_evolve] changes the individuals and nothing else in the
    engine: the generation number is never advanced, and the sizes, the
    rates, the threshold, the callbacks, the ready flag and the debug flag
    are what they were, whether the call returns or stops at a null
    pointer. *)
Theorem evolve_changes_individuals_only {W : Type}
    (qsort : forall A : Type, (A -> A -> Z) -> list A -> list A)
    (fuel : nat) (heap : scratch) (ga : micro_ga_t W) (w : W) (r : rng) (st : run W) :
  micro_ga_evolve qsort fuel heap ga w r = Returned st \/
  micro_ga_evolve qsort fuel heap ga w r = Fault st ->
  generation (engine st) = generation ga /\
  population_size (engine st) = population_size ga /\
  ga_genome_size (engine st) = ga_genome_size ga /\
  mutation_rate (engine st) = mutation_rate ga /\
  crossover_rate (engine st) = crossover_rate ga /\
  fitness_thresh (engine st) = fitness_thresh ga /\
  fitness_fn (engine st) = fitness_fn ga /\
  acceptance_fn (engine st) = acceptance_fn ga /\
  ready (engine st) = ready ga /\
  debug (engine st) = debug ga.
Proof.
  unfold micro_ga_evolve.
  repeat (case_match; try (intros [[=]|[=]]; subst; cbn; done)).
Qed.

(** X2, the witness: one generation of the sample engine. *)
Lemma evolve_changes_individuals_only_witness :
  generation (engine sample_run) = generation sample_engine /\
  population_size (engine sample_run) = population_size sample_engine /\
  ga_genome_size (engine sample_run) = ga_genome_size sample_engine /\
  mutation_rate (engine sample_run) = mutation_rate sample_engine /\
  crossover_rate (engine sample_run) = crossover_rate sample_engine /\
  fitness_thresh (engine sample_run) = fitness_thresh sample_engine /\
  fitness_fn (engine sample_run) = fitness_fn sample_engine /\
  acceptance_fn (engine sample_run) = acceptance_fn sample_engine /\
  ready (engine sample_run) = ready sample_engine /\
  debug (engine sample_run) = debug sample_engine.
Proof.
  apply (evolve_changes_individuals_only insertion_sort 100 all_allocated sample_engine
           0%nat lcg_rng sample_run).
  left. exact sample_run_returned.
Defined.

(** X3. A successful [micro_ga_init] copies the sizes, the rates, the
    threshold and the two callbacks from the configuration, starts at
    generation [0] and sets the ready flag; the debug flag of the
    configuration is not copied: the engine's is [0] whatever was asked. *)
Theorem micro_ga_init_copies_configuration {W : Type} (fuel : nat) (calloc_ok : bool)
    (ga : micro_ga_t W) (config : micro_ga_config_t W) (w w' : W) (r r' : rng)
    (g : micro_ga_t W) :
  micro_ga_init fuel calloc_ok (Some ga) (Some config) w r = Returned (0, Some g, w', r') ->
  population_size g = cfg_population_size config /\
  ga_genome_size g = cfg_genome_size config /\
  mutation_rate g = cfg_mutation_rate config /\
  crossover_rate g = cfg_crossover_rate config /\
  fitness_thresh g = cfg_fitness_thresh config /\
  fitness_fn g = cfg_fitness_fn config /\
  acceptance_fn g = cfg_acceptance_fn config /\
  generation g = 0 /\ ready g = 1 /\ debug g = 0.
Proof.
  unfold micro_ga_init, population_init.
  destruct (config_rejected config); [done|]. destruct (negb calloc_ok); [done|].
  cbn [set_individuals individuals population_size acceptance_fn configured].
  destruct (population_init_loop _ _ _ _ _ _ _) as [[[inds' w1] r1]| | | |]; try done.
  intros [= <- <- <-]. cbn. done.
Qed.

Lemma verbose_config_valid : ~ config_invalid verbose_config.
Proof. intros [H|[H|[H|[H|[H|H]]]]]; discriminate H. Qed.

(** X3, the witness: the sample configuration with [debug = 1]. *)
Lemma micro_ga_init_copies_configuration_witness :
  exists g r',
    micro_ga_init 4 true (Some (zeroed_engine nat)) (Some verbose_config) 0%nat lcg_rng
      = Returned (0, Some g, 0%nat, r') /\
    cfg_debug verbose_config = 1 /\ debug g = 0 /\ ready g = 1 /\ generation g = 0.
Proof.
  destruct (micro_ga_init_unfiltered 4 (zeroed_engine nat) verbose_config 0%nat lcg_rng
              verbose_config_valid eq_refl ltac:(cbn; lia) ltac:(cbn; lia)
              ltac:(cbn; lia))
    as (g & inds & r' & Hinit & _).
  exists g, r'. split; [exact Hinit|]. split; [reflexivity|].
  pose proof (micro_ga_init_copies_configuration 4 true (zeroed_engine nat)
                verbose_config 0%nat 0%nat lcg_rng r' g Hinit) as H.
  tauto.
Defined.

(** X4. Where [micro_ga_init] fails.  A null engine or a null
    configuration is answered with [-1] and nothing is touched.  When the
    array of individuals cannot be allocated, the engine is left configured
    but not ready and without individuals: [micro_ga_evolve] aborts on it,
    [micro_ga_destroy] returns [-1], and [micro_ga_sort], which tests
    nothing, hands the null pointer to [qsort]. *)
Theorem micro_ga_init_failures {W : Type}
    (qsort : forall A : Type, (A -> A -> Z) -> list A -> list A)
    (fuel : nat) (ga : micro_ga_t W) (config : micro_ga_config_t W) (w : W) (r : rng) :
  ~ config_invalid config ->
  (forall calloc_ok cfg, micro_ga_init fuel calloc_ok None cfg w r = Returned (-1, None, w, r)) /\
  (forall calloc_ok,
     micro_ga_init fuel calloc_ok (Some ga) None w r = Returned (-1, Some ga, w, r)) /\
  micro_ga_init fuel false (Some ga) (Some config) w r
    = Returned (-1, Some (configured config), w, r) /\
  ready (configured config) = 0 /\
  individuals (configured config) = None /\
  (forall fuel' heap w' r',
     micro_ga_evolve qsort fuel' heap (configured config) w' r' = Aborted) /\
  micro_ga_destroy (Some (configured config)) = (-1, Some (configured config)) /\
  micro_ga_sort qsort (configured config) = Fault (configured config).
Proof.
  intros Hvalid. split; [done|]. split; [done|]. split.
  { unfold micro_ga_init. by rewrite (config_accepted config Hvalid). }
  split; [done|]. split; [done|]. split; [done|]. split; [done|].
  unfold micro_ga_sort. cbn [configured individuals population_size].
  replace (cfg_population_size config =? 0) with false; [done|].
  symmetry. apply Z.eqb_neq. intros H. apply Hvalid. by left.
Qed.

(** X4, the witness: the sample configuration. *)
Lemma micro_ga_init_failures_witness :
  micro_ga_init 4 false (Some sample_engine) (Some verbose_config) 0%nat lcg_rng
    = Returned (-1, Some (configured verbose_config), 0%nat, lcg_rng) /\
  micro_ga_sort insertion_sort (configured verbose_config)
    = Fault (configured verbose_config).
Proof.
  pose proof (micro_ga_init_failures insertion_sort 4 sample_engine verbose_config
                0%nat lcg_rng verbose_config_valid) as H.
  split; [apply H|]. apply H.
Defined.

(** ** Comparing and sorting *)

Lemma flt_asym (x y : spec_float) : flt x y = true -> flt y x = false.
Proof.
  intros H. pose proof (flt_not_fle x y H) as Hle.
  unfold flt, fle, SFltb, SFleb in *. destruct (SFcompare y x) as [[]|]; done.
Qed.

Lemma flt_nan (x y : spec_float) :
  is_nan x = true \/ is_nan y = true -> flt x y = false.
Proof.
  unfold flt, SFltb.
  intros [H|H]; [destruct x | destruct y]; try done; by destruct x.
Qed.

(** X5. [genome_compare] answers [-1], [0] or [1]; swapping its arguments
    negates the answer; [-1] and [1] mean that the first fitness is below,
    respectively above, the second; a NaN fitness compares equal to every
    other, so that with a NaN between a higher and a lower fitness the
    comparison is not the total ordering that [qsort] asks for. *)
Theorem genome_compare_answers (a b c : micro_ga_genome_t) :
  (genome_compare a b = -1 \/ genome_compare a b = 0 \/ genome_compare a b = 1) /\
  genome_compare b a = - genome_compare a b /\
  (genome_compare a b = -1 <-> flt (fitness a) (fitness b) = true) /\
  (genome_compare a b = 1 <-> flt (fitness b) (fitness a) = true) /\
  (is_nan (fitness a) = true \/ is_nan (fitness b) = true -> genome_compare a b = 0) /\
  (is_nan (fitness b) = true -> flt (fitness c) (fitness a) = true ->
   ~ total_ordering genome_compare [a; b; c]).
Proof.
  assert (Hcases : forall x y : micro_ga_genome_t,
            (flt (fitness x) (fitness y) = true /\ flt (fitness y) (fitness x) = false /\
             genome_compare x y = -1 /\ genome_compare y x = 1) \/
            (flt (fitness x) (fitness y) = false /\ flt (fitness y) (fitness x) = true /\
             genome_compare x y = 1 /\ genome_compare y x = -1) \/
            (flt (fitness x) (fitness y) = false /\ flt (fitness y) (fitness x) = false /\
             genome_compare x y = 0 /\ genome_compare y x = 0)).
  { intros x y. pose proof (flt_asym (fitness x) (fitness y)) as Hasym.
    unfold genome_compare, fgt, flt in *. cbv zeta.
    destruct (SFltb (fitness x) (fitness y)) eqn:E1.
    - rewrite (Hasym eq_refl). left. done.
    - destruct (SFltb (fitness y) (fitness x)) eqn:E2.
      + right. left. done.
      + right. right. done. }
  assert (Hnan : forall x y : micro_ga_genome_t,
            is_nan (fitness x) = true \/ is_nan (fitness y) = true ->
            genome_compare x y = 0).
  { intros x y H. unfold genome_compare. cbv zeta.
    change (fgt (fitness x) (fitness y)) with (flt (fitness y) (fitness x)).
    rewrite (flt_nan _ _ H). rewrite flt_nan by tauto. done. }
  split; [|split; [|split; [|split; [|split]]]].
  - destruct (Hcases a b) as [H|[H|H]]; tauto.
  - destruct (Hcases a b) as [H|[H|H]]; destruct H as (_ & _ & -> & ->); done.
  - destruct (Hcases a b) as [H|[H|H]]; destruct H as (-> & _ & -> & _); done.
  - destruct (Hcases a b) as [H|[H|H]]; destruct H as (_ & -> & -> & _); done.
  - apply Hnan.
  - intros Hb Hca [_ Htrans].
    assert (Hab : genome_compare a b = 0) by (apply Hnan; auto).
    assert (Hbc : genome_compare b c = 0) by (apply Hnan; auto).
    assert (Hac : genome_compare a c = 1).
    { destruct (Hcases a c) as [H|[H|H]]; destruct H as (? & ? & ? & ?); congruence. }
    assert (Ha : a ∈ [a; b; c]) by (repeat constructor).
    assert (Hb' : b ∈ [a; b; c]) by (repeat constructor).
    assert (Hc : c ∈ [a; b; c]) by (repeat constructor).
    specialize (Htrans a b c Ha Hb' Hc). lia.
Qed.

(** X5, the witness: a NaN between the fitness values 0.9 and 0.1. *)
Lemma genome_compare_answers_witness :
  genome_compare (with_fitness f_nine_tenths) nan_genome = 0 /\
  genome_compare nan_genome (with_fitness f_tenth) = 0 /\
  genome_compare (with_fitness f_nine_tenths) (with_fitness f_tenth) = 1 /\
  ~ total_ordering genome_compare
      [with_fitness f_nine_tenths; nan_genome; with_fitness f_tenth].
Proof.
  split; [|split; [|split]].
  - apply (genome_compare_answers (with_fitness f_nine_tenths) nan_genome
             (with_fitness f_tenth)).
    right. reflexivity.
  - apply (genome_compare_answers nan_genome (with_fitness f_tenth) nan_genome).
    left. reflexivity.
  - apply (genome_compare_answers (with_fitness f_nine_tenths) (with_fitness f_tenth)
             nan_genome).
    vm_compute. reflexivity.
  - apply (genome_compare_answers (with_fitness f_nine_tenths) nan_genome
             (with_fitness f_tenth)).
    + reflexivity.
    + vm_compute. reflexivity.
Defined.

Section Sorting.

Context {W : Type}.
Variable qsort : forall A : Type, (A -> A -> Z) -> list A -> list A.
Hypothesis qsort_perm :
  forall (A : Type) (cmp : A -> A -> Z) (l : list A), qsort A cmp l ≡ₚ l.
Hypothesis qsort_sorted :
  forall (A : Type) (cmp : A -> A -> Z) (l : list A),
    total_ordering cmp l -> StronglySorted (fun a b => cmp a b <= 0) (qsort A cmp l).

(** X6. [micro_ga_sort] on an engine with its population, whose fitness
    values are numbers: it returns, the population is a permutation of what
    it was, the fitness values ascend from slot to slot, so that the last
    slot holds a best individual, and nothing else in the engine changes. *)
Theorem micro_ga_sort_ascending (ga : micro_ga_t W) (inds : list micro_ga_genome_t) :
  individuals ga = Some inds ->
  Z.of_nat (length inds) = population_size ga ->
  Forall (fun g => is_nan (fitness g) = false) inds ->
  exists inds' : list micro_ga_genome_t,
    micro_ga_sort qsort ga = Returned (set_individuals ga (Some inds')) /\
    inds' ≡ₚ inds /\
    (forall (i j : nat) (a b : micro_ga_genome_t),
       (i < j)%nat -> inds' !! i = Some a -> inds' !! j = Some b ->
       fle (fitness a) (fitness b) = true) /\
    (forall best g, last inds' = Some best -> g ∈ inds ->
       fle (fitness g) (fitness best) = true).
Proof.
  intros Hi Hlen Hnan. unfold micro_ga_sort, sort_individuals. rewrite Hi.
  rewrite take_ge, drop_ge, app_nil_r by lia.
  set (sorted := qsort _ genome_compare inds).
  assert (Hperm : sorted ≡ₚ inds) by apply qsort_perm.
  assert (Hss : StronglySorted (fun a b => genome_compare a b <= 0) sorted)
    by (apply qsort_sorted; by apply genome_compare_total_ordering).
  assert (Hnan' : forall g, g ∈ sorted -> is_nan (fitness g) = false).
  { intros g Hg. rewrite Hperm in Hg. rewrite Forall_forall in Hnan. auto. }
  assert (Hasc : forall (i j : nat) (a b : micro_ga_genome_t),
            (i < j)%nat -> sorted !! i = Some a -> sorted !! j = Some b ->
            fle (fitness a) (fitness b) = true).
  { intros i j a b Hij Ha Hb. apply genome_compare_le.
    - apply Hnan'. by eapply list_elem_of_lookup_2.
    - apply Hnan'. by eapply list_elem_of_lookup_2.
    - by apply (StronglySorted_lookup _ _ Hss i j). }
  exists sorted. split; [done|]. split; [done|]. split; [done|].
  intros best g Hlast Hg. rewrite <- Hperm in Hg.
  apply list_elem_of_lookup_1 in Hg as [i Hgi].
  rewrite last_lookup in Hlast.
  assert (i < Nat.pred (length sorted) \/ i = Nat.pred (length sorted))%nat
    as [Hlt| ->] by (apply lookup_lt_Some in Hgi; lia).
  - by apply (Hasc i (Nat.pred (length sorted))).
  - assert (g = best) as -> by congruence.
    assert (Hb : is_nan (fitness best) = false)
      by (apply Hnan'; by eapply list_elem_of_lookup_2).
    apply genome_compare_le; [done..|].
    rewrite genome_compare_key by done.
    pose proof (key_compare_antisym (float_key (fitness best))
                  (float_key (fitness best))) as Hk.
    destruct (key_compare _ _); cbn in Hk; try discriminate; lia.
Qed.

End Sorting.

(** X6, the witness: the sample engine. *)
Lemma micro_ga_sort_ascending_witness :
  exists inds' : list micro_ga_genome_t,
    micro_ga_sort insertion_sort sample_engine
      = Returned (set_individuals sample_engine (Some inds')) /\
    inds' ≡ₚ sample_population /\
    (forall (i j : nat) (a b : micro_ga_genome_t),
       (i < j)%nat -> inds' !! i = Some a -> inds' !! j = Some b ->
       fle (fitness a) (fitness b) = true) /\
    (forall best g, last inds' = Some best -> g ∈ sample_population ->
       fle (fitness g) (fitness best) = true).
Proof.
  apply (micro_ga_sort_ascending insertion_sort insertion_sort_perm insertion_sort_sorted
           sample_engine sample_population).
  - reflexivity.
  - reflexivity.
  - repeat constructor.
Defined.

(** ** Roulette-wheel selection *)

Lemma roulette_some (k : nat) :
  forall (x : nat) (r : double) (prob : list double) (i : nat),
    roulette k x r prob = Some i ->
    (x <= i < x + k)%nat /\ fle r (prob !!! i) = true /\
    forall j : nat, (x <= j < i)%nat -> fle r (prob !!! j) = false.
Proof.
  induction k as [|k IH]; intros x r prob i; cbn [roulette]; [done|].
  destruct (fle r (prob !!! x)) eqn:E.
  - intros [= <-]. split; [lia|]. split; [done|]. intros j Hj. lia.
  - intros H. apply IH in H as (Hi & Hle & Hbelow).
    split; [lia|]. split; [done|]. intros j Hj.
    destruct (decide (j = x)) as [->|]; [done|]. apply Hbelow. lia.
Qed.

Lemma roulette_none (k : nat) :
  forall (x : nat) (r : double) (prob : list double),
    roulette k x r prob = None <->
    forall j : nat, (x <= j < x + k)%nat -> fle r (prob !!! j) = false.
Proof.
  induction k as [|k IH]; intros x r prob; cbn [roulette].
  - split; [intros _ j Hj; lia|done].
  - destruct (fle r (prob !!! x)) eqn:E.
    + split; [done|]. intros H. rewrite H in E by lia. done.
    + rewrite IH. split; intros H j Hj.
      * destruct (decide (j = x)) as [->|]; [done|]. apply H. lia.
      * apply H. lia.
Qed.

(** X7. The scan of the wheel: the parent found for a draw [r] is the first
    individual whose cumulative probability is not below [r]; when no entry
    reaches the draw -- every entry a NaN, or a last entry that rounding has
    left below the draw -- the scan ends without a parent, and the slot of
    [parents] keeps the index it held. *)
Theorem roulette_first_reaching (psize : nat) (r : double) (prob : list double)
    (slot : nat) (parents : list nat) :
  (forall i : nat, roulette psize 0 r prob = Some i ->
     (i < psize)%nat /\ fle r (prob !!! i) = true /\
     (forall j : nat, (j < i)%nat -> fle r (prob !!! j) = false) /\
     ((slot < length parents)%nat ->
      store_parent slot (roulette psize 0 r prob) parents !!! slot = i)) /\
  ((forall j : nat, (j < psize)%nat -> fle r (prob !!! j) = false) ->
   roulette psize 0 r prob = None /\
   store_parent slot (roulette psize 0 r prob) parents = parents) /\
  ((is_nan r = true \/ forall j : nat, (j < psize)%nat -> is_nan (prob !!! j) = true) ->
   roulette psize 0 r prob = None).
Proof.
  split; [|split].
  - intros i Hi. pose proof (roulette_some _ _ _ _ _ Hi) as (Hr & Hle & Hbelow).
    split; [lia|]. split; [done|]. split; [intros j Hj; apply Hbelow; lia|].
    intros Hslot. rewrite Hi. cbn [store_parent].
    apply list_lookup_total_correct. by rewrite list_lookup_insert_eq.
  - intros Hnone.
    assert (H : roulette psize 0 r prob = None)
      by (apply roulette_none; intros j Hj; apply Hnone; lia).
    by rewrite H.
  - intros Hnan. apply roulette_none. intros j Hj.
    unfold fle, SFleb. destruct Hnan as [Hr|Hp].
    + destruct r; try done.
    + specialize (Hp j ltac:(lia)). destruct (prob !!! j); try done.
      by destruct r.
Qed.

(** X7, the witness: the cumulative probabilities of the fitness values
    0.1, 0.5, 0.9 and the draw one half, which the third entry is the first
    to reach. *)
Lemma roulette_first_reaching_witness :
  (2 < 3)%nat /\
  fle d_half (selection_distribution 3 three_fitness_values !!! 2%nat) = true /\
  (forall j : nat, (j < 2)%nat ->
     fle d_half (selection_distribution 3 three_fitness_values !!! j) = false) /\
  ((0 < length [0%nat; 0%nat])%nat ->
   store_parent 0 (roulette 3 0 d_half (selection_distribution 3 three_fitness_values))
     [0%nat; 0%nat] !!! 0%nat = 2%nat).
Proof.
  apply (roulette_first_reaching 3 d_half (selection_distribution 3 three_fitness_values)
           0 [0%nat; 0%nat]).
  vm_compute. reflexivity.
Defined.

(** The selection loop writes the two slots at [pcount] and no slot below;
    it leaves with [n = replace]. *)
Lemma select_parents_pairs (psize replace : Z) (prob : list double) (fuel : nat) :
  forall (n : Z) (pcount : nat) (parents : list nat) (r : rng)
         (parents' : list nat) (pcount' : nat) (r' : rng),
    n <= replace ->
    (pcount + 2 * Z.to_nat (replace - n) <= length parents)%nat ->
    Forall (fun x => Z.of_nat x < psize) parents ->
    select_parents fuel psize replace n pcount prob parents r
      = Returned (parents', pcount', r') ->
    pcount' = (pcount + 2 * Z.to_nat (replace - n))%nat /\
    length parents' = length parents /\
    Forall (fun x => Z.of_nat x < psize) parents' /\
    (forall j : nat, (j < pcount)%nat -> parents' !!! j = parents !!! j) /\
    (forall k : nat, (pcount + 2 * k + 1 < pcount')%nat ->
       parents' !!! (pcount + 2 * k)%nat <> parents' !!! (pcount + 2 * k + 1)%nat) /\
    (exists turns : nat, (Z.to_nat (replace - n) <= turns)%nat /\
       r' = advance (2 * turns) r).
Proof.
  induction fuel as [|fuel IH];
    intros n pcount parents r parents' pcount' r' Hn Hlen Hall; cbn [select_parents];
    [done|].
  destruct (n <? replace) eqn:En.
  2:{ apply Z.ltb_ge in En. intros [= <- <- <-].
      replace (replace - n) with 0 by lia. cbn [Z.to_nat].
      split; [lia|]. split; [done|]. split; [done|]. split; [done|].
      split; [intros k Hk; lia|]. exists 0%nat. split; [lia|].
      by rewrite advance_0. }
  apply Z.ltb_lt in En.
  rewrite (drand_eq r). rewrite (drand_eq (advance 1 r)). rewrite advance_advance.
  set (found1 := roulette (Z.to_nat psize) 0 (unit_double (tape r (cursor r))) prob).
  set (p1 := store_parent pcount found1 parents).
  set (found2 := roulette (Z.to_nat psize) 0
                   (unit_double (tape (advance 1 r) (cursor (advance 1 r)))) prob).
  set (p2 := store_parent (pcount + 1) found2 p1).
  assert (Hstore : forall slot found l,
            (found = roulette (Z.to_nat psize) 0
                       (unit_double (tape r (cursor r))) prob \/
             found = roulette (Z.to_nat psize) 0
                       (unit_double (tape (advance 1 r) (cursor (advance 1 r)))) prob) ->
            Forall (fun x => Z.of_nat x < psize) l ->
            length (store_parent slot found l) = length l /\
            Forall (fun x => Z.of_nat x < psize) (store_parent slot found l) /\
            forall j : nat, j <> slot -> store_parent slot found l !!! j = l !!! j).
  { intros slot found l Hfound Hl. destruct found as [x|]; cbn [store_parent]; [|done].
    assert (Hx : (x < Z.to_nat psize)%nat).
    { destruct Hfound as [H|H]; symmetry in H; apply roulette_some in H; lia. }
    split; [by rewrite length_insert|]. split.
    - apply Forall_insert; [done|lia].
    - intros j Hj. by rewrite list_lookup_total_insert_ne. }
  destruct (Hstore pcount found1 parents ltac:(by left) Hall) as (Hl1 & Ha1 & Hk1).
  destruct (Hstore (pcount + 1)%nat found2 p1 ltac:(by right) Ha1) as (Hl2 & Ha2 & Hk2).
  fold p1 in Hl1, Ha1, Hk1. fold p2 in Hl2, Ha2, Hk2.
  assert (Hbelow : forall j : nat, (j < pcount)%nat -> p2 !!! j = parents !!! j).
  { intros j Hj. rewrite Hk2 by lia. apply Hk1. lia. }
  case_decide as Hsame.
  - intros H. apply IH in H as (Hpc & Hl & Ha & Hb & Hp & turns & Ht & Hr);
      [|lia|lia|done].
    split; [done|]. split; [lia|]. split; [done|]. split.
    { intros j Hj. rewrite Hb by done. by apply Hbelow. }
    split; [done|]. exists (S turns). split; [lia|].
    rewrite Hr, advance_advance. f_equal. lia.
  - intros H. apply IH in H as (Hpc & Hl & Ha & Hb & Hp & turns & Ht & Hr);
      [|lia|lia|done].
    replace (Z.to_nat (replace - n)) with (S (Z.to_nat (replace - (n + 1)))) by lia.
    split; [lia|]. split; [lia|]. split; [done|]. split.
    { intros j Hj. rewrite Hb by lia. by apply Hbelow. }
    split.
    { intros k Hk. destruct k as [|k].
      - replace (pcount + 2 * 0)%nat with pcount by lia.
        rewrite !Hb by lia. done.
      - replace (pcount + 2 * S k)%nat with (pcount + 2 + 2 * k)%nat by lia.
        apply Hp. lia. }
    exists (S turns). split; [lia|].
    rewrite Hr, advance_advance. f_equal. lia.
Qed.

(** X8. The selection loop of [micro_ga_evolve], when it ends: it has stored
    [replace] pairs of parents, [pcount = 2 * replace]; mother and father of a
    pair are different individuals; every index is one of the population; and
    it has consumed an even number of random draws, two for every pair tried,
    accepted or not. *)
Theorem select_parents_distinct (fuel : nat) (psize : Z) (prob : list double) (r : rng)
    (parents : list nat) (pcount : nat) (r' : rng) :
  0 < psize < 2 ^ 31 ->
  select_parents fuel psize (psize - 1) 0 0 prob
    (replicate (Z.to_nat (psize * 2)) 0%nat) r = Returned (parents, pcount, r') ->
  pcount = (2 * Z.to_nat (psize - 1))%nat /\
  length parents = Z.to_nat (psize * 2) /\
  (forall j : nat, Z.of_nat (parents !!! j) < psize) /\
  (forall k : nat, Z.of_nat k < psize - 1 ->
     parents !!! (2 * k)%nat <> parents !!! (2 * k + 1)%nat) /\
  (exists turns : nat, (Z.to_nat (psize - 1) <= turns)%nat /\
     r' = advance (2 * turns) r).
Proof.
  intros Hp H.
  apply select_parents_pairs in H as (Hpc & Hl & Ha & _ & Hpairs & Hturns).
  - rewrite Z.sub_0_r in *. rewrite length_replicate in Hl.
    split; [exact Hpc|]. split; [done|]. split.
    { intros j. destruct (parents !! j) as [x|] eqn:E.
      - rewrite (list_lookup_total_correct _ _ _ E).
        rewrite Forall_forall in Ha. apply Ha. by eapply list_elem_of_lookup_2.
      - rewrite list_lookup_total_alt, E. cbn. lia. }
    split; [|done]. intros k Hk. apply (Hpairs k). lia.
  - lia.
  - rewrite length_replicate. lia.
  - apply Forall_replicate. lia.
Qed.

Lemma sample_selection_returned :
  select_parents 10 4 (4 - 1) 0 0 sample_prob (replicate (Z.to_nat (4 * 2)) 0%nat) lcg_rng
  = Returned (sample_selection.1.1, sample_selection.1.2, sample_selection.2).
Proof.
  assert (Hret : is_returned
            (select_parents 10 4 (4 - 1) 0 0 sample_prob
               (replicate (Z.to_nat (4 * 2)) 0%nat) lcg_rng) = true)
    by (vm_compute; reflexivity).
  unfold sample_selection.
  destruct (select_parents 10 4 (4 - 1) 0 0 sample_prob
              (replicate (Z.to_nat (4 * 2)) 0%nat) lcg_rng) as [[[p c] r]| | | |];
    [reflexivity|discriminate..].
Qed.

(** X8, the witness: the selection in the generation of the sample engine. *)
Lemma select_parents_distinct_witness :
  sample_selection.1.2 = (2 * Z.to_nat (4 - 1))%nat /\
  length sample_selection.1.1 = Z.to_nat (4 * 2) /\
  (forall j : nat, Z.of_nat (sample_selection.1.1 !!! j) < 4) /\
  (forall k : nat, Z.of_nat k < 4 - 1 ->
     sample_selection.1.1 !!! (2 * k)%nat <> sample_selection.1.1 !!! (2 * k + 1)%nat) /\
  (exists turns : nat, (Z.to_nat (4 - 1) <= turns)%nat /\
     sample_selection.2 = advance (2 * turns) lcg_rng).
Proof.
  apply (select_parents_distinct 10 4 sample_prob lcg_rng).
  - lia.
  - apply sample_selection_returned.
Defined.

(** ** Generations that cannot select *)

Lemma dadd_nan_l (x y : double) : is_nan x = true -> is_nan (dadd x y) = true.
Proof. by destruct x, y. Qed.

Lemma dadd_nan_r (x y : double) : is_nan y = true -> is_nan (dadd x y) = true.
Proof. by destruct x, y. Qed.

Lemma ddiv_nan_r (x y : double) : is_nan y = true -> is_nan (ddiv x y) = true.
Proof. by destruct x, y. Qed.

Lemma fle_nan_r (x y : double) : is_nan y = true -> fle x y = false.
Proof. by destruct x, y. Qed.

(** Once the running sum is a NaN, every entry written is a NaN. *)
Lemma cumulative_prob_nan (inds : list micro_ga_genome_t) (tfitness : double) (k : nat) :
  forall (n : nat) (cumulative : double) (prob : list double),
    (n + k <= length prob)%nat ->
    is_nan (dadd cumulative (ddiv (double_of_float (fitness (inds !!! n))) tfitness))
      = true ->
    forall i : nat, (n <= i < n + k)%nat ->
      is_nan (cumulative_prob k n inds tfitness cumulative prob !!! i) = true.
Proof.
  induction k as [|k IH]; intros n cumulative prob Hlen Hnan i Hi; [lia|].
  cbn [cumulative_prob]. cbv zeta.
  set (c := dadd cumulative (ddiv (double_of_float (fitness (inds !!! n))) tfitness)) in *.
  destruct (decide (i = n)) as [->|Hne].
  - destruct (cumulative_prob_spec inds tfitness k (S n) c (<[n := c]> prob))
      as (_ & Hlow & _).
    { rewrite length_insert. lia. }
    cbv zeta in Hlow.
    rewrite (list_lookup_total_correct _ n c); [done|].
    rewrite Hlow by lia. apply list_lookup_insert_eq. lia.
  - apply IH; [rewrite length_insert; lia| |lia]. by apply dadd_nan_l.
Qed.

(** The sum of fitness values that are all zero is a zero. *)
Lemma total_fitness_zero (inds : list micro_ga_genome_t) (k : nat) :
  forall (n : nat) (t : double),
    Forall (fun g => exists s, fitness g = S754_zero s) inds ->
    (n + k <= length inds)%nat ->
    (exists s, t = S754_zero s) ->
    exists s, total_fitness k n inds t = S754_zero s.
Proof.
  induction k as [|k IH]; intros n t Hall Hlen Ht; cbn [total_fitness]; [done|].
  apply IH; [done|lia|].
  destruct (lookup_lt_is_Some_2 inds n ltac:(lia)) as [g Hg].
  rewrite (list_lookup_total_correct _ _ _ Hg).
  rewrite Forall_forall in Hall. destruct (Hall g) as [s Hs].
  { by eapply list_elem_of_lookup_2. }
  destruct Ht as [s' ->]. rewrite Hs. destruct s, s'; by eexists.
Qed.

(** A NaN among the fitness values makes the sum a NaN. *)
Lemma total_fitness_nan (inds : list micro_ga_genome_t) (k : nat) :
  forall (n : nat) (t : double),
    is_nan t = true \/
    (exists j : nat, (n <= j < n + k)%nat /\ is_nan (fitness (inds !!! j)) = true) ->
    is_nan (total_fitness k n inds t) = true.
Proof.
  induction k as [|k IH]; intros n t H; cbn [total_fitness].
  - destruct H as [H|(j & Hj & _)]; [done|lia].
  - apply IH. destruct H as [H|(j & Hj & Hnan)].
    + left. by apply dadd_nan_l.
    + destruct (decide (j = n)) as [->|Hne].
      * left. apply dadd_nan_r. by destruct (fitness (inds !!! n)).
      * right. exists j. split; [lia|done].
Qed.

(** With NaN for every cumulative probability no draw finds a parent: the
    two slots keep what they hold, and if that is the same index the loop
    tries again, for ever. *)
Lemma select_parents_stuck (psize replace : Z) (prob : list double) (n : Z)
    (pcount : nat) (parents : list nat) (fuel : nat) :
  (forall j : nat, (j < Z.to_nat psize)%nat -> is_nan (prob !!! j) = true) ->
  n < replace ->
  parents !!! pcount = parents !!! (pcount + 1)%nat ->
  forall r : rng, select_parents fuel psize replace n pcount prob parents r = OutOfFuel.
Proof.
  intros Hnan Hn Hsame. induction fuel as [|fuel IH]; intros r; cbn [select_parents];
    [done|].
  apply Z.ltb_lt in Hn. rewrite Hn.
  destruct (drand r) as [r1 rg1]. destruct (drand rg1) as [r2 rg2].
  assert (Hnone : forall x : double, roulette (Z.to_nat psize) 0 x prob = None).
  { intros x. apply roulette_none. intros j Hj. apply fle_nan_r, Hnan. lia. }
  rewrite !Hnone. cbn [store_parent]. rewrite decide_True by done. apply IH.
Qed.

(** A division by zero gives a NaN or an infinity. *)
Lemma ddiv_by_zero (x : double) (s : bool) :
  nan_or_infinite (ddiv x (S754_zero s)) = true.
Proof. by destruct x as [[]|[]| |[] m e], s. Qed.

Lemma dadd_never_reached (c x : double) :
  never_reached c = true -> nan_or_infinite x = true -> never_reached (dadd c x) = true.
Proof. by destruct c as [[]|[]| |[] m e], x as [[]|[]| |[] m' e']. Qed.

Lemma fle_never_reached (u p : double) :
  fle d_zero u = true -> never_reached p = true -> fle u p = false.
Proof. by destruct u as [[]|[]| |[] m e], p as [[]|[]| |[] m' e']. Qed.

Lemma fle_plus_infinity (u : double) :
  fle d_zero u = true -> fle u (S754_infinity false) = true.
Proof. by destruct u as [[]|[]| |[] m e]. Qed.

(** With shares that are NaN or infinite, a running sum that is NaN or
    minus infinity stays so. *)
Lemma cumulative_prob_never_reached (inds : list micro_ga_genome_t) (tfitness : double)
    (k : nat) :
  forall (n : nat) (cumulative : double) (prob : list double),
    (n + k <= length prob)%nat ->
    (forall i : nat,
       nan_or_infinite (ddiv (double_of_float (fitness (inds !!! i))) tfitness) = true) ->
    never_reached
      (dadd cumulative (ddiv (double_of_float (fitness (inds !!! n))) tfitness)) = true ->
    forall i : nat, (n <= i < n + k)%nat ->
      never_reached (cumulative_prob k n inds tfitness cumulative prob !!! i) = true.
Proof.
  induction k as [|k IH]; intros n cumulative prob Hlen Hshares Hc i Hi; [lia|].
  cbn [cumulative_prob]. cbv zeta.
  set (c := dadd cumulative (ddiv (double_of_float (fitness (inds !!! n))) tfitness)) in *.
  destruct (decide (i = n)) as [->|Hne].
  - destruct (cumulative_prob_spec inds tfitness k (S n) c (<[n := c]> prob))
      as (_ & Hlow & _).
    { rewrite length_insert. lia. }
    cbv zeta in Hlow.
    rewrite (list_lookup_total_correct _ n c); [done|].
    rewrite Hlow by lia. apply list_lookup_insert_eq. lia.
  - apply IH; [rewrite length_insert; lia|done| |lia]. by apply dadd_never_reached.
Qed.

(** When every draw finds the same parent, or none, the two slots hold the
    same index after every pair of draws, and the loop tries again. *)
Lemma select_parents_constant (psize replace : Z) (prob : list double) (n : Z)
    (pcount : nat) (res : option nat) (fuel : nat) :
  (forall k : Z, 0 <= k <= RAND_MAX ->
     roulette (Z.to_nat psize) 0 (unit_double k) prob = res) ->
  n < replace ->
  forall (parents : list nat) (r : rng),
    rand_in_range r ->
    (pcount + 1 < length parents)%nat ->
    (res = None -> parents !!! pcount = parents !!! (pcount + 1)%nat) ->
    select_parents fuel psize replace n pcount prob parents r = OutOfFuel.
Proof.
  intros Hconst Hn. induction fuel as [|fuel IH]; intros parents r Hrange Hlen Hsame;
    cbn [select_parents]; [done|].
  apply Z.ltb_lt in Hn. rewrite Hn.
  rewrite (drand_eq r), (drand_eq (advance 1 r)).
  rewrite !Hconst by apply Hrange.
  assert (Heq : store_parent (pcount + 1) res (store_parent pcount res parents) !!! pcount
                = store_parent (pcount + 1) res (store_parent pcount res parents)
                    !!! (pcount + 1)%nat).
  { destruct res as [x|]; cbn [store_parent]; [|by apply Hsame].
    rewrite list_lookup_total_insert_ne by lia.
    rewrite !list_lookup_total_insert_eq by (rewrite ?length_insert; lia). done. }
  rewrite decide_True by done. apply IH.
  - by do 2 apply rand_in_range_advance.
  - destruct res; cbn [store_parent]; rewrite ?length_insert; done.
  - intros ->. cbn [store_parent]. by apply Hsame.
Qed.

Section Stalling.

Context {W : Type}.
Variable qsort : forall A : Type, (A -> A -> Z) -> list A -> list A.
Hypothesis qsort_perm :
  forall (A : Type) (cmp : A -> A -> Z) (l : list A), qsort A cmp l ≡ₚ l.

(** X9. A population of two or more whose fitness values, as the objective
    function has just assigned them, are all zero, or have a NaN among them,
    or add up to zero: the shares are then NaN or infinite, every draw finds
    the same parent or none, mother and father never differ, and the
    selection loop of [micro_ga_evolve] never ends -- whatever the number of
    steps granted, the call has not returned. *)
Theorem evolve_never_selects (ga : micro_ga_t W) (w : W) (r : rng) (f : fitness_fn_t W)
    (inds : list micro_ga_genome_t) :
  engine_wf ga inds -> 2 <= population_size ga -> fitness_fn ga = Some f ->
  Forall (fun g => exists s, fitness g = S754_zero s) (eval_list f inds w).1 \/
  Exists (fun g => is_nan (fitness g) = true) (eval_list f inds w).1 \/
  (rand_in_range r /\
   exists s, total_fitness (Z.to_nat (population_size ga)) 0
               (qsort _ genome_compare (eval_list f inds w).1) d_zero = S754_zero s) ->
  forall fuel : nat, micro_ga_evolve qsort fuel all_allocated ga w r = OutOfFuel.
Proof.
  intros (Hready & _ & Hp & Hg & Hi & Hlen & _) Hp2 Hf Hfit fuel.
  unfold micro_ga_evolve. rewrite Hready, Hf, Hi. change (1 =? 1) with true.
  cbn [negb all_allocated children_ok prob_ok parents_ok andb orb].
  rewrite evaluate_eval_list by lia. rewrite take_0, drop_0, app_nil_l.
  pose proof (eval_list_length f inds w) as Hel.
  destruct (eval_list f inds w) as [inds1 w1]. cbn [fst snd] in *.
  unfold sort_individuals. rewrite take_ge, drop_ge by lia. rewrite app_nil_r.
  set (sorted := qsort _ genome_compare inds1) in *.
  assert (Hperm : sorted ≡ₚ inds1) by apply qsort_perm.
  assert (Hslen : length sorted = length inds) by (by rewrite Hperm).
  rewrite (u32_small (population_size ga - 1)) by lia.
  rewrite (u32_small (population_size ga * 2)) by lia.
  set (psize := population_size ga) in *.
  assert (Hstuck : (forall j : nat, (j < Z.to_nat psize)%nat ->
                      is_nan (selection_distribution psize sorted !!! j) = true) ->
            select_parents fuel psize (psize - 1) 0 0 (selection_distribution psize sorted)
              (replicate (Z.to_nat (psize * 2)) 0%nat) r = OutOfFuel).
  { intros Hprob. apply select_parents_stuck; [done|lia|].
    rewrite !lookup_total_replicate_2 by lia. done. }
  destruct Hfit as [Hzero|[Hnan|[Hrange [s Htotal]]]].
  - rewrite Hstuck; [done|]. intros j Hj. unfold selection_distribution.
    apply cumulative_prob_nan; [rewrite length_replicate; lia| |lia].
    apply dadd_nan_r. rewrite <- Hperm in Hzero.
    destruct (total_fitness_zero sorted (Z.to_nat psize) 0 d_zero Hzero ltac:(lia))
      as [s ->]; [by eexists|].
    destruct (lookup_lt_is_Some_2 sorted 0 ltac:(lia)) as [g0 Hg0].
    rewrite (list_lookup_total_correct _ _ _ Hg0).
    rewrite Forall_forall in Hzero. destruct (Hzero g0) as [s0 ->].
    { by eapply list_elem_of_lookup_2. }
    by destruct s, s0.
  - rewrite Hstuck; [done|]. intros j Hj. unfold selection_distribution.
    apply cumulative_prob_nan; [rewrite length_replicate; lia| |lia].
    apply dadd_nan_r, ddiv_nan_r, total_fitness_nan. right.
    rewrite <- Hperm in Hnan. apply Exists_exists in Hnan as (g & Hin & Hgnan).
    apply list_elem_of_lookup_1 in Hin as [j' Hj'].
    exists j'. split; [apply lookup_lt_Some in Hj'; lia|].
    by rewrite (list_lookup_total_correct _ _ _ Hj').
  - set (prob := selection_distribution psize sorted).
    set (first := dadd d_zero (ddiv (double_of_float (fitness (sorted !!! 0%nat)))
                                 (S754_zero s))).
    assert (Hfirst : prob !! 0%nat = Some first).
    { unfold prob, selection_distribution. rewrite Htotal.
      destruct (cumulative_prob_spec sorted (S754_zero s) (Z.to_nat psize) 0 d_zero
                  (replicate (Z.to_nat psize) (S754_zero false)))
        as (_ & _ & H0 & _); [rewrite length_replicate; lia|].
      apply H0. lia. }
    assert (Hcases : never_reached first = true \/ first = S754_infinity false).
    { unfold first.
      pose proof (ddiv_by_zero (double_of_float (fitness (sorted !!! 0%nat))) s) as Hq.
      destruct (ddiv _ (S754_zero s)) as [[]|[]| |[] m e]; try discriminate Hq; auto. }
    assert (Hdraw : forall k : Z, 0 <= k <= RAND_MAX -> fle d_zero (unit_double k) = true).
    { intros k Hk. by apply unit_double_range. }
    destruct Hcases as [Hnever|Hinf].
    + rewrite (select_parents_constant psize (psize - 1) prob 0 0 None fuel);
        [done| |lia|done|rewrite length_replicate; lia|].
      * intros k Hk. apply roulette_none. intros j Hj.
        apply fle_never_reached; [by apply Hdraw|].
        unfold prob, selection_distribution. rewrite Htotal.
        apply cumulative_prob_never_reached;
          [rewrite length_replicate; lia| |done|lia].
        intros i. apply ddiv_by_zero.
      * intros _. rewrite !lookup_total_replicate_2 by lia. done.
    + rewrite (select_parents_constant psize (psize - 1) prob 0 0 (Some 0%nat) fuel);
        [done| |lia|done|rewrite length_replicate; lia|done].
      intros k Hk. destruct (Z.to_nat psize) as [|k'] eqn:Ek; [lia|].
      cbn [roulette]. rewrite (list_lookup_total_correct _ _ _ Hfirst), Hinf.
      by rewrite fle_plus_infinity by (by apply Hdraw).
Qed.

(** X10. A population of one: [micro_ga_evolve] evaluates the individual
    and returns; nothing is selected, bred or replaced, and no random number
    is drawn. *)
Theorem evolve_single_individual (fuel : nat) (ga : micro_ga_t W) (w : W) (r : rng)
    (f : fitness_fn_t W) (g : micro_ga_genome_t) :
  ready ga = 1 -> fitness_fn ga = Some f -> population_size ga = 1 ->
  individuals ga = Some [g] -> (0 < fuel)%nat ->
  micro_ga_evolve qsort fuel all_allocated ga w r
  = Returned {| engine := set_individuals ga (Some [(f w g).2]);
                world := (f w g).1; random := r; stderr := [] |}.
Proof.
  intros Hready Hf Hp Hi Hfuel.
  unfold micro_ga_evolve. rewrite Hready, Hf, Hi, Hp. change (1 =? 1) with true.
  cbn [negb all_allocated children_ok prob_ok parents_ok andb orb].
  change (Z.to_nat 1) with 1%nat. cbn [evaluate].
  change ([g] !!! 0%nat) with g. destruct (f w g) as [w' g']. cbn [fst snd].
  unfold sort_individuals. change (Z.to_nat 1) with 1%nat.
  cbn [take drop insert list_insert app]. rewrite app_nil_r.
  assert (Hsort : qsort _ genome_compare [g'] = [g']).
  { apply Permutation_singleton_r. apply qsort_perm. }
  rewrite Hsort. change (u32 (1 - 1)) with 0.
  destruct fuel as [|fuel]; [lia|]. cbn [select_parents]. change (0 <? 0) with false.
  cbv iota. change (Z.to_nat (u32 (0 * 2) / 2)) with 0%nat. cbn [breed].
  change (Z.to_nat 0) with 0%nat. cbn [mutate_children replace_individuals].
  done.
Qed.

(** X11. An initialized engine stays one: with its scratch arrays
    allocated and an objective function that only assigns the fitness,
    [micro_ga_evolve] neither fails its assertions nor reads or writes out of
    bounds; unless the selection loop is still drawing when the steps granted
    end, it returns an engine that is initialized again, ready for the next
    generation. *)
Theorem evolve_keeps_engine_initialized (fuel : nat) (ga : micro_ga_t W) (w : W)
    (r : rng) (f : fitness_fn_t W) (inds : list micro_ga_genome_t) :
  engine_wf ga inds -> fitness_fn ga = Some f -> assigns_fitness_only f ->
  micro_ga_evolve qsort fuel all_allocated ga w r = OutOfFuel \/
  exists (st : run W) (inds' : list micro_ga_genome_t),
    micro_ga_evolve qsort fuel all_allocated ga w r = Returned st /\
    engine_wf (engine st) inds' /\
    fitness_fn (engine st) = Some f.
Proof.
  intros Hwf Hf Hfit.
  destruct (micro_ga_evolve_progress qsort fuel ga w r inds Hwf) as [Hout|[st Hst]];
    [by left|right].
  destruct (evolve_population_shape qsort qsort_perm fuel all_allocated ga w r f inds st
              Hwf Hf Hfit Hst) as (inds' & He & Hlen & Hall).
  destruct Hwf as (Hready & Hsome & Hp & Hg & Hi & Hl & _).
  exists st, inds'. split; [done|]. rewrite He. unfold engine_wf.
  cbn [set_individuals ready fitness_fn population_size ga_genome_size individuals].
  split; [|done].
  split; [done|]. split; [done|]. split; [done|]. split; [done|].
  split; [done|]. split; [lia|done].
Qed.

End Stalling.

Lemma zero_fitness_engine_wf : engine_wf zero_fitness_engine sample_population.
Proof.
  unfold engine_wf. cbn [zero_fitness_engine ready fitness_fn population_size
                         ga_genome_size individuals].
  split; [done|]. split; [by eexists|]. split; [lia|]. split; [lia|].
  split; [done|]. split; [done|].
  repeat constructor.
Qed.

(** X9, the witness: the sample population under an objective function
    that answers zero. *)
Lemma evolve_never_selects_witness :
  micro_ga_evolve insertion_sort 1000 all_allocated zero_fitness_engine 0%nat lcg_rng
  = OutOfFuel.
Proof.
  refine (evolve_never_selects insertion_sort insertion_sort_perm zero_fitness_engine
            0%nat lcg_rng zero_fitness sample_population _ _ _ _ 1000%nat).
  - exact zero_fitness_engine_wf.
  - cbn. lia.
  - reflexivity.
  - left. cbn. repeat constructor; by exists false.
Defined.

(** X10, the witness: an engine with one individual. *)
Lemma evolve_single_individual_witness :
  micro_ga_evolve insertion_sort 1 all_allocated lone_engine 0%nat lcg_rng
  = Returned
      {| engine :=
           set_individuals lone_engine
             (Some [(sum_fitness 0%nat (sample_genome 1073741824 536870912)).2]);
         world := (sum_fitness 0%nat (sample_genome 1073741824 536870912)).1;
         random := lcg_rng; stderr := [] |}.
Proof.
  apply (evolve_single_individual insertion_sort insertion_sort_perm 1 lone_engine
           0%nat lcg_rng sum_fitness (sample_genome 1073741824 536870912)).
  - reflexivity.
  - reflexivity.
  - reflexivity.
  - reflexivity.
  - lia.
Defined.

(** X11, the witness: the sample engine, which returns. *)
Lemma evolve_keeps_engine_initialized_witness :
  micro_ga_evolve insertion_sort 100 all_allocated sample_engine 0%nat lcg_rng = OutOfFuel \/
  exists (st : run nat) (inds' : list micro_ga_genome_t),
    micro_ga_evolve insertion_sort 100 all_allocated sample_engine 0%nat lcg_rng
      = Returned st /\
    engine_wf (engine st) inds' /\
    fitness_fn (engine st) = Some sum_fitness.
Proof.
  apply (evolve_keeps_engine_initialized insertion_sort insertion_sort_perm 100
           sample_engine 0%nat lcg_rng sum_fitness sample_population).
  - exact sample_engine_wf.
  - reflexivity.
  - exact sum_fitness_assigns_fitness_only.
Defined.

(** ** The initial population *)

(** Seeding slot [n] when the generator has served the [n] slots before. *)
Lemma seed_genome_at (gsize : Z) (g : micro_ga_genome_t) (r0 : rng) (n : nat) :
  blank gsize g ->
  seeded_at gsize r0 n (seed_genome g (advance (n * Z.to_nat gsize) r0)).1 /\
  (seed_genome g (advance (n * Z.to_nat gsize) r0)).2
    = advance (S n * Z.to_nat gsize) r0.
Proof.
  intros (Hs & Hl & Hf). unfold seed_genome.
  destruct (seed_genes_spec (Z.to_nat (genome_size g)) 0 (genes g)
              (advance (n * Z.to_nat gsize) r0)) as (Hr & Hlen & Hget).
  destruct (seed_genes _ _ _ _) as [gs r']. cbn [fst snd] in *.
  split.
  - split.
    + unfold blank. cbn [genome_size genes fitness]. split; [done|]. split; [lia|done].
    + intros j Hj. cbn [genes]. rewrite Hget, decide_True by lia.
      destruct (lookup_lt_is_Some_2 (genes g) j ltac:(lia)) as [x ->].
      cbn [fmap option_fmap option_map advance tape cursor].
      do 3 f_equal. lia.
  - rewrite Hr, Hs, advance_advance. f_equal. lia.
Qed.

Lemma population_init_loop_in_order {W : Type} (psize gsize : Z) (r0 : rng) (m : nat) :
  forall (fuel n : nat) (inds : list micro_ga_genome_t) (w : W),
    0 <= gsize < 2 ^ 32 -> Z.of_nat (length inds) = psize ->
    (Z.to_nat psize - n <= m)%nat -> (m <= fuel)%nat -> (n <= Z.to_nat psize)%nat ->
    (forall i g, inds !! i = Some g ->
       if decide (i < n)%nat then seeded_at gsize r0 i g else blank gsize g) ->
    exists inds' : list micro_ga_genome_t,
      population_init_loop fuel psize None n inds w (advance (n * Z.to_nat gsize) r0)
        = Returned (inds', w, advance (Z.to_nat psize * Z.to_nat gsize) r0) /\
      length inds' = length inds /\
      forall i g, inds' !! i = Some g -> seeded_at gsize r0 i g.
Proof.
  induction m as [|m IH]; intros fuel n inds w Hg Hlen Hm Hfuel Hn Hinv.
  - assert (Hdone : (Z.of_nat n <? psize) = false) by (apply Z.ltb_ge; lia).
    assert (n = Z.to_nat psize) as -> by lia.
    exists inds. destruct fuel; cbn [population_init_loop]; rewrite Hdone.
    all: split; [done|]; split; [done|].
    all: intros i g Hi; specialize (Hinv i g Hi).
    all: apply lookup_lt_Some in Hi; rewrite decide_True in Hinv by lia; done.
  - destruct (Z.ltb_spec (Z.of_nat n) psize) as [Hlt|Hge].
    + destruct fuel as [|fuel]; [lia|]. cbn [population_init_loop].
      replace (Z.of_nat n <? psize) with true by (symmetry; apply Z.ltb_lt; lia).
      destruct (lookup_lt_is_Some_2 inds n ltac:(lia)) as [g Hgn].
      rewrite (list_lookup_total_correct _ _ _ Hgn).
      pose proof (Hinv n g Hgn) as Hblank. rewrite decide_False in Hblank by lia.
      destruct (seed_genome_at gsize g r0 n Hblank) as [Hseeded Hr].
      destruct Hblank as (Hs & _ & _).
      replace (2 ^ 32 <=? genome_size g) with false by (symmetry; apply Z.leb_gt; lia).
      destruct (seed_genome g _) as [g1 r1]. cbn [fst snd] in *. subst r1.
      destruct (IH fuel (S n) (<[n := g1]> inds) w) as (inds' & Hloop & Hl & Hall).
      * done.
      * by rewrite length_insert.
      * lia.
      * lia.
      * lia.
      * intros i gi Hi. destruct (decide (i = n)) as [->|Hne].
        -- rewrite list_lookup_insert_eq in Hi by lia. injection Hi as <-.
           rewrite decide_True by lia. done.
        -- rewrite list_lookup_insert_ne in Hi by done. specialize (Hinv i gi Hi).
           destruct (decide (i < n)%nat), (decide (i < S n)%nat); try lia; done.
      * exists inds'. rewrite length_insert in Hl. done.
    + assert (Hdone : (Z.of_nat n <? psize) = false) by (apply Z.ltb_ge; lia).
      assert (n = Z.to_nat psize) as -> by lia.
      exists inds. destruct fuel; cbn [population_init_loop]; rewrite Hdone.
      all: split; [done|]; split; [done|].
      all: intros i g Hi; specialize (Hinv i g Hi).
      all: apply lookup_lt_Some in Hi; rewrite decide_True in Hinv by lia; done.
Qed.

(** X12. The initial population without acceptance function is read off
    the stream of [rand()]: gene [j] of individual [i] is the draw number
    [i * genome_size + j], divided by [RAND_MAX + 1] in single precision; the
    call consumes [population_size * genome_size] draws and no more; with
    results of [rand()] in their range every gene lies in the closed interval
    from 0 to 1; and every fitness is [-1.0]. *)
Theorem micro_ga_init_seeds_in_order {W : Type} (fuel : nat) (ga : micro_ga_t W)
    (config : micro_ga_config_t W) (w : W) (r : rng) :
  ~ config_invalid config ->
  cfg_acceptance_fn config = None ->
  0 <= cfg_population_size config < 2 ^ 32 ->
  0 <= cfg_genome_size config < 2 ^ 32 ->
  (Z.to_nat (cfg_population_size config) <= fuel)%nat ->
  let psize := Z.to_nat (cfg_population_size config) in
  let gsize := Z.to_nat (cfg_genome_size config) in
  exists (g : micro_ga_t W) (inds : list micro_ga_genome_t),
    micro_ga_init fuel true (Some ga) (Some config) w r
      = Returned (0, Some g, w, advance (psize * gsize) r) /\
    individuals g = Some inds /\ length inds = psize /\
    forall (i : nat) (gi : micro_ga_genome_t), inds !! i = Some gi ->
      fitness gi = f_minus_one /\ length (genes gi) = gsize /\
      forall (j : nat) (x : float), genes gi !! j = Some x ->
        x = unit_float (tape r (cursor r + i * gsize + j)%nat) /\
        (rand_in_range r -> unit_gene x).
Proof.
  intros Hvalid Hnone Hp Hg Hfuel psize gsize.
  unfold micro_ga_init. rewrite (config_accepted config Hvalid). cbn [negb].
  unfold population_init.
  cbn [set_individuals individuals population_size acceptance_fn configured].
  rewrite Hnone.
  destruct (population_init_loop_in_order (W := W) (cfg_population_size config)
              (cfg_genome_size config) r psize fuel 0
              (replicate psize (blank_individual (cfg_genome_size config))) w)
    as (inds' & Hloop & Hlen & Hall).
  - done.
  - rewrite length_replicate. unfold psize. lia.
  - unfold psize. lia.
  - done.
  - lia.
  - intros i g Hi. apply lookup_replicate in Hi as [-> _].
    rewrite decide_False by lia. unfold blank, blank_individual.
    cbn [genome_size genes fitness]. rewrite length_replicate.
    split; [done|]. split; [lia|done].
  - change (0 * Z.to_nat (cfg_genome_size config))%nat with 0%nat in Hloop.
    rewrite advance_0 in Hloop. fold psize. rewrite Hloop.
    rewrite length_replicate in Hlen.
    eexists _, inds'. split; [reflexivity|].
    cbn [set_ready set_individuals individuals]. split; [done|]. split; [done|].
    intros i gi Hi. destruct (Hall i gi Hi) as ((Hs & Hl & Hf) & Hgenes).
    split; [done|]. split; [unfold gsize; lia|].
    intros j x Hx.
    assert (Hj : (j < Z.to_nat (cfg_genome_size config))%nat)
      by (apply lookup_lt_Some in Hx; lia).
    rewrite (Hgenes j Hj) in Hx. injection Hx as <-. split; [done|].
    intros Hrange. apply unit_float_range, Hrange.
Qed.

(** X12, the witness: the sample configuration. *)
Lemma micro_ga_init_seeds_in_order_witness :
  exists (g : micro_ga_t nat) (inds : list micro_ga_genome_t),
    micro_ga_init 4 true (Some (zeroed_engine nat)) (Some sample_config) 0%nat lcg_rng
      = Returned (0, Some g, 0%nat, advance (4 * 2) lcg_rng) /\
    individuals g = Some inds /\ length inds = 4%nat /\
    forall (i : nat) (gi : micro_ga_genome_t), inds !! i = Some gi ->
      fitness gi = f_minus_one /\ length (genes gi) = 2%nat /\
      forall (j : nat) (x : float), genes gi !! j = Some x ->
        x = unit_float (tape lcg_rng (cursor lcg_rng + i * 2 + j)%nat) /\
        (rand_in_range lcg_rng -> unit_gene x).
Proof.
  apply (micro_ga_init_seeds_in_order 4 (zeroed_engine nat) sample_config 0%nat lcg_rng).
  - intros [H|[H|[H|[H|[H|H]]]]]; discriminate H.
  - reflexivity.
  - cbn. lia.
  - cbn. lia.
  - cbn. lia.
Defined.

(** The slots below [n] hold genomes that the acceptance function has let
    through. *)
Lemma population_init_loop_accepted {W : Type} (psize : Z) (acc : acceptance_fn_t W)
    (fuel : nat) :
  forall (n : nat) (inds inds' : list micro_ga_genome_t) (w w' : W) (r r' : rng),
    population_init_loop fuel psize (Some acc) n inds w r = Returned (inds', w', r') ->
    (forall i g, (i < n)%nat -> inds !! i = Some g -> accepted acc g) ->
    forall i g, Z.of_nat i < psize -> inds' !! i = Some g -> accepted acc g.
Proof.
  induction fuel as [|fuel IH]; intros n inds inds' w w' r r'; cbn [population_init_loop].
  - destruct (Z.ltb_spec (Z.of_nat n) psize) as [Hlt|Hge]; [done|].
    intros [= <- <- <-] Hinv i g Hi. apply Hinv. lia.
  - destruct (Z.ltb_spec (Z.of_nat n) psize) as [Hlt|Hge].
    2:{ intros [= <- <- <-] Hinv i g Hi. apply Hinv. lia. }
    destruct (2 ^ 32 <=? _); [done|].
    destruct (seed_genome _ r) as [g r1].
    destruct (acc w g) as [[w1 g1] a] eqn:Eacc.
    destruct (a =? 0) eqn:Ea; intros Hloop Hinv; eapply IH; try exact Hloop.
    + intros i gi Hi Hgi. rewrite list_lookup_insert_ne in Hgi by lia. by eapply Hinv.
    + intros i gi Hi Hgi. destruct (decide (i = n)) as [->|Hne].
      * destruct (decide (n < length inds)%nat) as [Hin|Hout].
        -- rewrite list_lookup_insert_eq in Hgi by done. injection Hgi as <-.
           exists w, g, w1, a. split; [done|]. by apply Z.eqb_neq.
        -- rewrite list_insert_ge in Hgi by lia.
           apply lookup_lt_Some in Hgi. lia.
      * rewrite list_lookup_insert_ne in Hgi by done. eapply Hinv; [|done]. lia.
Qed.

(** X13. When [micro_ga_init] succeeds with an acceptance function, every
    individual of the population has been let through by it: it is the
    genome as the function left it in a call where it answered non-zero.  For
    a filter that asks a predicate, every individual satisfies the
    predicate. *)
Theorem micro_ga_init_population_accepted {W : Type} (fuel : nat) (ga : micro_ga_t W)
    (config : micro_ga_config_t W) (acc : acceptance_fn_t W) (w w' : W) (r r' : rng)
    (g : micro_ga_t W) :
  cfg_acceptance_fn config = Some acc ->
  0 <= cfg_population_size config ->
  micro_ga_init fuel true (Some ga) (Some config) w r = Returned (0, Some g, w', r') ->
  exists inds : list micro_ga_genome_t,
    individuals g = Some inds /\
    Z.of_nat (length inds) = cfg_population_size config /\
    Forall (accepted acc) inds /\
    forall p : micro_ga_genome_t -> bool,
      acc = filter_of p -> Forall (fun gi => p gi = true) inds.
Proof.
  intros Hacc Hp. unfold micro_ga_init, population_init.
  destruct (config_rejected config); [done|]. cbn [negb].
  cbn [set_individuals individuals population_size acceptance_fn configured].
  rewrite Hacc.
  destruct (population_init_loop _ _ _ _ _ _ _) as [[[inds' w1] r1]| | | |] eqn:Eloop;
    try done.
  intros [= <- <- <-]. exists inds'. cbn [set_ready set_individuals individuals].
  pose proof (population_init_loop_length _ _ _ _ _ _ _ _ _ _ Eloop) as Hlen.
  rewrite length_replicate in Hlen.
  assert (Hall : Forall (accepted acc) inds').
  { apply Forall_lookup_2. intros i gi Hi.
    apply (population_init_loop_accepted _ _ _ _ _ _ _ _ _ _ Eloop) with (i := i).
    - intros j gj Hj. lia.
    - apply lookup_lt_Some in Hi. lia.
    - exact Hi. }
  split; [done|]. split; [lia|]. split; [done|].
  intros p ->. eapply Forall_impl; [exact Hall|].
  intros gi (w0 & g0 & w0' & a & Hcall & Ha). unfold filter_of in Hcall.
  injection Hcall as _ <- <-. by destruct (p g0).
Qed.

Lemma filtered_init_returned :
  micro_ga_init 100 true (Some (zeroed_engine nat)) (Some filtered_config) 0%nat lcg_rng
  = Returned filtered_init.
Proof.
  assert (Hret : is_returned
            (micro_ga_init 100 true (Some (zeroed_engine nat)) (Some filtered_config)
               0%nat lcg_rng) = true) by (vm_compute; reflexivity).
  unfold filtered_init.
  destruct (micro_ga_init 100 true (Some (zeroed_engine nat)) (Some filtered_config)
              0%nat lcg_rng); [reflexivity|discriminate..].
Qed.

(** A seeding loop whose filter never accepts is still at slot [0] when the
    steps granted end. *)
Lemma population_init_loop_rejecting {W : Type} (psize gsize : Z)
    (p : micro_ga_genome_t -> bool) (w : W) (fuel : nat) :
  0 < psize -> 0 <= gsize < 2 ^ 32 ->
  (forall g : micro_ga_genome_t,
     Z.of_nat (length (genes g)) = gsize -> Forall unit_gene (genes g) -> p g = false) ->
  forall (inds : list micro_ga_genome_t) (r : rng),
    rand_in_range r ->
    (exists g, inds !! 0%nat = Some g /\ blank gsize g) ->
    population_init_loop fuel psize (Some (filter_of p)) 0 inds w r = OutOfFuel.
Proof.
  intros Hp Hg Hrej. induction fuel as [|fuel IH]; intros inds r Hrange (g & Hg0 & Hblank);
    cbn [population_init_loop].
  - replace (Z.of_nat 0 <? psize) with true by (symmetry; apply Z.ltb_lt; lia). done.
  - replace (Z.of_nat 0 <? psize) with true by (symmetry; apply Z.ltb_lt; lia).
    rewrite (list_lookup_total_correct _ _ _ Hg0).
    destruct Hblank as (Hs & Hl & Hf).
    replace (2 ^ 32 <=? genome_size g) with false by (symmetry; apply Z.leb_gt; lia).
    unfold seed_genome.
    destruct (seed_genes_spec (Z.to_nat (genome_size g)) 0 (genes g) r)
      as (Hr & Hlen & Hget).
    destruct (seed_genes _ _ _ _) as [gs r1]. cbn [fst snd] in *.
    unfold filter_of. rewrite Hrej.
    + change (0 =? 0) with true. cbv iota. apply IH.
      * subst r1. intros i. apply Hrange.
      * eexists. split.
        -- apply list_lookup_insert_eq. by eapply lookup_lt_Some.
        -- unfold blank. cbn [genome_size genes fitness]. split; [done|]. split; [lia|done].
    + cbn [genes]. lia.
    + cbn [genes]. apply Forall_lookup_2. intros j x Hx.
      assert (Hj : (j < length gs)%nat) by (by eapply lookup_lt_Some).
      rewrite Hget, decide_True in Hx by lia.
      destruct (genes g !! j); [|done]. cbn in Hx. injection Hx as <-.
      apply unit_float_range, Hrange.
Qed.

(** X14. There is no limit to the candidates drawn for a slot: with a
    filter that no genome with genes between 0 and 1 can pass,
    [micro_ga_init] draws and rejects for ever -- whatever the number of
    steps granted, the call has not returned. *)
Theorem micro_ga_init_unmeetable_filter {W : Type} (ga : micro_ga_t W)
    (config : micro_ga_config_t W) (p : micro_ga_genome_t -> bool) (w : W) (r : rng) :
  ~ config_invalid config ->
  cfg_acceptance_fn config = Some (filter_of p) ->
  0 <= cfg_population_size config -> 0 <= cfg_genome_size config < 2 ^ 32 ->
  rand_in_range r ->
  (forall g : micro_ga_genome_t,
     Z.of_nat (length (genes g)) = cfg_genome_size config ->
     Forall unit_gene (genes g) -> p g = false) ->
  forall fuel : nat,
    micro_ga_init fuel true (Some ga) (Some config) w r = OutOfFuel.
Proof.
  intros Hvalid Hacc Hp Hg Hrange Hrej fuel.
  unfold micro_ga_init. rewrite (config_accepted config Hvalid). cbn [negb].
  unfold population_init.
  cbn [set_individuals individuals population_size acceptance_fn configured].
  rewrite Hacc.
  assert (Hpos : 0 < cfg_population_size config).
  { unfold config_invalid in Hvalid. lia. }
  rewrite (population_init_loop_rejecting (cfg_population_size config)
             (cfg_genome_size config) p w fuel Hpos Hg Hrej); [done|done|].
  exists (blank_individual (cfg_genome_size config)). split.
  - apply lookup_replicate. split; [done|lia].
  - unfold blank, blank_individual. cbn [genome_size genes fitness].
    rewrite length_replicate. split; [done|]. split; [lia|done].
Qed.

(** X13, the witness: the sample configuration with a filter that wants
    the first gene above one half. *)
Lemma micro_ga_init_population_accepted_witness :
  exists (g : micro_ga_t nat) (inds : list micro_ga_genome_t),
    filtered_init.1.1.2 = Some g /\
    individuals g = Some inds /\
    Z.of_nat (length inds) = 4 /\
    Forall (accepted (filter_of (W := nat) first_gene_high)) inds /\
    forall p : micro_ga_genome_t -> bool,
      filter_of (W := nat) first_gene_high = filter_of p ->
      Forall (fun gi => p gi = true) inds.
Proof.
  pose proof filtered_init_returned as Hret.
  assert (Hcode : match filtered_init with
                  | (0, Some _, _, _) => true
                  | _ => false
                  end = true).
  { vm_compute. reflexivity. }
  destruct filtered_init as [[[code g] w'] r']. destruct code; try discriminate Hcode.
  destruct g as [g|]; [|discriminate Hcode].
  exists g. cbn [fst snd].
  destruct (micro_ga_init_population_accepted 100 (zeroed_engine nat) filtered_config
              (filter_of first_gene_high) 0%nat w' lcg_rng r' g eq_refl ltac:(cbn; lia) Hret)
    as (inds & Hinds). exists inds. split; [reflexivity|exact Hinds].
Defined.

(** X14, the witness: a filter that wants the first gene above one. *)
Lemma micro_ga_init_unmeetable_filter_witness :
  micro_ga_init 1000 true (Some (zeroed_engine nat)) (Some unmeetable_config)
    0%nat lcg_rng = OutOfFuel.
Proof.
  refine (micro_ga_init_unmeetable_filter (zeroed_engine nat) unmeetable_config
            first_gene_above_one 0%nat lcg_rng _ _ _ _ _ _ 1000%nat).
  - intros [H|[H|[H|[H|[H|H]]]]]; discriminate H.
  - reflexivity.
  - cbn. lia.
  - cbn. lia.
  - exact lcg_in_range.
  - intros g Hlen Hunit. unfold first_gene_above_one, gene.
    cbn [unmeetable_config cfg_genome_size] in Hlen.
    destruct (genes g) as [|x gs]; [cbn in Hlen; lia|].
    apply Forall_cons in Hunit as [[_ Hx] _]. cbn.
    change (fgt x f_one) with (flt f_one x).
    destruct (flt f_one x) eqn:E; [|done].
    apply flt_not_fle in E. congruence.
Defined.

(** ** [micro_ga_init]: the checks, and what a success leaves *)

(** The candidate that the seeding loop makes of a slot. *)
Lemma seed_genome_drawn (slot : micro_ga_genome_t) (rc r0 : rng) :
  tape rc = tape r0 ->
  drawn_from r0 (cursor rc) (seed_genome slot rc).1 /\
  exists d : nat, (seed_genome slot rc).2 = advance d rc.
Proof.
  intros Ht. unfold seed_genome.
  destruct (seed_genes_spec (Z.to_nat (genome_size slot)) 0 (genes slot) rc)
    as (Hr & Hlen & Hget).
  destruct (seed_genes _ _ _ _) as [gs r']. cbn [fst snd] in *.
  split; [|by eexists].
  intros j x Hj Hx. cbn [genome_size genes] in *.
  rewrite Hget, decide_True in Hx by lia.
  destruct (genes slot !! j); [|done]. cbn in Hx. injection Hx as <-.
  rewrite Ht. do 3 f_equal. lia.
Qed.

(** The seeding loop only draws from the generator. *)
Lemma population_init_loop_advance {W : Type} (psize : Z)
    (accept : option (acceptance_fn_t W)) (fuel : nat) :
  forall (n : nat) (inds inds' : list micro_ga_genome_t) (w w' : W) (r r' : rng),
    population_init_loop fuel psize accept n inds w r = Returned (inds', w', r') ->
    exists d : nat, r' = advance d r.
Proof.
  induction fuel as [|fuel IH]; intros n inds inds' w w' r r'; cbn [population_init_loop].
  - destruct (Z.of_nat n <? psize); [done|]. intros [= <- <- <-].
    exists 0%nat. by rewrite advance_0.
  - destruct (Z.of_nat n <? psize).
    2:{ intros [= <- <- <-]. exists 0%nat. by rewrite advance_0. }
    destruct (2 ^ 32 <=? _); [done|].
    destruct (seed_genome_drawn (inds !!! n) r r eq_refl) as [_ [d0 Hd0]].
    destruct (seed_genome _ r) as [g r1]. cbn [snd] in Hd0. subst r1.
    destruct accept as [acc|].
    + destruct (acc w g) as [[w1 g1] a]. destruct (a =? 0); intros Hl.
      all: apply IH in Hl as [d ->]; exists (d0 + d)%nat; by rewrite advance_advance.
    + intros Hl. apply IH in Hl as [d ->]. exists (d0 + d)%nat.
      by rewrite advance_advance.
Qed.

(** With an acceptance function, the slots below [n] hold accepted
    candidates, each drawn from the generator. *)
Lemma population_init_loop_candidates {W : Type} (psize : Z) (acc : acceptance_fn_t W)
    (r0 : rng) (fuel : nat) :
  forall (n : nat) (inds inds' : list micro_ga_genome_t) (w w' : W) (r r' : rng),
    population_init_loop fuel psize (Some acc) n inds w r = Returned (inds', w', r') ->
    tape r = tape r0 -> (cursor r0 <= cursor r)%nat ->
    (forall i g, (i < n)%nat -> inds !! i = Some g -> accepted_candidate acc r0 g) ->
    forall i g, Z.of_nat i < psize -> inds' !! i = Some g -> accepted_candidate acc r0 g.
Proof.
  induction fuel as [|fuel IH]; intros n inds inds' w w' r r'; cbn [population_init_loop].
  - destruct (Z.ltb_spec (Z.of_nat n) psize) as [Hlt|Hge]; [done|].
    intros [= <- <- <-] _ _ Hinv i g Hi. apply Hinv. lia.
  - destruct (Z.ltb_spec (Z.of_nat n) psize) as [Hlt|Hge].
    2:{ intros [= <- <- <-] _ _ Hinv i g Hi. apply Hinv. lia. }
    destruct (2 ^ 32 <=? _); [done|].
    intros Hloop Ht Hc Hinv.
    destruct (seed_genome_drawn (inds !!! n) r r0 Ht) as [Hdrawn [d0 Hd0]].
    destruct (seed_genome _ r) as [g r1]. cbn [fst snd] in Hdrawn, Hd0. subst r1.
    destruct (acc w g) as [[w1 g1] a] eqn:Eacc.
    destruct (a =? 0) eqn:Ea; eapply IH; try exact Hloop; try done.
    + cbn. lia.
    + intros i gi Hi Hgi. rewrite list_lookup_insert_ne in Hgi by lia. by eapply Hinv.
    + cbn. lia.
    + intros i gi Hi Hgi. destruct (decide (i = n)) as [->|Hne].
      * destruct (decide (n < length inds)%nat) as [Hin|Hout].
        -- rewrite list_lookup_insert_eq in Hgi by done. injection Hgi as <-.
           exists w, g, w1, a, (cursor r). split; [done|].
           split; [by apply Z.eqb_neq|]. done.
        -- rewrite list_insert_ge in Hgi by lia.
           apply lookup_lt_Some in Hgi. lia.
      * rewrite list_lookup_insert_ne in Hgi by done. eapply Hinv; [|done]. lia.
Qed.

(** C4. [micro_ga_init] refuses a configuration with a population size or
    genome size of zero, without objective function, or with a negative
    mutation rate, crossover rate or fitness threshold: it returns [-2], which
    is neither the [0] of success nor the [-1] of an allocation failure, and
    leaves the engine alone.  A configuration that passes the checks, once
    the population is allocated, is never refused: whenever the call returns,
    it returns [0] with the engine ready and a population of the configured
    size, the generator has only been drawn from, and with an acceptance
    function every individual is what the function made of a candidate that
    was drawn from the generator and that it accepted.  Without an acceptance
    function the call does return, and the population is seeded from the
    generator in order: gene [j] of individual [i] is the draw number
    [i * genome_size + j], divided by [RAND_MAX + 1] in single precision, a
    number from 0 to 1; every individual is marked unevaluated; and the
    generator stands [population_size * genome_size] draws further. *)
Theorem micro_ga_init_validates {W : Type} (fuel : nat) (calloc_ok : bool)
    (ga : micro_ga_t W) (config : micro_ga_config_t W) (w : W) (r : rng) :
  (config_invalid config ->
     micro_ga_init fuel calloc_ok (Some ga) (Some config) w r
       = Returned (-2, Some ga, w, r) /\ -2 <> 0 /\ -2 <> -1) /\
  (~ config_invalid config ->
     (calloc_ok = false ->
        micro_ga_init fuel calloc_ok (Some ga) (Some config) w r
          = Returned (-1, Some (configured config), w, r)) /\
     (calloc_ok = true ->
        (forall code ga' w' r',
           micro_ga_init fuel calloc_ok (Some ga) (Some config) w r
             = Returned (code, ga', w', r') ->
           code = 0 /\
           exists g inds, ga' = Some g /\ ready g = 1 /\
             individuals g = Some inds /\
             length inds = Z.to_nat (cfg_population_size config) /\
             (exists d : nat, r' = advance d r) /\
             (forall acc : acceptance_fn_t W,
                cfg_acceptance_fn config = Some acc ->
                Forall (accepted_candidate acc r) inds)) /\
        (cfg_acceptance_fn config = None ->
         0 <= cfg_population_size config < 2 ^ 32 ->
         0 <= cfg_genome_size config < 2 ^ 32 ->
         (Z.to_nat (cfg_population_size config) <= fuel)%nat ->
         let psize := Z.to_nat (cfg_population_size config) in
         let gsize := Z.to_nat (cfg_genome_size config) in
         exists g inds,
           micro_ga_init fuel calloc_ok (Some ga) (Some config) w r
             = Returned (0, Some g, w, advance (psize * gsize) r) /\
           ready g = 1 /\ individuals g = Some inds /\
           population_size g = cfg_population_size config /\
           ga_genome_size g = cfg_genome_size config /\
           fitness_fn g = cfg_fitness_fn config /\
           length inds = psize /\
           forall (i : nat) (gi : micro_ga_genome_t), inds !! i = Some gi ->
             genome_size gi = cfg_genome_size config /\
             fitness gi = f_minus_one /\
             length (genes gi) = gsize /\
             forall (j : nat) (x : float), genes gi !! j = Some x ->
               x = unit_float (tape r (cursor r + i * gsize + j)%nat) /\
               (rand_in_range r -> unit_gene x)))).
Proof.
  split.
  - intros Hinv. apply config_rejected_invalid in Hinv.
    unfold micro_ga_init. rewrite Hinv. split; [done|lia].
  - intros Hvalid.
    pose proof (config_accepted config Hvalid) as Hacc.
    unfold micro_ga_init. rewrite Hacc. split.
    + intros ->. done.
    + intros ->. cbn [negb]. unfold population_init.
      cbn [set_individuals individuals population_size acceptance_fn configured].
      split.
      * intros code ga' w' r'.
        destruct (population_init_loop _ _ _ _ _ _ _) as [[[inds' w1] r1]| | | |] eqn:El;
          try done.
        intros [= <- <- <- <-]. split; [done|].
        pose proof (population_init_loop_length _ _ _ _ _ _ _ _ _ _ El) as Hlen.
        rewrite length_replicate in Hlen.
        eexists _, inds'. cbn [set_ready set_individuals ready individuals].
        split; [done|]. split; [done|]. split; [done|]. split; [done|].
        split; [by eapply population_init_loop_advance|].
        intros acc Hsome. rewrite Hsome in El.
        apply Forall_lookup_2. intros i gi Hi.
        apply (population_init_loop_candidates _ _ r _ _ _ _ _ _ _ _ El) with (i := i).
        -- done.
        -- done.
        -- intros j gj Hj. lia.
        -- apply lookup_lt_Some in Hi. lia.
        -- exact Hi.
      * intros Hnone Hp Hg Hfuel. rewrite Hnone.
        set (psize := Z.to_nat (cfg_population_size config)).
        set (gsize := Z.to_nat (cfg_genome_size config)).
        destruct (population_init_loop_in_order (W := W) (cfg_population_size config)
                    (cfg_genome_size config) r psize fuel 0
                    (replicate psize (blank_individual (cfg_genome_size config))) w)
          as (inds' & Hloop & Hlen & Hall).
        -- done.
        -- rewrite length_replicate. unfold psize. lia.
        -- unfold psize. lia.
        -- done.
        -- lia.
        -- intros i g Hi. apply lookup_replicate in Hi as [-> _].
           rewrite decide_False by lia. unfold blank, blank_individual.
           cbn [genome_size genes fitness]. rewrite length_replicate.
           split; [done|]. split; [lia|done].
        -- change (0 * Z.to_nat (cfg_genome_size config))%nat with 0%nat in Hloop.
           rewrite advance_0 in Hloop. fold psize. rewrite Hloop.
           rewrite length_replicate in Hlen.
           eexists _, inds'. split; [reflexivity|].
           cbn [set_ready set_individuals ready individuals population_size
                ga_genome_size fitness_fn configured].
           split; [done|]. split; [done|]. split; [done|]. split; [done|].
           split; [done|]. split; [done|].
           intros i gi Hi. destruct (Hall i gi Hi) as ((Hs & Hl & Hf) & Hgenes).
           split; [done|]. split; [done|]. split; [unfold gsize; lia|].
           intros j x Hx.
           assert (Hj : (j < Z.to_nat (cfg_genome_size config))%nat)
             by (apply lookup_lt_Some in Hx; lia).
           rewrite (Hgenes j Hj) in Hx. injection Hx as <-. split; [done|].
           intros Hrange. apply unit_float_range, Hrange.
Qed.

(** C4, the witness: a negative mutation rate is refused; the sample
    configuration is accepted, and its first gene is the first draw, 12345,
    over 2^31; the configuration with a filter is accepted too. *)
Lemma micro_ga_init_validates_witness :
  (micro_ga_init 4 true (Some sample_engine) (Some negative_rate_config) 0%nat lcg_rng
     = Returned (-2, Some sample_engine, 0%nat, lcg_rng) /\ -2 <> 0 /\ -2 <> -1) /\
  (exists g inds,
     micro_ga_init 4 true (Some sample_engine) (Some sample_config) 0%nat lcg_rng
       = Returned (0, Some g, 0%nat, advance (4 * 2) lcg_rng) /\
     ready g = 1 /\ individuals g = Some inds /\
     population_size g = cfg_population_size sample_config /\
     ga_genome_size g = cfg_genome_size sample_config /\
     fitness_fn g = cfg_fitness_fn sample_config /\
     length inds = 4%nat /\
     forall (i : nat) (gi : micro_ga_genome_t), inds !! i = Some gi ->
       genome_size gi = cfg_genome_size sample_config /\
       fitness gi = f_minus_one /\
       length (genes gi) = 2%nat /\
       forall (j : nat) (x : float), genes gi !! j = Some x ->
         x = unit_float (tape lcg_rng (cursor lcg_rng + i * 2 + j)%nat) /\
         (rand_in_range lcg_rng -> unit_gene x)) /\
  unit_float (tape lcg_rng (cursor lcg_rng + 0 * 2 + 0)%nat)
    = S754_finite false 12641280 (-41) /\
  unit_float (tape lcg_rng (cursor lcg_rng + 3 * 2 + 1)%nat)
    = S754_finite false 10016938 (-24) /\
  (filtered_init.1.1.1 = 0 /\
   exists g inds,
     filtered_init.1.1.2 = Some g /\ ready g = 1 /\ individuals g = Some inds /\
     length inds = Z.to_nat (cfg_population_size filtered_config) /\
     (exists d : nat, filtered_init.2 = advance d lcg_rng) /\
     (forall acc : acceptance_fn_t nat,
        cfg_acceptance_fn filtered_config = Some acc ->
        Forall (accepted_candidate acc lcg_rng) inds)).
Proof.
  split; [|split; [|split; [|split]]]; cycle 4.
  { pose proof filtered_init_returned as Hret.
    destruct (micro_ga_init_validates 100 true (zeroed_engine nat) filtered_config
                0%nat lcg_rng) as [_ Hvalid].
    destruct Hvalid as [_ Hok].
    { intros [H|[H|[H|[H|[H|H]]]]]; discriminate H. }
    destruct (Hok eq_refl) as [Hreturns _].
    destruct filtered_init as [[[code g] w'] r']. cbn [fst snd].
    exact (Hreturns code g w' r' Hret). }
  - apply (proj1 (micro_ga_init_validates 4 true sample_engine negative_rate_config
                    0%nat lcg_rng)).
    right; right; right; left. reflexivity.
  - destruct (micro_ga_init_validates 4 true sample_engine sample_config 0%nat lcg_rng)
      as [_ Hvalid].
    destruct Hvalid as [_ Hok].
    { intros [H|[H|[H|[H|[H|H]]]]]; discriminate H. }
    destruct (Hok eq_refl) as [_ Hreturns]. apply Hreturns.
    + reflexivity.
    + cbn. lia.
    + cbn. lia.
    + cbn. lia.
  - vm_compute. reflexivity.
  - vm_compute. reflexivity.
Defined.

(** ** The operators on genes of the unit interval *)

Lemma fle_not_nan (a b : spec_float) :
  fle a b = true -> is_nan a = false /\ is_nan b = false.
Proof. by destruct a as [[]|[]| |[] ? ?], b as [[]|[]| |[] ? ?]. Qed.

Lemma fle_fle_not_flt (a b c : spec_float) :
  fle a b = true -> fle b c = true -> flt c a = false.
Proof.
  intros Hab Hbc.
  destruct (fle_not_nan _ _ Hab) as [Ha Hb]. destruct (fle_not_nan _ _ Hbc) as [_ Hc].
  unfold fle, flt, SFleb, SFltb in *.
  rewrite SFcompare_key in * by done.
  pose proof (key_compare_trans (float_key a) (float_key b) (float_key c)) as Ht.
  rewrite (key_compare_antisym (float_key a) (float_key c)).
  destruct (key_compare (float_key a) (float_key b)); try done;
    destruct (key_compare (float_key b) (float_key c)); try done;
    destruct (key_compare (float_key a) (float_key c)); try done;
    exfalso; by apply Ht.
Qed.

(** The loop of [mutate], at any rate: every gene either stays or becomes
    a draw; between one and two draws are consumed per gene. *)
Lemma mutate_genes_any (rate : float) (k : nat) :
  forall (g : nat) (gs : list float) (r : rng),
    exists d : nat, (k <= d <= 2 * k)%nat /\
      (mutate_genes k g rate gs r).2 = advance d r /\
      length (mutate_genes k g rate gs r).1 = length gs /\
      forall (i : nat) (x : float),
        (mutate_genes k g rate gs r).1 !! i = Some x ->
        gs !! i = Some x \/
        ((g <= i < g + k)%nat /\
         exists n : nat, x = float_of_double (unit_double (tape r n))).
Proof.
  induction k as [|k IH]; intros g gs r.
  - exists 0%nat. cbn [mutate_genes fst snd]. rewrite advance_0.
    split; [lia|]. split; [done|]. split; [done|]. auto.
  - cbn [mutate_genes]. rewrite drand_eq.
    destruct (flt _ (double_of_float rate)).
    + rewrite drand_eq.
      set (v := float_of_double (unit_double (tape (advance 1 r) (cursor (advance 1 r))))).
      destruct (IH (S g) (<[g := v]> gs) (advance 1 (advance 1 r)))
        as (d & Hd & Hr & Hlen & Hget).
      exists (2 + d)%nat. split; [lia|]. split.
      { rewrite Hr, !advance_advance. f_equal. }
      split; [by rewrite Hlen, length_insert|].
      intros i x Hx. destruct (Hget i x Hx) as [Hin|[Hi [n ->]]].
      * destruct (decide (i = g)) as [->|Hne].
        -- right. split; [lia|].
           assert (Hlt : (g < length gs)%nat).
           { apply lookup_lt_Some in Hin. by rewrite length_insert in Hin. }
           rewrite list_lookup_insert_eq in Hin by done. injection Hin as <-.
           by eexists.
        -- left. by rewrite list_lookup_insert_ne in Hin.
      * right. split; [lia|]. by eexists.
    + destruct (IH (S g) gs (advance 1 r)) as (d & Hd & Hr & Hlen & Hget).
      exists (1 + d)%nat. split; [lia|]. split.
      { rewrite Hr, advance_advance. f_equal. }
      split; [done|].
      intros i x Hx. destruct (Hget i x Hx) as [Hin|[Hi [n ->]]]; [by left|].
      right. split; [lia|]. by eexists.
Qed.

(** X15. [mutate] at any rate, on a genome with genes between 0 and 1:
    it returns; the size, the number of genes and the fitness are kept; every
    gene is either the one it was or a draw stored in single precision; and
    every gene is still between 0 and 1, both ends included.  Between one and
    two results of [rand()] are consumed for every gene. *)
Theorem mutate_keeps_unit_genes (individual : micro_ga_genome_t) (rate : float) (r : rng) :
  genome_size individual < 2 ^ 32 ->
  rand_in_range r ->
  Forall unit_gene (genes individual) ->
  exists (c : micro_ga_genome_t) (d : nat),
    mutate individual rate r = Returned (c, advance d r) /\
    (Z.to_nat (genome_size individual) <= d <= 2 * Z.to_nat (genome_size individual))%nat /\
    genome_size c = genome_size individual /\
    length (genes c) = length (genes individual) /\
    fitness c = fitness individual /\
    Forall unit_gene (genes c) /\
    forall (i : nat) (x : float), genes c !! i = Some x ->
      genes individual !! i = Some x \/
      exists n : nat, x = float_of_double (unit_double (tape r n)).
Proof.
  intros Hsize Hrange Hunit. unfold mutate.
  replace (2 ^ 32 <=? genome_size individual) with false by (symmetry; apply Z.leb_gt; lia).
  destruct (mutate_genes_any rate (Z.to_nat (genome_size individual)) 0
              (genes individual) r) as (d & Hd & Hr & Hlen & Hget).
  destruct (mutate_genes _ _ _ _ _) as [gs r']. cbn [fst snd] in *. subst r'.
  eexists _, d. split; [reflexivity|]. cbn [genome_size genes fitness].
  split; [done|]. split; [done|]. split; [done|]. split; [done|]. split.
  - apply Forall_lookup_2. intros i x Hx.
    destruct (Hget i x Hx) as [Hin|[_ [n ->]]].
    + rewrite Forall_forall in Hunit. apply Hunit. by eapply list_elem_of_lookup_2.
    + apply stored_draw_range, Hrange.
  - intros i x Hx. destruct (Hget i x Hx) as [Hin|[_ Hn]]; auto.
Qed.

(** X15, the witness: the genome of one gene, at the rate one half. *)
Lemma mutate_keeps_unit_genes_witness :
  exists (c : micro_ga_genome_t) (d : nat),
    mutate one_tenth_genome f_half lcg_rng = Returned (c, advance d lcg_rng) /\
    (Z.to_nat (genome_size one_tenth_genome) <= d
       <= 2 * Z.to_nat (genome_size one_tenth_genome))%nat /\
    genome_size c = genome_size one_tenth_genome /\
    length (genes c) = length (genes one_tenth_genome) /\
    fitness c = fitness one_tenth_genome /\
    Forall unit_gene (genes c) /\
    forall (i : nat) (x : float), genes c !! i = Some x ->
      genes one_tenth_genome !! i = Some x \/
      exists n : nat, x = float_of_double (unit_double (tape lcg_rng n)).
Proof.
  apply (mutate_keeps_unit_genes one_tenth_genome f_half lcg_rng).
  - cbn. lia.
  - exact lcg_in_range.
  - repeat constructor.
Defined.

(** X16. [crossover] at a rate of one or more never blends: no number
    drawn is above the rate, so every gene of the child is the mother's or
    the father's gene of the same position, bit for bit; a child of parents
    with genes between 0 and 1 has genes between 0 and 1. *)
Theorem crossover_full_rate_copies (mother father child : micro_ga_genome_t)
    (gsize : Z) (rate : float) (r : rng) :
  0 < gsize < 2 ^ 32 ->
  genome_wf mother -> genome_wf father ->
  genome_size mother = gsize -> genome_size father = gsize ->
  Z.of_nat (length (genes child)) = gsize ->
  fle f_one rate = true ->
  rand_in_range r ->
  exists c : micro_ga_genome_t,
    crossover mother father child gsize rate r
      = Returned (c, advance (2 * Z.to_nat gsize) r) /\
    length (genes c) = Z.to_nat gsize /\
    (forall n : nat, Z.of_nat n < gsize ->
       genes c !! n = genes mother !! n \/ genes c !! n = genes father !! n) /\
    (Forall unit_gene (genes mother) -> Forall unit_gene (genes father) ->
     Forall unit_gene (genes c)).
Proof.
  intros Hsize [_ Hm] [_ Hf] Hms Hfs Hc Hrate Hrange.
  destruct (crossover_genes_spec (Z.to_nat gsize) 0 mother father rate (genes child) r)
    as (Hr & Hlen & Hget).
  unfold crossover.
  replace (0 <? gsize) with true by (symmetry; apply Z.ltb_lt; lia).
  replace (2 ^ 32 <=? gsize) with false by (symmetry; apply Z.leb_gt; lia).
  cbn [negb].
  destruct (crossover_genes _ _ _ _ _ _ _) as [cg r']. cbn [fst snd] in *. subst r'.
  eexists. split; [reflexivity|]. cbn [genes].
  assert (Hcopy : forall n : nat, Z.of_nat n < gsize ->
            cg !! n = genes mother !! n \/ cg !! n = genes father !! n).
  { intros n Hn. rewrite Hget, decide_True by lia.
    destruct (lookup_lt_is_Some_2 (genes child) n ltac:(lia)) as [x0 ->].
    destruct (lookup_lt_is_Some_2 (genes mother) n ltac:(lia)) as [xm Hxm].
    destruct (lookup_lt_is_Some_2 (genes father) n ltac:(lia)) as [xf Hxf].
    cbn [fmap option_fmap option_map]. unfold crossed_gene, gene.
    rewrite (list_lookup_total_correct _ _ _ Hxm), (list_lookup_total_correct _ _ _ Hxf).
    set (u := unit_float _).
    assert (Hu : fgt u rate = false).
    { change (fgt u rate) with (flt rate u).
      apply (fle_fle_not_flt u f_one rate); [|done].
      apply unit_float_range, Hrange. }
    rewrite Hu, Hxm, Hxf. destruct (fgt _ d_half); auto. }
  split; [lia|]. split; [done|].
  intros Hmu Hfu. apply Forall_lookup_2. intros n x Hx.
  assert (Hn : Z.of_nat n < gsize) by (apply lookup_lt_Some in Hx; lia).
  rewrite Forall_forall in Hmu, Hfu.
  destruct (Hcopy n Hn) as [H|H]; rewrite H in Hx.
  - apply Hmu. by eapply list_elem_of_lookup_2.
  - apply Hfu. by eapply list_elem_of_lookup_2.
Qed.

(** X16, the witness: two parents of one gene, at the rate one. *)
Lemma crossover_full_rate_copies_witness :
  exists c : micro_ga_genome_t,
    crossover one_tenth_genome (with_fitness f_half) (fresh_child 1) 1 f_one lcg_rng
      = Returned (c, advance (2 * Z.to_nat 1) lcg_rng) /\
    length (genes c) = Z.to_nat 1 /\
    (forall n : nat, Z.of_nat n < 1 ->
       genes c !! n = genes one_tenth_genome !! n \/
       genes c !! n = genes (with_fitness f_half) !! n) /\
    (Forall unit_gene (genes one_tenth_genome) ->
     Forall unit_gene (genes (with_fitness f_half)) ->
     Forall unit_gene (genes c)).
Proof.
  apply (crossover_full_rate_copies one_tenth_genome (with_fitness f_half)
           (fresh_child 1) 1 f_one lcg_rng).
  - lia.
  - split; cbn; lia.
  - split; cbn; lia.
  - reflexivity.
  - reflexivity.
  - reflexivity.
  - reflexivity.
  - exact lcg_in_range.
Defined.

(** ** The survivor of a generation *)

Section Survivor.

Context {W : Type}.
Variable qsort : forall A : Type, (A -> A -> Z) -> list A -> list A.
Hypothesis qsort_perm :
  forall (A : Type) (cmp : A -> A -> Z) (l : list A), qsort A cmp l ≡ₚ l.
Hypothesis qsort_sorted :
  forall (A : Type) (cmp : A -> A -> Z) (l : list A),
    total_ordering cmp l -> StronglySorted (fun a b => cmp a b <= 0) (qsort A cmp l).

(** The population after a call that returns, slot by slot: children
    marked unevaluated below the last slot, and in the last slot a best
    individual of the population as the objective function has scored it in
    this call. *)
Lemma evolve_slots (fuel : nat) (heap : scratch) (ga : micro_ga_t W) (w : W)
    (r : rng) (f : fitness_fn_t W) (inds : list micro_ga_genome_t) (st : run W) :
  engine_wf ga inds -> fitness_fn ga = Some f ->
  Forall (fun g => is_nan (fitness g) = false) (eval_list f inds w).1 ->
  micro_ga_evolve qsort fuel heap ga w r = Returned st ->
  exists (inds' : list micro_ga_genome_t) (elite : micro_ga_genome_t),
    individuals (engine st) = Some inds' /\
    length inds' = length inds /\
    inds' !! Z.to_nat (population_size ga - 1) = Some elite /\
    elite ∈ (eval_list f inds w).1 /\
    (forall g, g ∈ (eval_list f inds w).1 -> fle (fitness g) (fitness elite) = true) /\
    (forall (i : nat) (g : micro_ga_genome_t),
       (i < Z.to_nat (population_size ga - 1))%nat -> inds' !! i = Some g ->
       fitness g = f_minus_one).
Proof.
  intros (Hready & _ & Hp & Hg & Hi & Hlen & Hshape) Hf Hnan Hev.
  destruct (micro_ga_evolve_returned qsort fuel heap ga w r f inds st Hf Hi Hlen Hp Hev)
    as (parents & pc & r1 & ch1 & r2 & ch2 & _ & _ & _ & He & _).
  pose proof (eval_list_length f inds w) as Hel.
  set (scored := (eval_list f inds w).1) in *.
  set (sorted := qsort _ genome_compare scored) in *.
  assert (Hperm : sorted ≡ₚ scored) by apply qsort_perm.
  assert (Hss : StronglySorted (fun a b => genome_compare a b <= 0) sorted)
    by (apply qsort_sorted; by apply genome_compare_total_ordering).
  assert (Hslen : length sorted = length inds) by (by rewrite Hperm).
  set (last := Z.to_nat (population_size ga - 1)) in *.
  destruct (lookup_lt_is_Some_2 sorted last ltac:(lia)) as [elite Helite].
  assert (Hin : elite ∈ scored).
  { rewrite <- Hperm. by eapply list_elem_of_lookup_2. }
  rewrite Forall_forall in Hnan.
  exists (replace_individuals last 0 ch2 sorted), elite.
  rewrite He. cbn [set_individuals individuals]. split; [done|].
  split. { by rewrite replace_individuals_length. }
  split. { rewrite replace_individuals_lookup, decide_False by lia. done. }
  split; [done|]. split.
  - intros g Hgin. apply genome_compare_le; [auto..|].
    rewrite <- Hperm in Hgin. apply list_elem_of_lookup_1 in Hgin as [j Hj].
    assert (j < last \/ j = last)%nat as [Hlt| ->]
      by (apply lookup_lt_Some in Hj; lia).
    + by apply (StronglySorted_lookup _ _ Hss j last).
    + assert (g = elite) as -> by congruence.
      destruct (genome_compare_total_ordering scored) as [Hanti _].
      { by apply Forall_forall. }
      specialize (Hanti elite elite Hin Hin). lia.
  - intros i g Hlt. rewrite replace_individuals_lookup, decide_True by lia.
    destruct (_ !! i); [|done]. cbn. by intros [= <-].
Qed.

(** X17. What a generation leaves: when [micro_ga_evolve] returns, the
    last slot holds an individual as the objective function has scored it in
    this very call -- so also in the first generation, where the population
    comes unevaluated from [micro_ga_init] --, no individual was scored
    higher, and every other slot holds a child with the fitness [-1.0] of a
    genome that has not been evaluated: of the scores computed in the call,
    the survivor's is the only one the caller can read in the engine. *)
Theorem evolve_survivor_is_best_scored (fuel : nat) (heap : scratch) (ga : micro_ga_t W)
    (w : W) (r : rng) (f : fitness_fn_t W) (inds : list micro_ga_genome_t) (st : run W) :
  engine_wf ga inds -> fitness_fn ga = Some f ->
  Forall (fun g => is_nan (fitness g) = false) (eval_list f inds w).1 ->
  micro_ga_evolve qsort fuel heap ga w r = Returned st ->
  exists (inds' : list micro_ga_genome_t) (elite : micro_ga_genome_t),
    individuals (engine st) = Some inds' /\
    last inds' = Some elite /\
    elite ∈ (eval_list f inds w).1 /\
    (forall g, g ∈ (eval_list f inds w).1 -> fle (fitness g) (fitness elite) = true) /\
    (forall (i : nat) (g : micro_ga_genome_t),
       inds' !! i = Some g -> S i < length inds' -> fitness g = f_minus_one)%nat.
Proof.
  intros Hwf Hf Hnan Hev.
  destruct (evolve_slots fuel heap ga w r f inds st Hwf Hf Hnan Hev)
    as (inds' & elite & Hi & Hlen & Hlast & Hin & Hmax & Hchildren).
  destruct Hwf as (_ & _ & Hp & _ & _ & Hl & _).
  exists inds', elite. split; [done|]. split.
  { rewrite last_lookup. rewrite <- Hlast. f_equal. lia. }
  split; [done|]. split; [done|].
  intros i g Hg Hlt. apply (Hchildren i g); [lia|done].
Qed.

End Survivor.

Lemma first_run_returned :
  micro_ga_evolve insertion_sort 100 all_allocated unevaluated_engine 0%nat lcg_rng
  = Returned first_run.
Proof.
  assert (Hret : is_returned
            (micro_ga_evolve insertion_sort 100 all_allocated unevaluated_engine 0%nat
               lcg_rng) = true) by (vm_compute; reflexivity).
  unfold first_run.
  destruct (micro_ga_evolve insertion_sort 100 all_allocated unevaluated_engine 0%nat
              lcg_rng); [reflexivity|discriminate..].
Qed.

Lemma unevaluated_engine_wf :
  engine_wf unevaluated_engine (unevaluated <$> sample_population).
Proof.
  unfold engine_wf, unevaluated_engine.
  cbn [set_individuals sample_engine ready fitness_fn population_size
       ga_genome_size individuals].
  split; [done|]. split; [by eexists|]. split; [lia|]. split; [lia|].
  split; [done|]. split; [done|]. repeat constructor.
Qed.

(** X17, the witness: the first generation of an engine whose population
    has not been evaluated. *)
Lemma evolve_survivor_is_best_scored_witness :
  exists (inds' : list micro_ga_genome_t) (elite : micro_ga_genome_t),
    individuals (engine first_run) = Some inds' /\
    last inds' = Some elite /\
    elite ∈ (eval_list sum_fitness (unevaluated <$> sample_population) 0%nat).1 /\
    (forall g, g ∈ (eval_list sum_fitness (unevaluated <$> sample_population) 0%nat).1 ->
       fle (fitness g) (fitness elite) = true) /\
    (forall (i : nat) (g : micro_ga_genome_t),
       inds' !! i = Some g -> S i < length inds' -> fitness g = f_minus_one)%nat.
Proof.
  apply (evolve_survivor_is_best_scored insertion_sort insertion_sort_perm
           insertion_sort_sorted 100 all_allocated unevaluated_engine 0%nat lcg_rng
           sum_fitness (unevaluated <$> sample_population) first_run).
  - exact unevaluated_engine_wf.
  - reflexivity.
  - vm_compute. repeat constructor.
  - exact first_run_returned.
Defined.

(** ** The loan optimizer *)

Section LoanFacts.

Variable log10 : double -> double.

(** The three payments, whatever the array held before. *)
Lemma genome_to_payments_eq (g : micro_ga_genome_t) (stack : list float) :
  length stack = NUM_LOANS ->
  genome_to_payments g stack
  = let r0 := monthly_nominal g in
    let p0 := fmul r0 (gene g 0) in
    let r1 := fsub r0 p0 in
    let p1 := fmul r1 (gene g 1) in
    [p0; p1; fsub r1 p1].
Proof.
  intros Hlen. destruct stack as [|a [|b [|c [|d stack]]]]; try discriminate Hlen.
  reflexivity.
Qed.

(** With [PAYMENT_DEVIATION] at [0.0] the sum to split is the nominal
    payment, for every finite last gene. *)
Lemma monthly_nominal_finite (g : micro_ga_genome_t) :
  is_finite (double_of_float (gene g (NUM_LOANS - 1))) = true ->
  monthly_nominal g = float_of_double PAYMENT_NOMINAL.
Proof.
  unfold monthly_nominal. intros Hfin.
  destruct (double_of_float (gene g (NUM_LOANS - 1))) as [s| | |s m e]; try discriminate Hfin.
  - destruct s; vm_compute; reflexivity.
  - destruct s; vm_compute; reflexivity.
Qed.

Lemma eval_fitness_on_stack (g : micro_ga_genome_t) (stack : list float) :
  length stack = NUM_LOANS -> eval_fitness_on log10 stack g = eval_fitness log10 g.
Proof.
  intros Hlen. unfold eval_fitness, eval_fitness_on.
  rewrite !genome_to_payments_eq by (done || by rewrite length_replicate). done.
Qed.

Lemma eval_fitness_shape (g : micro_ga_genome_t) :
  genome_size (eval_fitness log10 g) = genome_size g /\
  genes (eval_fitness log10 g) = genes g.
Proof.
  unfold eval_fitness, eval_fitness_on. by destruct (sum_paid _ _ _ _ _).
Qed.

(** The score is a function of the genes. *)
Lemma eval_fitness_genes (g g' : micro_ga_genome_t) :
  genes g = genes g' -> fitness (eval_fitness log10 g) = fitness (eval_fitness log10 g').
Proof.
  intros Hg. unfold eval_fitness, eval_fitness_on.
  rewrite !genome_to_payments_eq by (by rewrite length_replicate).
  unfold monthly_nominal, gene. rewrite Hg. by destruct (sum_paid _ _ _ _ _).
Qed.

Lemma eval_fitness_idempotent (g : micro_ga_genome_t) :
  eval_fitness log10 (eval_fitness log10 g) = eval_fitness log10 g.
Proof.
  destruct (eval_fitness_shape g) as [Hs Hg].
  pose proof (eval_fitness_genes (eval_fitness log10 g) g Hg) as Hf.
  destruct (eval_fitness_shape (eval_fitness log10 g)) as [Hs' Hg'].
  destruct (eval_fitness log10 (eval_fitness log10 g)) as [s1 g1 f1].
  destruct (eval_fitness log10 g) as [s2 g2 f2]. cbn in *. congruence.
Qed.

Lemma eval_fitness_fn_assigns_fitness_only : assigns_fitness_only (eval_fitness_fn log10).
Proof. intros w g. apply eval_fitness_shape. Qed.

Lemma eval_list_eval_fitness (inds : list micro_ga_genome_t) (w : unit) :
  eval_list (eval_fitness_fn log10) inds w = (eval_fitness log10 <$> inds, w).
Proof.
  induction inds as [|g inds IH]; cbn [eval_list fmap list_fmap]; [done|].
  unfold eval_fitness_fn at 1. rewrite IH. done.
Qed.

(** X18. The objective function of the loan optimizer: it assigns the
    fitness and leaves the size and the genes alone; it reads no element of
    its array of payments before writing it; scoring a scored genome again
    changes nothing; and with [PAYMENT_DEVIATION] at [0.0] the sum that is
    split is the nominal payment and the score depends on the first two genes
    only -- the third gene of a genome, as long as it is finite, has no
    influence on it. *)
Theorem eval_fitness_reads_two_genes (g g' : micro_ga_genome_t) (stack : list float) :
  length stack = NUM_LOANS ->
  gene g 0 = gene g' 0 -> gene g 1 = gene g' 1 ->
  is_finite (double_of_float (gene g 2)) = true ->
  is_finite (double_of_float (gene g' 2)) = true ->
  genome_size (eval_fitness log10 g) = genome_size g /\
  genes (eval_fitness log10 g) = genes g /\
  eval_fitness_on log10 stack g = eval_fitness log10 g /\
  eval_fitness log10 (eval_fitness log10 g) = eval_fitness log10 g /\
  monthly_nominal g = float_of_double PAYMENT_NOMINAL /\
  fitness (eval_fitness log10 g) = fitness (eval_fitness log10 g').
Proof.
  intros Hlen H0 H1 Hfin Hfin'.
  split; [apply eval_fitness_shape|]. split; [apply eval_fitness_shape|].
  split; [by apply eval_fitness_on_stack|]. split; [apply eval_fitness_idempotent|].
  split; [by apply monthly_nominal_finite|].
  unfold eval_fitness, eval_fitness_on.
  rewrite !genome_to_payments_eq by (by rewrite length_replicate).
  rewrite !monthly_nominal_finite by done. cbv zeta. rewrite H0, H1.
  by destruct (sum_paid _ _ _ _ _).
Qed.

(** The loop of [main] over the population scores every individual. *)
Lemma rescore_spec (k : nat) :
  forall (m : nat) (inds : list micro_ga_genome_t) (best_fitness : float)
         (best_individual : option nat),
    length inds = (m + k)%nat ->
    (rescore log10 k m inds best_fitness best_individual).1.1
    = take m inds ++ (eval_fitness log10 <$> drop m inds).
Proof.
  induction k as [|k IH]; intros m inds bf bi Hlen; cbn [rescore].
  - cbn [fst]. rewrite drop_ge by lia. cbn. by rewrite app_nil_r, take_ge by lia.
  - cbv zeta.
    assert (Hstep : take (S m) (<[m := eval_fitness log10 (inds !!! m)]> inds)
                      ++ (eval_fitness log10 <$>
                            drop (S m) (<[m := eval_fitness log10 (inds !!! m)]> inds))
                    = take m inds ++ (eval_fitness log10 <$> drop m inds)).
    { rewrite (lookup_total_drop_head inds m) by lia.
      rewrite drop_insert_lt by lia.
      rewrite (take_S_r (<[m:=eval_fitness log10 (inds !!! m)]> inds) m
                 (eval_fitness log10 (inds !!! m)))
        by (by rewrite list_lookup_insert_eq by lia).
      rewrite take_insert_ge by lia. cbn [fmap list_fmap]. by rewrite <- app_assoc. }
    destruct (fgt _ bf); rewrite IH by (rewrite length_insert; lia); exact Hstep.
Qed.

End LoanFacts.

Section MainFacts.

Variable log10 : double -> double.
Variable qsort : forall A : Type, (A -> A -> Z) -> list A -> list A.
Hypothesis qsort_perm :
  forall (A : Type) (cmp : A -> A -> Z) (l : list A), qsort A cmp l ≡ₚ l.
Hypothesis qsort_sorted :
  forall (A : Type) (cmp : A -> A -> Z) (l : list A),
    total_ordering cmp l -> StronglySorted (fun a b => cmp a b <= 0) (qsort A cmp l).

Lemma main_config_valid : ~ config_invalid (main_config log10).
Proof.
  intros [H|[H|[H|[H|[H|H]]]]].
  - discriminate H.
  - discriminate H.
  - discriminate H.
  - vm_compute in H. discriminate H.
  - vm_compute in H. discriminate H.
  - vm_compute in H. discriminate H.
Qed.

(** The call of [micro_ga_init] in [main] returns [0]. *)
Lemma main_init (fuel : nat) (ga0 : micro_ga_t unit) (r : rng) :
  (Z.to_nat POP_SIZE <= fuel)%nat ->
  exists (ga : micro_ga_t unit) (inds : list micro_ga_genome_t) (r' : rng),
    micro_ga_init fuel true (Some ga0) (Some (main_config log10)) tt r
      = Returned (0, Some ga, tt, r') /\
    optimizer_engine log10 ga inds.
Proof.
  intros Hfuel.
  destruct (micro_ga_init_unfiltered fuel ga0 (main_config log10) tt r main_config_valid
              eq_refl ltac:(change (0 <= 15 < 2 ^ 32); lia)
              ltac:(change (0 <= 3 < 2 ^ 32); lia) Hfuel)
    as (g & inds & r' & Hinit & Hready & Hinds & Hps & Hgs & Hfn & Hlen & Hseeded).
  exists g, inds, r'. split; [exact Hinit|]. clear Hinit.
  cbn [main_config cfg_population_size cfg_genome_size cfg_fitness_fn] in *.
  unfold optimizer_engine, engine_wf. rewrite Hps, Hgs, Hfn.
  split; [|split; [reflexivity|split; reflexivity]].
  split; [exact Hready|]. split; [by eexists|].
  split; [unfold POP_SIZE; lia|]. split; [change (Z.of_nat NUM_LOANS) with 3; lia|].
  split; [done|]. split; [done|].
  eapply Forall_impl; [exact Hseeded|]. intros x (? & ? & _). done.
Qed.

(** One turn of the loop of [main] on the optimizer's engine: the
    generation, then every individual scored. *)
Lemma main_iteration_returned (fuel : nat) (heap : scratch) (ga ga' : micro_ga_t unit)
    (inds : list micro_ga_genome_t) (r r' : rng) (bi bi' : option nat) :
  optimizer_engine log10 ga inds ->
  main_iteration log10 qsort fuel heap ga r bi = Returned (ga', r', bi') ->
  exists (st : run unit) (inds1 : list micro_ga_genome_t),
    micro_ga_evolve qsort fuel heap ga tt r = Returned st /\
    engine st = set_individuals ga (Some inds1) /\
    length inds1 = length inds /\
    ga' = set_individuals ga (Some (eval_fitness log10 <$> inds1)) /\
    optimizer_engine log10 ga' (eval_fitness log10 <$> inds1).
Proof.
  intros (Hwf & Hf & Hps & Hgs) Hit. unfold main_iteration in Hit.
  destruct (micro_ga_evolve qsort fuel heap ga tt r) as [st| |st| |] eqn:Hev;
    try discriminate Hit.
  destruct (evolve_population_shape qsort qsort_perm fuel heap ga tt r _ inds st Hwf Hf
              (eval_fitness_fn_assigns_fitness_only log10) Hev)
    as (inds1 & He & Hlen & Hall).
  rewrite He in Hit. cbn [set_individuals individuals population_size] in Hit.
  pose proof (rescore_spec log10 (Z.to_nat (population_size ga)) 0 inds1
                (float_of_double (literal 0 10)) bi) as Hre.
  destruct Hwf as (Hready & Hsome & Hp & Hg & Hi & Hl & Hshape).
  rewrite take_0, drop_0, app_nil_l in Hre by lia.
  destruct (rescore _ _ _ _ _ _) as [[inds2 bf2] bi2]. cbn [fst] in Hre.
  rewrite Hre in Hit by lia. injection Hit as <- <- <-.
  exists st, inds1. split; [done|]. split; [done|]. split; [done|].
  split; [done|]. unfold optimizer_engine, engine_wf.
  cbn [set_individuals ready fitness_fn population_size ga_genome_size individuals].
  split; [|done]. split; [done|]. split; [done|]. split; [done|]. split; [done|].
  split; [done|]. split; [rewrite length_fmap; lia|].
  apply Forall_fmap. eapply Forall_impl; [exact Hall|].
  intros g [Hs Hlg]. cbn. destruct (eval_fitness_shape log10 g) as [-> ->]. done.
Qed.

Lemma main_iteration_outcome (fuel : nat) (ga : micro_ga_t unit)
    (inds : list micro_ga_genome_t) (r : rng) (bi : option nat) :
  optimizer_engine log10 ga inds ->
  main_iteration log10 qsort fuel all_allocated ga r bi = OutOfFuel \/
  exists res, main_iteration log10 qsort fuel all_allocated ga r bi = Returned res.
Proof.
  intros (Hwf & Hf & Hps & Hgs). unfold main_iteration.
  destruct (micro_ga_evolve_progress qsort fuel ga tt r inds Hwf) as [->|[st Hst]];
    [by left|right].
  rewrite Hst.
  destruct (evolve_population_shape qsort qsort_perm fuel all_allocated ga tt r _ inds st
              Hwf Hf (eval_fitness_fn_assigns_fitness_only log10) Hst)
    as (inds1 & He & _).
  rewrite He. cbn [set_individuals individuals].
  destruct (rescore _ _ _ _ _ _) as [[inds2 bf2] bi2]. by eexists.
Qed.

(** The loop of [main]: the engine stays the optimizer's, and after a turn
    every individual carries its score. *)
Lemma main_loop_outcome (fuel : nat) (k : nat) :
  forall (ga : micro_ga_t unit) (inds : list micro_ga_genome_t) (r : rng)
         (bi : option nat),
    optimizer_engine log10 ga inds ->
    main_loop log10 qsort k fuel all_allocated ga r bi = OutOfFuel \/
    exists (ga' : micro_ga_t unit) (inds' : list micro_ga_genome_t) (r' : rng)
           (bi' : option nat),
      main_loop log10 qsort k fuel all_allocated ga r bi = Returned (ga', r', bi') /\
      optimizer_engine log10 ga' inds' /\
      ((k = 0%nat /\ inds' = inds) \/ Forall (fun g => eval_fitness log10 g = g) inds').
Proof.
  induction k as [|k IH]; intros ga inds r bi Hopt; cbn [main_loop].
  - right. exists ga, inds, r, bi. split; [done|]. split; [done|]. by left.
  - destruct (main_iteration_outcome fuel ga inds r bi Hopt) as [->|[[[ga1 r1] bi1] Hit]];
      [by left|].
    rewrite Hit.
    destruct (main_iteration_returned fuel all_allocated ga ga1 inds r r1 bi bi1 Hopt Hit)
      as (st & inds1 & _ & _ & _ & Hga1 & Hopt1).
    clear Hit.
    destruct (IH ga1 _ r1 bi1 Hopt1) as [->|(ga' & inds' & r' & bi' & -> & Hopt' & Hscored)];
      [by left|right].
    exists ga', inds', r', bi'. split; [done|]. split; [done|]. right.
    destruct Hscored as [[_ ->]|Hscored]; [|done].
    apply Forall_fmap. apply Forall_forall. intros g _. cbn.
    apply eval_fitness_idempotent.
Qed.

(** X19. [main] of the loan optimizer, with its memory allocated and at
    least fifteen steps for seeding: the configuration passes the checks of
    [micro_ga_init], so the assertion on its result holds; no generation
    fails an assertion or reads through a pointer with nothing behind it; and
    unless a selection loop is still drawing when the steps granted end, the
    program reaches its end.  What [print_info] is given then is a ready
    engine with fifteen genomes of three genes, each carrying the score of
    its own genes, in ascending order of the scores when these are numbers;
    [micro_ga_destroy] returns [0], and the engine it leaves is not ready and
    has no population to be read any more. *)
Theorem main_runs_safely (fuel : nat) (ga0 : micro_ga_t unit) (r : rng) :
  (Z.to_nat POP_SIZE <= fuel)%nat ->
  main log10 qsort fuel true all_allocated ga0 r = OutOfFuel \/
  exists (shown final : micro_ga_t unit) (inds : list micro_ga_genome_t),
    main log10 qsort fuel true all_allocated ga0 r = Returned (shown, final, 0) /\
    ready shown = 1 /\ individuals shown = Some inds /\
    Z.of_nat (length inds) = POP_SIZE /\
    Forall (fun g => genome_size g = Z.of_nat NUM_LOANS /\
                     length (genes g) = NUM_LOANS /\
                     eval_fitness log10 g = g) inds /\
    (Forall (fun g => is_nan (fitness g) = false) inds ->
     forall (i j : nat) (a b : micro_ga_genome_t),
       (i < j)%nat -> inds !! i = Some a -> inds !! j = Some b ->
       fle (fitness a) (fitness b) = true) /\
    final = set_ready (set_individuals shown None) 0 /\
    ready final = 0 /\ individuals final = None.
Proof.
  intros Hfuel. unfold main.
  destruct (main_init fuel ga0 r Hfuel) as (ga1 & inds1 & r1 & -> & Hopt1).
  change (negb (0 =? 0)) with false. cbv iota.
  destruct (main_loop_outcome fuel MAX_ITERATIONS ga1 inds1 r1 None Hopt1)
    as [->|(ga2 & inds2 & r2 & bi2 & -> & Hopt2 & Hscored)]; [by left|right].
  destruct Hscored as [[Hk _]|Hscored]; [discriminate Hk|].
  destruct Hopt2 as ((Hready & _ & Hp & _ & Hi & Hlen & Hshape) & _ & Hps & Hgs).
  unfold micro_ga_sort, sort_individuals. rewrite Hi.
  rewrite take_ge, drop_ge, app_nil_r by lia.
  unfold micro_ga_destroy. cbn [set_individuals ready]. rewrite Hready.
  change (negb (1 =? 1)) with false. cbv iota.
  set (sorted := qsort _ genome_compare inds2).
  assert (Hperm : sorted ≡ₚ inds2) by apply qsort_perm.
  exists (set_individuals ga2 (Some sorted)),
    (set_ready (set_individuals (set_individuals ga2 (Some sorted)) None) 0), sorted.
  split; [reflexivity|].
  cbn [set_ready set_individuals ready individuals]. split; [exact Hready|].
  split; [reflexivity|]. split; [rewrite Hperm; lia|]. split.
  { rewrite Hperm. apply Forall_forall. intros g Hg.
    rewrite Forall_forall in Hshape, Hscored.
    destruct (Hshape g Hg) as [Hs Hl]. rewrite Hgs in Hs, Hl.
    split; [done|]. split; [unfold NUM_LOANS in *; lia|]. by apply Hscored. }
  split; [|done].
  intros Hnan i j a b Hij Hia Hjb.
  assert (Hnan2 : Forall (fun g => is_nan (fitness g) = false) inds2)
    by (by rewrite <- Hperm).
  assert (Hss : StronglySorted (fun x y => genome_compare x y <= 0) sorted)
    by (apply qsort_sorted; by apply genome_compare_total_ordering).
  rewrite Forall_forall in Hnan. apply genome_compare_le.
  - apply Hnan. by eapply list_elem_of_lookup_2.
  - apply Hnan. by eapply list_elem_of_lookup_2.
  - by apply (StronglySorted_lookup _ _ Hss i j).
Qed.

(** X20. One turn of the loop of [main] never loses the best solution:
    when the scores are numbers, the last slot afterwards holds a genome of
    the population before the turn, with its score, and no genome of that
    population scores higher; every individual of the new population carries
    its score. *)
Theorem main_iteration_keeps_best (fuel : nat) (heap : scratch) (ga ga' : micro_ga_t unit)
    (inds : list micro_ga_genome_t) (r r' : rng) (bi bi' : option nat) :
  optimizer_engine log10 ga inds ->
  Forall (fun g => is_nan (fitness (eval_fitness log10 g)) = false) inds ->
  main_iteration log10 qsort fuel heap ga r bi = Returned (ga', r', bi') ->
  exists (inds' : list micro_ga_genome_t) (g0 : micro_ga_genome_t),
    individuals ga' = Some inds' /\
    length inds' = length inds /\
    g0 ∈ inds /\
    last inds' = Some (eval_fitness log10 g0) /\
    (forall g, g ∈ inds ->
       fle (fitness (eval_fitness log10 g)) (fitness (eval_fitness log10 g0)) = true) /\
    Forall (fun g => eval_fitness log10 g = g) inds'.
Proof.
  intros Hopt Hnan Hit.
  destruct (main_iteration_returned fuel heap ga ga' inds r r' bi bi' Hopt Hit)
    as (st & inds1 & Hev & He & Hlen1 & -> & Hopt').
  destruct Hopt as (Hwf & Hf & Hps & Hgs).
  assert (Hscores : Forall (fun g => is_nan (fitness g) = false)
                      (eval_list (eval_fitness_fn log10) inds tt).1).
  { rewrite eval_list_eval_fitness. cbn [fst]. by apply Forall_fmap. }
  destruct (evolve_slots qsort qsort_perm qsort_sorted fuel heap ga tt r _ inds st Hwf Hf
              Hscores Hev) as (inds1' & elite & Hi1 & Hl1 & Hlast & Hin & Hmax & _).
  rewrite He in Hi1. cbn [set_individuals individuals] in Hi1. injection Hi1 as <-.
  rewrite eval_list_eval_fitness in Hin, Hmax. cbn [fst] in Hin, Hmax.
  apply list_elem_of_fmap in Hin as (g0 & -> & Hg0).
  exists (eval_fitness log10 <$> inds1), g0.
  cbn [set_individuals individuals]. split; [done|].
  split; [by rewrite length_fmap|]. split; [done|]. split.
  - rewrite last_lookup, length_fmap, list_lookup_fmap.
    destruct Hwf as (_ & _ & Hp & _ & _ & Hl & _).
    replace (Nat.pred (length inds1)) with (Z.to_nat (population_size ga - 1)) by lia.
    rewrite Hlast. cbn. by rewrite eval_fitness_idempotent.
  - split.
    + intros g Hg. apply Hmax. apply list_elem_of_fmap. by exists g.
    + apply Forall_fmap. apply Forall_forall. intros g _. cbn.
      apply eval_fitness_idempotent.
Qed.

End MainFacts.

(** X18, the witness: two genomes that differ in the third gene. *)
Lemma eval_fitness_reads_two_genes_witness :
  genome_size (eval_fitness log10_stub (loan_genome 1073741824 536870912 1)) = 3 /\
  genes (eval_fitness log10_stub (loan_genome 1073741824 536870912 1))
    = genes (loan_genome 1073741824 536870912 1) /\
  eval_fitness_on log10_stub [f_one; f_one; f_one] (loan_genome 1073741824 536870912 1)
    = eval_fitness log10_stub (loan_genome 1073741824 536870912 1) /\
  eval_fitness log10_stub (eval_fitness log10_stub (loan_genome 1073741824 536870912 1))
    = eval_fitness log10_stub (loan_genome 1073741824 536870912 1) /\
  monthly_nominal (loan_genome 1073741824 536870912 1) = float_of_double PAYMENT_NOMINAL /\
  fitness (eval_fitness log10_stub (loan_genome 1073741824 536870912 1))
    = fitness (eval_fitness log10_stub (loan_genome 1073741824 536870912 2147483647)).
Proof.
  apply (eval_fitness_reads_two_genes log10_stub
           (loan_genome 1073741824 536870912 1)
           (loan_genome 1073741824 536870912 2147483647) [f_one; f_one; f_one]).
  - reflexivity.
  - reflexivity.
  - reflexivity.
  - vm_compute. reflexivity.
  - vm_compute. reflexivity.
Defined.

(** The program on the congruential generator, with the stand-in for
    [log10], reaches its end. *)
Lemma main_sample_returns :
  is_returned
    (main log10_stub insertion_sort 1000 true all_allocated (zeroed_engine unit) lcg_rng)
  = true.
Proof. vm_compute. reflexivity. Qed.

(** X19, the witness: the program on the congruential generator. *)
Lemma main_runs_safely_witness :
  exists (shown final : micro_ga_t unit) (inds : list micro_ga_genome_t),
    main log10_stub insertion_sort 1000 true all_allocated (zeroed_engine unit) lcg_rng
      = Returned (shown, final, 0) /\
    ready shown = 1 /\ individuals shown = Some inds /\
    Z.of_nat (length inds) = POP_SIZE /\
    Forall (fun g => genome_size g = Z.of_nat NUM_LOANS /\
                     length (genes g) = NUM_LOANS /\
                     eval_fitness log10_stub g = g) inds /\
    (Forall (fun g => is_nan (fitness g) = false) inds ->
     forall (i j : nat) (a b : micro_ga_genome_t),
       (i < j)%nat -> inds !! i = Some a -> inds !! j = Some b ->
       fle (fitness a) (fitness b) = true) /\
    final = set_ready (set_individuals shown None) 0 /\
    ready final = 0 /\ individuals final = None.
Proof.
  destruct (main_runs_safely log10_stub insertion_sort insertion_sort_perm
              insertion_sort_sorted 1000 (zeroed_engine unit) lcg_rng) as [Hout|Hend].
  - change (Z.to_nat POP_SIZE) with 15%nat. lia.
  - pose proof main_sample_returns as Hret. rewrite Hout in Hret. discriminate Hret.
  - exact Hend.
Defined.

Lemma optimizer_start_engine :
  optimizer_engine log10_stub optimizer_start optimizer_population.
Proof.
  destruct (main_init log10_stub 15 (zeroed_engine unit) lcg_rng
              ltac:(change (15 <= 15)%nat; lia))
    as (ga & inds & r' & Hinit & Hopt).
  unfold optimizer_population, optimizer_start, optimizer_init. rewrite Hinit.
  clear Hinit. cbn [fst snd]. destruct Hopt as (Hwf & Hrest).
  pose proof Hwf as (_ & _ & _ & _ & -> & _). exact (conj Hwf Hrest).
Qed.

Lemma optimizer_scores_are_numbers :
  Forall (fun g => is_nan (fitness (eval_fitness log10_stub g)) = false)
    optimizer_population.
Proof.
  assert (H : scores_are_numbers log10_stub optimizer_population = true)
    by (vm_compute; reflexivity).
  unfold scores_are_numbers in H. rewrite forallb_forall in H.
  apply Forall_forall. intros g Hg. apply list_elem_of_In in Hg.
  specialize (H g Hg). by destruct (is_nan _).
Qed.

Lemma optimizer_turn_returned :
  main_iteration log10_stub insertion_sort 1000 all_allocated optimizer_start
    optimizer_init.2 None
  = Returned (optimizer_turn.1.1, optimizer_turn.1.2, optimizer_turn.2).
Proof.
  assert (Hret : is_returned
            (main_iteration log10_stub insertion_sort 1000 all_allocated optimizer_start
               optimizer_init.2 None) = true) by (vm_compute; reflexivity).
  unfold optimizer_turn.
  destruct (main_iteration log10_stub insertion_sort 1000 all_allocated optimizer_start
              optimizer_init.2 None) as [[[ga r] bi]| | | |];
    [reflexivity|discriminate..].
Qed.

(** X20, the witness: the first turn of the loop on the engine that
    [micro_ga_init] makes from the congruential generator. *)
Lemma main_iteration_keeps_best_witness :
  exists (inds' : list micro_ga_genome_t) (g0 : micro_ga_genome_t),
    individuals optimizer_turn.1.1 = Some inds' /\
    length inds' = length optimizer_population /\
    g0 ∈ optimizer_population /\
    last inds' = Some (eval_fitness log10_stub g0) /\
    (forall g, g ∈ optimizer_population ->
       fle (fitness (eval_fitness log10_stub g))
         (fitness (eval_fitness log10_stub g0)) = true) /\
    Forall (fun g => eval_fitness log10_stub g = g) inds'.
Proof.
  apply (main_iteration_keeps_best log10_stub insertion_sort insertion_sort_perm
           insertion_sort_sorted 1000 all_allocated optimizer_start optimizer_turn.1.1
           optimizer_population optimizer_init.2 optimizer_turn.1.2 None optimizer_turn.2).
  - exact optimizer_start_engine.
  - exact optimizer_scores_are_numbers.
  - exact optimizer_turn_returned.
Defined.

(** ** Where the children come from *)

(** [crossover] draws twice for every gene. *)
Lemma crossover_random (mother father child c : micro_ga_genome_t) (gsize : Z)
    (rate : float) (r r' : rng) :
  crossover mother father child gsize rate r = Returned (c, r') ->
  r' = advance (2 * Z.to_nat gsize) r.
Proof.
  unfold crossover. intros Hc.
  destruct (negb (0 <? gsize)); [done|]. destruct (2 ^ 32 <=? gsize); [done|].
  destruct (crossover_genes_spec (Z.to_nat gsize) 0 mother father rate (genes child) r)
    as (Hr & _).
  destruct (crossover_genes _ _ _ _ _ _ _) as [cg r'']. injection Hc as _ <-.
  exact Hr.
Qed.

(** The loop "Breed!": child [i] is the crossover of the pair of parents
    number [i], written into the buffer the child had, with the draws that
    follow those of the children before it. *)
Lemma breed_pairs (gsize : Z) (rate : float) (inds : list micro_ga_genome_t)
    (parents : list nat) (k : nat) :
  forall (n nc : nat) (children children' : list micro_ga_genome_t) (r r' : rng),
    breed k n nc inds parents gsize rate children r = Returned (children', r') ->
    r' = advance (2 * Z.to_nat gsize * k) r /\
    forall i : nat, (nc <= i < nc + k)%nat -> (i < length children)%nat ->
      exists c : micro_ga_genome_t,
        children' !! i = Some c /\
        crossover (inds !!! (parents !!! (n + 2 * (i - nc))%nat))
          (inds !!! (parents !!! (n + 2 * (i - nc) + 1)%nat))
          (children !!! i) gsize rate (advance (2 * Z.to_nat gsize * (i - nc)) r)
        = Returned (c, advance (2 * Z.to_nat gsize * (i - nc + 1)) r).
Proof.
  induction k as [|k IH]; intros n nc children children' r r'; cbn [breed].
  - intros [= <- <-]. split; [|intros; lia].
    replace (2 * Z.to_nat gsize * 0)%nat with 0%nat by lia. by rewrite advance_0.
  - destruct (crossover _ _ _ gsize rate r) as [[c1 r1]| | | |] eqn:Ec; try done.
    pose proof (crossover_random _ _ _ _ _ _ _ _ Ec) as ->.
    intros Hb. pose proof (breed_shape _ _ _ _ _ _ _ _ _ _ _ Hb) as [Hl Hget].
    rewrite length_insert in Hl.
    destruct (IH _ _ _ _ _ _ Hb) as [-> Hrest]. split.
    { rewrite advance_advance. f_equal. lia. }
    intros i Hi Hlen. destruct (decide (i = nc)) as [->|Hne].
    + destruct (lookup_lt_is_Some_2 children' nc ltac:(lia)) as [c Hc].
      destruct (Hget nc c Hc) as (c0 & Hc0 & _ & Hcase).
      rewrite decide_False in Hcase by lia. subst c0.
      rewrite list_lookup_insert_eq in Hc0 by done. injection Hc0 as ->.
      exists c. split; [done|].
      replace (n + 2 * (nc - nc))%nat with n by lia.
      replace (2 * Z.to_nat gsize * (nc - nc))%nat with 0%nat by lia.
      replace (2 * Z.to_nat gsize * (nc - nc + 1))%nat with (2 * Z.to_nat gsize)%nat by lia.
      rewrite advance_0. exact Ec.
    + destruct (Hrest i ltac:(lia) ltac:(rewrite length_insert; lia)) as (c & Hc & Hcross).
      exists c. split; [done|].
      rewrite list_lookup_total_insert_ne in Hcross by done.
      rewrite !advance_advance in Hcross.
      replace (i - nc)%nat with (S (i - (nc + 1))) by lia.
      set (d := (i - (nc + 1))%nat) in *.
      replace (n + 2 + 2 * d)%nat with (n + 2 * S d)%nat in Hcross by lia.
      replace (2 * Z.to_nat gsize + 2 * Z.to_nat gsize * d)%nat
        with (2 * Z.to_nat gsize * S d)%nat in Hcross by lia.
      replace (2 * Z.to_nat gsize + 2 * Z.to_nat gsize * (d + 1))%nat
        with (2 * Z.to_nat gsize * (S d + 1))%nat in Hcross by lia.
      exact Hcross.
Qed.

(** The loop "Mutate!": child [i] is mutated once, with the draws that
    follow those of the child before it; the others stay.  [rs i] is the
    generator before the mutation of child [i]. *)
Lemma mutate_children_chain (rate : float) (k : nat) :
  forall (n : nat) (children children' : list micro_ga_genome_t) (r r' : rng),
    mutate_children k n rate children r = Returned (children', r') ->
    exists rs : nat -> rng,
      rs n = r /\ rs (n + k)%nat = r' /\
      length children' = length children /\
      forall i : nat, (i < length children)%nat ->
        if decide (n <= i < n + k)%nat then
          mutate (children !!! i) rate (rs i) = Returned (children' !!! i, rs (S i))
        else children' !!! i = children !!! i.
Proof.
  induction k as [|k IH]; intros n children children' r r'; cbn [mutate_children].
  - intros [= <- <-]. exists (fun _ => r). split; [done|]. split; [done|].
    split; [done|]. intros i Hi. by rewrite decide_False by lia.
  - destruct (mutate _ rate r) as [[c1 r1]| | | |] eqn:Em; try done.
    intros Hm. apply IH in Hm as (rs' & Hs & He & Hl & Hget).
    rewrite length_insert in Hl.
    exists (fun i => if decide (i <= n)%nat then r else rs' i).
    split; [by rewrite decide_True by lia|]. split.
    { rewrite decide_False by lia. rewrite <- He. f_equal. lia. }
    split; [done|]. intros i Hi.
    specialize (Hget i ltac:(rewrite length_insert; lia)).
    destruct (decide (i = n)) as [->|Hne].
    + rewrite decide_False in Hget by lia. rewrite decide_True by lia.
      rewrite decide_True by lia. rewrite decide_False by lia.
      rewrite Hget, list_lookup_total_insert_eq by done. by rewrite Hs.
    + rewrite list_lookup_total_insert_ne in Hget by done.
      destruct (decide (S n <= i < S n + k)%nat), (decide (n <= i < n + S k)%nat);
        try lia; [|done].
      rewrite decide_False by lia. rewrite decide_False by lia. done.
Qed.

Section Offspring.

Context {W : Type}.
Variable qsort : forall A : Type, (A -> A -> Z) -> list A -> list A.
Hypothesis qsort_perm :
  forall (A : Type) (cmp : A -> A -> Z) (l : list A), qsort A cmp l ≡ₚ l.

(** X21. The make of a generation.  When [micro_ga_evolve] returns, the
    population it leaves is this one: with the population scored and sorted,
    the parents drawn from where the generator stood, and [r1] the generator
    after the selection, slot [i] below the last holds the child number [i]:
    the crossover of the parents number [2i] and [2i+1], two different
    individuals of the sorted population, into a zeroed buffer, made with the
    [2 * genome_size] draws that follow those of the children before it, and
    then mutated with the draws that follow the mutation of the child before
    it, the first mutation starting where the last crossover ends; it has the
    genome size of the engine and the fitness [-1.0].  The last slot holds
    the last individual of the sorted population, and the generator is left
    where the last mutation ends. *)
Theorem evolve_offspring (fuel : nat) (heap : scratch) (ga : micro_ga_t W) (w : W)
    (r : rng) (f : fitness_fn_t W) (inds : list micro_ga_genome_t) (st : run W) :
  engine_wf ga inds -> fitness_fn ga = Some f -> assigns_fitness_only f ->
  micro_ga_evolve qsort fuel heap ga w r = Returned st ->
  let psize := population_size ga in
  let gsize := ga_genome_size ga in
  let draws := (2 * Z.to_nat gsize)%nat in
  let sorted := sort_individuals qsort psize (eval_list f inds w).1 in
  let prob := selection_distribution psize sorted in
  exists (parents : list nat) (pcount : nat) (r1 : rng) (rs : nat -> rng)
         (inds' : list micro_ga_genome_t),
    select_parents fuel psize (psize - 1) 0 0 prob
      (replicate (Z.to_nat (psize * 2)) 0%nat) r = Returned (parents, pcount, r1) /\
    individuals (engine st) = Some inds' /\
    length inds' = Z.to_nat psize /\
    inds' !! Z.to_nat (psize - 1) = sorted !! Z.to_nat (psize - 1) /\
    rs 0%nat = advance (draws * Z.to_nat (psize - 1)) r1 /\
    random st = rs (Z.to_nat (psize - 1)) /\
    forall i : nat, Z.of_nat i < psize - 1 ->
      let mother := parents !!! (2 * i)%nat in
      let father := parents !!! (2 * i + 1)%nat in
      mother <> father /\
      Z.of_nat mother < psize /\ Z.of_nat father < psize /\
      exists c1 c2 : micro_ga_genome_t,
        crossover (sorted !!! mother) (sorted !!! father) (fresh_child gsize)
          gsize (crossover_rate ga) (advance (draws * i) r1)
          = Returned (c1, advance (draws * (i + 1)) r1) /\
        mutate c1 (mutation_rate ga) (rs i) = Returned (c2, rs (S i)) /\
        inds' !! i = Some {| genome_size := gsize; genes := genes c2;
                             fitness := f_minus_one |}.
Proof.
  intros (Hready & _ & Hp & Hg & Hi & Hlen & Hshape) Hf Hfit Hev. cbv zeta.
  destruct (micro_ga_evolve_returned qsort fuel heap ga w r f inds st Hf Hi Hlen Hp Hev)
    as (parents & pc & r1 & ch1 & r2 & ch2 & Hsel & Hb & Hm & He & _).
  pose proof (eval_list_length f inds w) as Hel.
  unfold sort_individuals. rewrite take_ge, drop_ge, app_nil_r by lia.
  set (psize := population_size ga) in *. set (gsize := ga_genome_size ga) in *.
  set (sorted := qsort _ genome_compare (eval_list f inds w).1) in *.
  assert (Hperm : sorted ≡ₚ (eval_list f inds w).1) by apply qsort_perm.
  assert (Hslen : length sorted = length inds) by (by rewrite Hperm).
  assert (Hsshape : Forall (fun g => Z.of_nat (length (genes g)) = gsize) sorted).
  { rewrite Hperm. apply eval_list_shape.
    - intros w' g Hgl. destruct (Hfit w' g) as [_ ->]. done.
    - eapply Forall_impl; [exact Hshape|]. by intros g [_ Hl]. }
  pose proof Hsel as Hsel'.
  apply select_parents_pairs in Hsel' as (Hpc & _ & Hall & _ & Hpairs & _);
    [|lia|rewrite length_replicate; lia|apply Forall_replicate; lia].
  rewrite Z.sub_0_r in Hpc.
  assert (Hbound : forall j : nat, Z.of_nat (parents !!! j) < psize).
  { intros j. destruct (parents !! j) as [x|] eqn:E.
    - rewrite (list_lookup_total_correct _ _ _ E).
      rewrite Forall_forall in Hall. apply Hall. by eapply list_elem_of_lookup_2.
    - rewrite list_lookup_total_alt, E. cbn. lia. }
  destruct (breed_pairs _ _ _ _ _ _ _ _ _ _ _ Hb) as [Hr2 Hbred].
  pose proof (breed_shape _ _ _ _ _ _ _ _ _ _ _ Hb) as [Hbl _].
  rewrite length_replicate in Hbl.
  destruct (mutate_children_chain _ _ _ _ _ _ _ Hm) as (rs & Hrs0 & Hrsk & Hml & Hmut).
  exists parents, pc, r1, rs, (replace_individuals (Z.to_nat (psize - 1)) 0 ch2 sorted).
  split; [exact Hsel|]. split; [by rewrite He|].
  split; [rewrite replace_individuals_length; lia|].
  split; [by rewrite replace_individuals_lookup, decide_False by lia|].
  split; [by rewrite Hrs0, Hr2|]. split; [by rewrite <- Hrsk|].
  intros i Hilt.
  split; [apply (Hpairs i); lia|]. split; [apply Hbound|]. split; [apply Hbound|].
  destruct (Hbred i ltac:(lia) ltac:(rewrite length_replicate; lia))
    as (c1 & Hc1 & Hcross).
  rewrite lookup_total_replicate_2 in Hcross by lia.
  replace (0 + 2 * (i - 0))%nat with (2 * i)%nat in Hcross by lia.
  replace (i - 0)%nat with i in Hcross by lia.
  specialize (Hmut i ltac:(lia)). rewrite decide_True in Hmut by lia.
  rewrite (list_lookup_total_correct _ _ _ Hc1) in Hmut.
  exists c1, (ch2 !!! i). split; [exact Hcross|]. split; [exact Hmut|].
  rewrite replace_individuals_lookup, decide_True by lia.
  destruct (lookup_lt_is_Some_2 sorted i ltac:(lia)) as [old Hold]. rewrite Hold.
  cbn [fmap option_fmap option_map]. f_equal.
  apply crossover_shape in Hcross as (Hs1 & Hl1 & _).
  apply mutate_shape in Hmut as (Hs2 & Hl2 & _).
  cbn [fresh_child genes] in Hl1. rewrite length_replicate in Hl1.
  rewrite Forall_forall in Hsshape.
  pose proof (Hsshape old ltac:(by eapply list_elem_of_lookup_2)) as Hol.
  unfold replace_individual. rewrite Hs2, Hs1. f_equal.
  rewrite take_ge, drop_ge by lia. by rewrite app_nil_r.
Qed.

End Offspring.

(** X21, the witness: the generation of the sample engine. *)
Lemma evolve_offspring_witness :
  let sorted :=
    sort_individuals insertion_sort 4 (eval_list sum_fitness sample_population 0%nat).1 in
  exists (parents : list nat) (pcount : nat) (r1 : rng) (rs : nat -> rng)
         (inds' : list micro_ga_genome_t),
    select_parents 100 4 (4 - 1) 0 0 (selection_distribution 4 sorted)
      (replicate (Z.to_nat (4 * 2)) 0%nat) lcg_rng = Returned (parents, pcount, r1) /\
    individuals (engine sample_run) = Some inds' /\
    length inds' = Z.to_nat 4 /\
    inds' !! Z.to_nat (4 - 1) = sorted !! Z.to_nat (4 - 1) /\
    rs 0%nat = advance (2 * Z.to_nat 2 * Z.to_nat (4 - 1)) r1 /\
    random sample_run = rs (Z.to_nat (4 - 1)) /\
    forall i : nat, Z.of_nat i < 4 - 1 ->
      parents !!! (2 * i)%nat <> parents !!! (2 * i + 1)%nat /\
      Z.of_nat (parents !!! (2 * i)%nat) < 4 /\
      Z.of_nat (parents !!! (2 * i + 1)%nat) < 4 /\
      exists c1 c2 : micro_ga_genome_t,
        crossover (sorted !!! (parents !!! (2 * i)%nat))
          (sorted !!! (parents !!! (2 * i + 1)%nat)) (fresh_child 2)
          2 f_zero (advance (2 * Z.to_nat 2 * i) r1)
          = Returned (c1, advance (2 * Z.to_nat 2 * (i + 1)) r1) /\
        mutate c1 f_zero (rs i) = Returned (c2, rs (S i)) /\
        inds' !! i = Some {| genome_size := 2; genes := genes c2;
                             fitness := f_minus_one |}.
Proof.
  apply (evolve_offspring insertion_sort insertion_sort_perm 100 all_allocated
           sample_engine 0%nat lcg_rng sum_fitness sample_population sample_run).
  - exact sample_engine_wf.
  - reflexivity.
  - exact sum_fitness_assigns_fitness_only.
  - exact sample_run_returned.
Defined.

(** ** The acceptance function after the initial population *)

(** X22. The acceptance function is asked when the initial population is
    drawn and never again: [micro_ga_evolve] does not read it, so a call ends
    in the same way, with the same population, caller's world, generator
    state and output, whatever acceptance function the engine holds; and the
    children are not filtered -- a population that passed the filter in
    [micro_ga_init] holds, one generation later, an individual that the
    filter rejects. *)
Theorem acceptance_fn_only_at_init :
  (forall (W : Type) (qsort : forall A : Type, (A -> A -> Z) -> list A -> list A)
          (fuel : nat) (heap : scratch) (ga : micro_ga_t W)
          (acc : option (acceptance_fn_t W)) (w : W) (r : rng),
     observe (micro_ga_evolve qsort fuel heap (set_acceptance_fn ga acc) w r)
     = observe (micro_ga_evolve qsort fuel heap ga w r)) /\
  (exists (ga : micro_ga_t nat) (w : nat) (r : rng) (inds : list micro_ga_genome_t)
          (st : run nat) (inds' : list micro_ga_genome_t),
     micro_ga_init 100 true (Some (zeroed_engine nat)) (Some mutating_filtered_config)
       0%nat lcg_rng = Returned (0, Some ga, w, r) /\
     individuals ga = Some inds /\
     Forall (fun g => first_gene_high g = true) inds /\
     micro_ga_evolve insertion_sort 100 all_allocated ga w r = Returned st /\
     individuals (engine st) = Some inds' /\
     Exists (fun g => first_gene_high g = false) inds').
Proof.
  split.
  - intros W qsort fuel heap ga acc w r. unfold micro_ga_evolve.
    cbn [set_acceptance_fn ready fitness_fn individuals population_size ga_genome_size
         crossover_rate mutation_rate].
    repeat (case_match; try reflexivity).
  - assert (H : filter_outlived = true) by (vm_compute; reflexivity).
    unfold filter_outlived in H.
    destruct (micro_ga_init 100 true (Some (zeroed_engine nat))
                (Some mutating_filtered_config) 0%nat lcg_rng)
      as [[[[code [ga|]] w] r]| | | |] eqn:Einit; try discriminate H.
    destruct (individuals ga) as [inds|] eqn:Einds; [|discriminate H].
    apply andb_true_iff in H as [Hall H].
    destruct (micro_ga_evolve insertion_sort 100 all_allocated ga w r)
      as [st| | | |] eqn:Eev; try discriminate H.
    destruct (individuals (engine st)) as [inds'|] eqn:Einds'; [|discriminate H].
    assert (Hcode : code = 0).
    { unfold micro_ga_init in Einit.
      destruct (config_rejected mutating_filtered_config) eqn:Erej;
        [vm_compute in Erej; discriminate Erej|].
      cbn [negb] in Einit.
      destruct (population_init _ _ _ _) as [[[g1 w1] r1]| | | |]; try discriminate Einit.
      by injection Einit as <- _ _ _. }
    subst code. exists ga, w, r, inds, st, inds'.
    split; [done|]. split; [done|]. split.
    { apply Forall_forall. intros g Hg. rewrite forallb_forall in Hall.
      apply Hall. by apply list_elem_of_In. }
    split; [done|]. split; [done|].
    apply existsb_exists in H as (g & Hg & Hneg).
    apply Exists_exists. exists g. split; [by apply list_elem_of_In|].
    by destruct (first_gene_high g).
Qed.

(** ** The scratch array of the parents *)

(** X23. When [calloc] fails for [parents] only, on an engine with its
    population of at least two, [micro_ga_evolve] does not return: the
    message is written, the population is scored and sorted and the
    distribution built, and the selection draws before it first goes
    through the null pointer: once when the wheel finds a mother for the
    first draw (the store of the mother), twice when it finds none (the
    store of the father, or the comparison of the two). *)
Theorem evolve_null_parents {W : Type}
    (qsort : forall A : Type, (A -> A -> Z) -> list A -> list A)
    (fuel : nat) (ga : micro_ga_t W) (w : W) (r : rng)
    (f : fitness_fn_t W) (inds : list micro_ga_genome_t) :
  ready ga = 1 -> fitness_fn ga = Some f -> individuals ga = Some inds ->
  1 < population_size ga < 2 ^ 32 ->
  let psize := population_size ga in
  let scored := evaluate f (Z.to_nat psize) 0 inds w in
  let sorted := sort_individuals qsort psize scored.1 in
  let prob := selection_distribution psize sorted in
  let draws :=
    match roulette (Z.to_nat psize) 0 (unit_double (tape r (cursor r))) prob with
    | Some _ => 1%nat
    | None => 2%nat
    end in
  micro_ga_evolve qsort fuel no_parents ga w r
  = Fault {| engine := set_individuals ga (Some sorted); world := scored.2;
             random := advance draws r; stderr := [could_not_allocate] |}.
Proof.
  intros Hr Hf Hi Hp. cbv zeta. unfold micro_ga_evolve. rewrite Hr, Hf, Hi.
  change (1 =? 1) with true. cbn [negb].
  destruct (evaluate f _ 0 inds w) as [inds1 w1]. cbn [fst snd].
  cbn [no_parents children_ok prob_ok parents_ok negb andb orb].
  rewrite u32_small by lia.
  replace (0 <? population_size ga - 1) with true by (symmetry; apply Z.ltb_lt; lia).
  rewrite drand_eq.
  destruct (roulette _ 0 _ _); [reflexivity|].
  rewrite drand_eq, advance_advance. reflexivity.
Qed.

(** X23, the witness: the sample engine before evaluation; the wheel finds
    a mother for the first draw. *)
Lemma evolve_null_parents_witness :
  micro_ga_evolve insertion_sort 100 no_parents unevaluated_engine 0%nat lcg_rng
  = Fault {| engine :=
               set_individuals unevaluated_engine
                 (Some (sort_individuals insertion_sort 4
                          (evaluate sum_fitness (Z.to_nat 4) 0
                             (map unevaluated sample_population) 0%nat).1));
             world := (evaluate sum_fitness (Z.to_nat 4) 0
                         (map unevaluated sample_population) 0%nat).2;
             random := advance 1 lcg_rng; stderr := [could_not_allocate] |} /\
  micro_ga_evolve insertion_sort 100 no_parents unevaluated_engine 0%nat lcg_rng
  <> micro_ga_evolve insertion_sort 100 all_allocated unevaluated_engine 0%nat lcg_rng.
Proof.
  split.
  - apply (evolve_null_parents insertion_sort 100 unevaluated_engine 0%nat lcg_rng
             sum_fitness (map unevaluated sample_population)).
    + reflexivity.
    + reflexivity.
    + reflexivity.
    + change (1 < 4 < 2 ^ 32). lia.
  - rewrite (evolve_null_parents insertion_sort 100 unevaluated_engine 0%nat lcg_rng
               sum_fitness (map unevaluated sample_population)
               eq_refl eq_refl eq_refl ltac:(change (1 < 4 < 2 ^ 32); lia)).
    intros H.
    assert (Hret : is_returned
              (micro_ga_evolve insertion_sort 100 all_allocated unevaluated_engine
                 0%nat lcg_rng) = true) by (vm_compute; reflexivity).
    rewrite <- H in Hret. discriminate Hret.
Defined.
